(** * OER_corrections.py: thermochemical corrections of adsorbed species

    A shallow embedding of [src/OER_corrections.py] (class [Corrections]:
    the validating constructor and the three static calculators) and the
    properties of it that the specification states.

    Python's [float] is IEEE binary64.  The arithmetic the program uses is
    kept behind one interface, [Arith], with two instances:
    - [binary64]: Rocq's primitive floats, which are binary64 with the same
      rounding as Python and numpy; [np.exp] and [np.log] are library
      functions and stay parameters ([Numpy]);
    - [exact]: the real numbers, with the real exponential and logarithm.
      It gives the value the program's expressions denote before rounding.
    Every definition of the program is written once, over the interface.
    [np.sum] is written out as numpy computes it, because the order of the
    additions shows in the last bits of a binary64 sum.

    Arguments are Python values ([pyval]); a list is an object in a store,
    so that what the constructor does to the caller's list can be stated.
    The constructor runs in a state and exception monad over the store and
    the standard output. *)

From Stdlib Require Import ZArith List String Bool Reals Floats Lra Lia.
From stdpp Require Import base option gmap.
Import ListNotations.

Set Warnings "-inexact-float,-register-all".

(** ** Arithmetic of Python floats *)

Class Arith (F : Type) : Type := {
  fadd : F -> F -> F;
  fsub : F -> F -> F;
  fmul : F -> F -> F;
  (** IEEE division: what numpy's [/] computes (inf or nan on a zero divisor) *)
  fdiv : F -> F -> F;
  fneg : F -> F;
  (** [x == y] and [x <= y]; both are false on a nan *)
  feqb : F -> F -> bool;
  fleb : F -> F -> bool;
  (** the literals [0] (also the value of [np.sum] of nothing), [1] and [0.5] *)
  fzero : F;
  fone : F;
  fhalf : F
}.

(** The two functions the program takes from numpy besides [np.sum]. *)
Class Numpy (F : Type) : Type := {
  np_exp : F -> F;
  np_log : F -> F
}.

Declare Scope py_scope.
Delimit Scope py_scope with py.
Notation "x + y" := (fadd x y) : py_scope.
Notation "x - y" := (fsub x y) : py_scope.
Notation "x * y" := (fmul x y) : py_scope.
Notation "x / y" := (fdiv x y) : py_scope.
Notation "- x" := (fneg x) : py_scope.

(** The module-level constants (lines 6-9).  Their values come from
    [scipy.constants]; the program only fixes which ones are read. *)
Class Constants (F : Type) : Type := {
  boltzmann_constant : F;
  planck_constant : F;
  speed_of_light : F
}.

Definition gas_constant_R {F : Type} {K : Constants F} : F := boltzmann_constant.

(** ** Python values, exceptions and the store *)

Definition loc := positive.

(** The values a caller can pass.  A list is a mutable object: a value of
    type list is a reference into the store. *)
Inductive pyval (F : Type) : Type :=
| PyNone
| PyBool (b : bool)
| PyInt (n : Z)
| PyFloat (x : F)
| PyStr (s : string)
| PyTuple (items : list (pyval F))
| PyList (l : loc).

Arguments PyNone {F}.
Arguments PyBool {F} b.
Arguments PyInt {F} n.
Arguments PyFloat {F} x.
Arguments PyStr {F} s.
Arguments PyTuple {F} items.
Arguments PyList {F} l.

(** An exception message: a string literal, or the f-string of line 27,
    which shows the offending element. *)
Inductive message (F : Type) : Type :=
| Literal (s : string)
| FString (before : string) (value : pyval F) (after : string).

Arguments Literal {F} s.
Arguments FString {F} before value after.

Inductive exn (F : Type) : Type :=
| TypeError (m : message F)
| ValueError (m : message F)
| ZeroDivisionError.

Arguments TypeError {F} m.
Arguments ValueError {F} m.
Arguments ZeroDivisionError {F}.

Inductive outcome (F A : Type) : Type :=
| Returns (a : A)
| Raises (e : exn F).

Arguments Returns {F A} a.
Arguments Raises {F A} e.

(** What the three [print] calls of lines 39-41 write. *)
Inductive line (F : Type) : Type :=
| PrintSpecimen (name : string)
| PrintTerms (zpe s_vib t_s_vib delta_u : F)
| PrintTotal (total : F).

Arguments PrintSpecimen {F} name.
Arguments PrintTerms {F} zpe s_vib t_s_vib delta_u.
Arguments PrintTotal {F} total.

Record world (F : Type) : Type := World {
  heap : gmap loc (list (pyval F));
  stdout : list (line F)
}.

Arguments World {F} heap stdout.
Arguments heap {F} w.
Arguments stdout {F} w.

(** The object the constructor builds.  [frequencies] is the caller's list
    itself (line 34 stores the reference, it does not copy). *)
Record Corrections (F : Type) : Type := Self {
  name : string;
  frequencies : loc;
  temperature : F;
  ZPE : F;
  S_vib : F;
  deltaU : F
}.

Arguments Self {F} name frequencies temperature ZPE S_vib deltaU.
Arguments name {F} c.
Arguments frequencies {F} c.
Arguments temperature {F} c.
Arguments ZPE {F} c.
Arguments S_vib {F} c.
Arguments deltaU {F} c.

(** ** Computations that may raise, with and without the store *)

Definition result (F A : Type) : Type := outcome F A.

Definition bind_result {F A B : Type} (r : result F A) (k : A -> result F B) : result F B :=
  match r with
  | Returns a => k a
  | Raises e => Raises e
  end.

Definition M (F A : Type) : Type := world F -> outcome F A * world F.

Definition ret {F A : Type} (a : A) : M F A := fun w => (Returns a, w).

Definition raise {F A : Type} (e : exn F) : M F A := fun w => (Raises e, w).

Definition bind {F A B : Type} (m : M F A) (k : A -> M F B) : M F B :=
  fun w =>
    match m w with
    | (Returns a, w') => k a w'
    | (Raises e, w') => (Raises e, w')
    end.

Definition lift {F A : Type} (r : result F A) : M F A := fun w => (r, w).

(** [len] and iteration read a list object; a reference handed over by a
    caller is allocated. *)
Definition read {F : Type} (l : loc) : M F (list (pyval F)) :=
  fun w => (Returns (default [] (heap w !! l)), w).

Definition print {F : Type} (ln : line F) : M F unit :=
  fun w => (Returns tt, World (heap w) (stdout w ++ [ln])).

Declare Scope monad_scope.
Delimit Scope monad_scope with monad.
Notation "x <- m ;; k" := (bind m (fun x => k))
  (at level 100, m at next level, right associativity) : monad_scope.
Notation "m ;; k" := (bind m (fun _ => k))
  (at level 100, right associativity) : monad_scope.
Notation "x <~ r ;; k" := (bind_result r (fun x => k))
  (at level 100, r at next level, right associativity) : monad_scope.

(** [[f(x) for x in xs]] where [f] may raise: elements are evaluated in
    list order and the first exception ends the comprehension. *)
Fixpoint comprehension {F A B : Type} (f : A -> result F B) (xs : list A) : result F (list B) :=
  match xs with
  | [] => Returns []
  | x :: rest =>
      bind_result (f x) (fun y =>
      bind_result (comprehension f rest) (fun ys => Returns (y :: ys)))
  end.

Section Program.

Context {F : Type} {A : Arith F} {N : Numpy F} {K : Constants F}.

Local Open Scope py_scope.
Local Open Scope string_scope.

(** [np.sum] of a list of floats.  numpy does not add the elements one
    after the other: with no axis given it uses what its documentation
    calls partial pairwise summation.  Up to seven elements are added in
    order, starting from [0.0].  From eight elements on, eight running
    sums are kept, the [j]-th over the elements [j], [j+8], [j+16], ...;
    they are combined as [((r0+r1)+(r2+r3))+((r4+r5)+(r6+r7))] and the
    elements left over after the last full group of eight are added to
    that in order.  Beyond 128 elements the array is split in two, at a
    multiple of eight, and the sums of the halves are added.

    Two things that numpy's reduction does around this routine are not
    written out: it adds the result to the initial value [0.0], which
    turns a sum [-0.0] into [0.0], and it hands the routine at most 8192
    elements at a time.  [np_sum] is what numpy returns for lists of up
    to 8192 elements, up to the sign of a zero. *)
Fixpoint add_block (r block : list F) : list F :=
  match r, block with
  | r_j :: r', a_j :: block' => (r_j + a_j) :: add_block r' block'
  | _, _ => r
  end.

Fixpoint unrolled_loop (blocks : nat) (r a : list F) : list F * list F :=
  match blocks with
  | O => (r, a)
  | S blocks' => unrolled_loop blocks' (add_block r (firstn 8 a)) (skipn 8 a)
  end.

Definition combine_lanes (r : list F) : F :=
  match r with
  | [r0; r1; r2; r3; r4; r5; r6; r7] => ((r0 + r1) + (r2 + r3)) + ((r4 + r5) + (r6 + r7))
  | _ => fzero
  end.

Definition pairwise_block (a : list F) : F :=
  let '(r, rest) := unrolled_loop (List.length a / 8 - 1) (firstn 8 a) (skipn 8 a) in
  fold_left fadd rest (combine_lanes r).

(** [fuel] bounds the depth of the splitting; the length of the list is
    always enough. *)
Fixpoint pairwise_sum (fuel : nat) (a : list F) : F :=
  let n := List.length a in
  if (n <? 8)%nat then fold_left fadd a fzero
  else if (n <=? 128)%nat then pairwise_block a
  else
    match fuel with
    | O => fzero
    | S fuel' =>
        let n2 := (n / 2 - (n / 2) mod 8)%nat in
        pairwise_sum fuel' (firstn n2 a) + pairwise_sum fuel' (skipn n2 a)
    end.

Definition np_sum (xs : list F) : F := pairwise_sum (List.length xs) xs.

(** Python's [/] on two floats: a zero divisor raises. *)
Definition truediv (x y : F) : result F F :=
  if feqb y fzero then Raises ZeroDivisionError else Returns (x / y).

(** *** The static calculators (lines 43-95) *)

Definition calculate_ZPE (frequency_list : list F) : F :=
  fhalf * np_sum (map (fun freq => planck_constant * speed_of_light * freq) frequency_list).

Definition hnu_over_kt (temperature : F) (f : F) : result F F :=
  truediv (planck_constant * speed_of_light * f) (boltzmann_constant * temperature).

Definition Svib_term (temperature : F) (frequency : F) : result F F :=
  (x <~ hnu_over_kt temperature frequency ;;
   x' <~ hnu_over_kt temperature frequency ;;
   Returns ((planck_constant * speed_of_light * frequency)
              / (boltzmann_constant * temperature * (np_exp x - fone))
            - np_log (fone - np_exp (- x'))))%monad.

Definition calculate_Svib (frequency_list : list F) (temperature : F) : result F F :=
  (terms <~ comprehension (Svib_term temperature) frequency_list ;;
   Returns (gas_constant_R * np_sum terms))%monad.

Definition deltaU_term (temperature : F) (frequency : F) : result F F :=
  (x <~ hnu_over_kt temperature frequency ;;
   Returns ((planck_constant * speed_of_light * frequency)
              / (boltzmann_constant * (np_exp x - fone))))%monad.

Definition calculate_deltaU (frequency_list : list F) (temperature : F) : result F F :=
  (terms <~ comprehension (deltaU_term temperature) frequency_list ;;
   Returns (gas_constant_R * np_sum terms))%monad.

(** *** The constructor (lines 15-41) *)

Definition isinstance_str (v : pyval F) : bool :=
  match v with PyStr _ => true | _ => false end.

Definition isinstance_List (v : pyval F) : bool :=
  match v with PyList _ => true | _ => false end.

Definition isinstance_float (v : pyval F) : bool :=
  match v with PyFloat _ => true | _ => false end.

Definition float_value (v : pyval F) : option F :=
  match v with PyFloat x => Some x | _ => None end.

(** The loop of lines 25-27. *)
Fixpoint check_elements (elements : list (pyval F)) : M F unit :=
  match elements with
  | [] => ret tt
  | freq :: rest =>
      if negb (isinstance_float freq)
      then raise (TypeError (FString
             "Frequencies must be floating point values. Invalid element: " freq "."))
      else check_elements rest
  end.

(** Lines 17-20. *)
Definition check_name (adsorbate_name : pyval F) : M F unit :=
  match adsorbate_name with
  | PyStr s =>
      if (String.length s =? 0)%nat
      then raise (ValueError (Literal
             "The name of the adsorbate must contain at least one character."))
      else ret tt
  | _ => raise (TypeError (Literal "The name of the adsorbed specimen must be a string."))
  end.

(** Lines 21-27. *)
Definition check_frequencies (frequencies : pyval F) : M F unit :=
  match frequencies with
  | PyList l =>
      (elements <- read l ;;
       if (List.length elements =? 0)%nat
       then raise (ValueError (Literal
              "The list of frequencies must contain at least one value."))
       else check_elements elements)%monad
  | _ => raise (TypeError (Literal "Frequencies must be of type List."))
  end.

(** Lines 28-31. *)
Definition check_temperature (temperature : pyval F) : M F unit :=
  match temperature with
  | PyFloat t =>
      if fleb t fzero
      then raise (ValueError (Literal "Temperature must be a positive value."))
      else ret tt
  | _ => raise (TypeError (Literal "Temperature must be a floating point value."))
  end.

(** Lines 33-41.  The checks before them leave a string, a list of floats
    and a float; the calculators are applied to those.  The last case is
    what the arithmetic of the calculators would raise on anything else. *)
Definition construct (adsorbate_name frequencies temperature : pyval F) : M F (Corrections F) :=
  match adsorbate_name, frequencies, temperature with
  | PyStr s, PyList l, PyFloat t =>
      (elements <- read l ;;
       match mapM float_value elements with
       | Some frequency_list =>
           let zpe := calculate_ZPE frequency_list in
           s_vib <- lift (calculate_Svib frequency_list t) ;;
           delta_u <- lift (calculate_deltaU frequency_list t) ;;
           print (PrintSpecimen s) ;;
           print (PrintTerms zpe s_vib (t * s_vib) delta_u) ;;
           print (PrintTotal (zpe - t * s_vib + delta_u)) ;;
           ret (Self s l t zpe s_vib delta_u)
       | None => raise (TypeError (Literal "unsupported operand type(s)"))
       end)%monad
  | _, _, _ => raise (TypeError (Literal "unsupported operand type(s)"))
  end.

(** The three lines a successful construction prints, in order. *)
Definition report (s : string) (t zpe s_vib delta_u : F) : list (line F) :=
  [ PrintSpecimen s;
    PrintTerms zpe s_vib (t * s_vib) delta_u;
    PrintTotal (zpe - t * s_vib + delta_u) ].

Definition __init__ (adsorbate_name frequencies temperature : pyval F) : M F (Corrections F) :=
  (check_name adsorbate_name ;;
   check_frequencies frequencies ;;
   check_temperature temperature ;;
   construct adsorbate_name frequencies temperature)%monad.

End Program.

(** ** The two arithmetics *)

(** binary64, as Python and numpy compute. *)
#[global] Instance binary64 : Arith float := {|
  fadd := PrimFloat.add;
  fsub := PrimFloat.sub;
  fmul := PrimFloat.mul;
  fdiv := PrimFloat.div;
  fneg := PrimFloat.opp;
  feqb := PrimFloat.eqb;
  fleb := PrimFloat.leb;
  fzero := 0%float;
  fone := 1%float;
  fhalf := 0.5%float
|}.

(** The real numbers, with the real exponential and natural logarithm.
    Nothing is rounded here, and the division and the logarithm of the
    real numbers have a value everywhere, where numpy gives an infinity
    or a nan: a statement at this instance says what the program's
    expressions denote where every divisor is non-zero and every
    logarithm is of a positive number. *)
#[global] Instance exact : Arith R := {|
  fadd := Rplus;
  fsub := Rminus;
  fmul := Rmult;
  fdiv := Rdiv;
  fneg := Ropp;
  feqb := fun x y => if Req_dec_T x y then true else false;
  fleb := fun x y => if Rle_dec x y then true else false;
  fzero := 0%R;
  fone := 1%R;
  fhalf := (1 / 2)%R
|}.

#[global] Instance exact_numpy : Numpy R := {|
  np_exp := exp;
  np_log := ln
|}.

(** Two binary64 values that Python's [==] or identity cannot tell apart:
    the same value, or equal under IEEE comparison (the two zeros). *)
Definition same_float (x y : float) : Prop :=
  x = y \/ PrimFloat.eqb x y = true.

(** The constants of [scipy.constants] (CODATA 2018 and 2022 agree on
    them): [physical_constants["Boltzmann constant in eV/K"]],
    [physical_constants["Planck constant in eV/Hz"]], and on line 8
    [speed_of_light/centi] with [speed_of_light = 299792458.0] and
    [centi = 0.01].  The two physical constants are exact numbers with
    infinitely many digits.  [scipy_binary64] holds the ten digits that
    CODATA prints and scipy tabulates; [scipy_binary64_derived] holds the
    quotients [k/e] and [h/e] of the defining constants, which later
    releases of scipy compute instead. *)
Definition scipy_binary64 : Constants float := {|
  boltzmann_constant := 8.617333262e-05%float;
  planck_constant := 4.135667696e-15%float;
  speed_of_light := (299792458 / 0.01)%float
|}.

Definition scipy_binary64_derived : Constants float := {|
  boltzmann_constant := (1.380649e-23 / 1.602176634e-19)%float;
  planck_constant := (6.62607015e-34 / 1.602176634e-19)%float;
  speed_of_light := (299792458 / 0.01)%float
|}.

(** A statement about the program in binary64 under either table. *)
Definition under_scipy_constants (P : Constants float -> Prop) : Prop :=
  P scipy_binary64 /\ P scipy_binary64_derived.

Definition scipy_exact : Constants R := {|
  boltzmann_constant := (8617333262 / 10 ^ 14)%R;
  planck_constant := (4135667696 / 10 ^ 24)%R;
  speed_of_light := (299792458 / (1 / 100))%R
|}.

(** ** The specification's reading of the validator (section 4.1) *)

(** The seven checks, in the specification's words.  The element check
    carries the offending element it reports. *)
Inductive check (F : Type) : Type :=
| NameType
| NameLength
| ContainerType
| ContainerEmpty
| ElementType (offender : pyval F)
| TemperatureType
| TemperatureValue.

Arguments NameType {F}.
Arguments NameLength {F}.
Arguments ContainerType {F}.
Arguments ContainerEmpty {F}.
Arguments ElementType {F} offender.
Arguments TemperatureType {F}.
Arguments TemperatureValue {F}.

(** The specification's two error kinds. *)
Inductive error_kind : Type :=
| InvalidArgumentType
| InvalidArgumentValue.

Definition kind_of {F : Type} (e : exn F) : option error_kind :=
  match e with
  | TypeError _ => Some InvalidArgumentType
  | ValueError _ => Some InvalidArgumentValue
  | ZeroDivisionError => None
  end.

Section Validator.

Context {F : Type} {A : Arith F}.

Local Open Scope string_scope.

(** The exception each check raises (lines 18, 20, 22, 24, 27, 29, 31). *)
Definition exception_of (c : check F) : exn F :=
  match c with
  | NameType => TypeError (Literal "The name of the adsorbed specimen must be a string.")
  | NameLength =>
      ValueError (Literal "The name of the adsorbate must contain at least one character.")
  | ContainerType => TypeError (Literal "Frequencies must be of type List.")
  | ContainerEmpty =>
      ValueError (Literal "The list of frequencies must contain at least one value.")
  | ElementType offender =>
      TypeError (FString
        "Frequencies must be floating point values. Invalid element: " offender ".")
  | TemperatureType => TypeError (Literal "Temperature must be a floating point value.")
  | TemperatureValue => ValueError (Literal "Temperature must be a positive value.")
  end.

Definition name_has_no_character (adsorbate_name : pyval F) : bool :=
  match adsorbate_name with PyStr s => (String.length s =? 0)%nat | _ => false end.

(** The elements of the frequency container, in order. *)
Definition elements_of (h : gmap loc (list (pyval F))) (frequencies : pyval F) : list (pyval F) :=
  match frequencies with PyList l => default [] (h !! l) | _ => [] end.

Definition temperature_not_positive (temperature : pyval F) : bool :=
  match temperature with PyFloat t => fleb t fzero | _ => false end.

Definition not_float (v : pyval F) : bool := negb (isinstance_float v).

(** The order of section 4.1: type of name, length of name, type of the
    container, emptiness of the container, type of each element scanning
    in order, type of temperature, value of temperature.  The result is
    the first check that fails. *)
Definition first_failing_check (h : gmap loc (list (pyval F)))
    (adsorbate_name frequencies temperature : pyval F) : option (check F) :=
  if negb (isinstance_str adsorbate_name) then Some NameType
  else if name_has_no_character adsorbate_name then Some NameLength
  else if negb (isinstance_List frequencies) then Some ContainerType
  else if (List.length (elements_of h frequencies) =? 0)%nat then Some ContainerEmpty
  else match List.find not_float (elements_of h frequencies) with
       | Some offender => Some (ElementType offender)
       | None =>
           if negb (isinstance_float temperature) then Some TemperatureType
           else if temperature_not_positive temperature then Some TemperatureValue
           else None
       end.

End Validator.

(** The kind of error the specification gives each check. *)
Definition spec_kind {F : Type} (c : check F) : error_kind :=
  match c with
  | NameType | ContainerType | ElementType _ | TemperatureType => InvalidArgumentType
  | NameLength | ContainerEmpty | TemperatureValue => InvalidArgumentValue
  end.

(** A request that meets the data model of section 3: a name with at
    least one character, a list object holding the floats [nus], at least
    one of them, and a float temperature that is not [<= 0]. *)
Definition valid_name (s : string) : Prop := String.length s <> 0%nat.

Definition valid_frequencies {F : Type} (w : world F) (l : loc) (nus : list F) : Prop :=
  heap w !! l = Some (map PyFloat nus) /\ nus <> [].

Definition valid_request {F : Type} {A : Arith F} (w : world F)
    (s : string) (l : loc) (nus : list F) (t : F) : Prop :=
  valid_name s /\ valid_frequencies w l nus /\ fleb t fzero = false.

(** A world whose only object is a list at address 1, nothing printed. *)
Definition world_with {F : Type} (elements : list (pyval F)) : world F :=
  World {[ 1%positive := elements ]} [].

(** "Summed in list order": the sum of a list is the sum of everything
    before its last element, plus that element.  [sum_upto] takes the
    elements last first. *)
Fixpoint sum_upto {F : Type} {A : Arith F} (reversed : list F) : F :=
  match reversed with
  | [] => fzero
  | last :: before => fadd (sum_upto before) last
  end.

Definition sum_in_list_order {F : Type} {A : Arith F} (xs : list F) : F :=
  sum_upto (rev xs).

(** ** The formulas of sections 4.2-4.4, in the real numbers *)

Module Formula.

Local Open Scope R_scope.

Section Formulas.

Context {K : Constants R}.

(** Σ over a list. *)
Fixpoint Sigma (f : R -> R) (nus : list R) : R :=
  match nus with
  | [] => 0
  | nu :: rest => f nu + Sigma f rest
  end.

(** [x_i = h*c*ν_i / (k_B * T)] *)
Definition x (T nu : R) : R :=
  planck_constant * speed_of_light * nu / (boltzmann_constant * T).

(** [ZPE = 0.5 * Σ_i (h * c * ν_i)] *)
Definition ZPE (nus : list R) : R :=
  0.5 * Sigma (fun nu => planck_constant * speed_of_light * nu) nus.

(** [S_vib = k_B * Σ_i [ x_i / (e^{x_i} - 1) - ln(1 - e^{-x_i}) ]] *)
Definition S_vib (nus : list R) (T : R) : R :=
  boltzmann_constant *
  Sigma (fun nu => x T nu / (exp (x T nu) - 1) - ln (1 - exp (- x T nu))) nus.


(** The same sum without the factor [k_B]: an energy, in eV. *)
Definition deltaU (nus : list R) (T : R) : R :=
  Sigma (fun nu => planck_constant * speed_of_light * nu / (exp (x T nu) - 1)) nus.

End Formulas.

End Formula.

(** ** The elements of the two sums *)

Section Summands.

Context {F : Type} {A : Arith F} {N : Numpy F} {K : Constants F}.

Local Open Scope py_scope.




End Summands.

(** ** Rounding in binary64, on integers

    The primitive floats are specified by [SpecFloat]: an operation is
    the exact operation on mantissas and exponents followed by
    [binary_round_aux].  The definitions below describe that rounding on
    the integers [m * 2^(e + bias)], on which it can be compared. *)

Section RoundingDefinitions.

Local Open Scope Z_scope.

(** round to nearest, ties to even, of m / 2^n *)
Definition rne (m n : Z) : Z :=
  let k := m / 2 ^ n in
  match 2 * (m mod 2 ^ n) ?= 2 ^ n with
  | Lt => k
  | Eq => if Z.even k then k else k + 1
  | Gt => k + 1
  end.

(** Floats are compared through integers: the float [m * 2^e] has the
    key [m * 2^(e + bias)], and the infinities have the keys
    [+- 2^(1024 + bias)].  The bias makes every exponent that occurs,
    down to that of a product of two subnormal numbers, non-negative. *)
Definition bias : Z := 2200.

Definition key_inf : Z := 2 ^ (1024 + bias).

(** The exponent of the last bit of a binary64 number below [2^e]. *)
Definition fexp64 (e : Z) : Z := Z.max (e - 53) (-1074).

Definition key (x : spec_float) : Z :=
  match x with
  | S754_zero _ | S754_nan => 0
  | S754_infinity s => cond_Zopp s key_inf
  | S754_finite s m e => cond_Zopp s (Zpos m * 2 ^ (e + bias))
  end.

(** The last steps of [binary_round_aux], on the rounded mantissa. *)
Definition finish_rounding (s : bool) (k E : Z) : spec_float :=
  let '(mrs, e) := shr_fexp prec emax k E loc_Exact in
  match shr_m mrs with
  | Z0 => S754_zero s
  | Zpos m => if e <=? emax - prec then S754_finite s m e else S754_infinity s
  | Zneg _ => S754_nan
  end.

(** The rounding of a positive value [v], scaled by [2^bias]. *)
Definition round_exp (v : Z) : Z := fexp64 (Zdigits2 v - bias) + bias.

Definition round_value (v : Z) : Z := rne v (round_exp v) * 2 ^ round_exp v.

(** Rounding of any scaled value, with overflow to infinity. *)
Definition round_key (v : Z) : Z :=
  match v with
  | Z0 => 0
  | Zpos _ => Z.min (round_value v) key_inf
  | Zneg _ => - Z.min (round_value (- v)) key_inf
  end.

Definition is_nan_sf (x : spec_float) : bool :=
  match x with S754_nan => true | _ => false end.

Definition finite_or_zero (x : spec_float) : bool :=
  match x with S754_zero _ | S754_finite _ _ _ => true | _ => false end.

(** The order of floats, with a nan on neither side of [<]. *)
Definition SFnot_below (x y : spec_float) : Prop := SFltb y x = false.

(** [y] is not below [x]: [y < x] is false. *)
Definition not_below (x y : float) : Prop := PrimFloat.ltb y x = false.

(** A float strictly between zero and infinity. *)
Definition positive_finite (p : float) : Prop :=
  PrimFloat.ltb 0 p = true /\ PrimFloat.ltb p infinity = true.

End RoundingDefinitions.

(** ** The script (lines 97-109) *)

(** A table of the document, as the dictionary [tomllib.load] makes of
    it: its keys with their values. *)
Definition table (F : Type) : Type := list (string * pyval F).

(** The document, where the script reads it: the value at
    ["temperature"] and the tables of the array of tables ["specimen"],
    [None] for a key that the file does not have.  A value is a string,
    an integer, a float or a boolean, or an array, which is a list
    object in the store.  Documents in which ["specimen"] is not an
    array of tables, and values that are dates, times or tables, are
    outside this type. *)
Record document (F : Type) : Type := Document {
  data_temperature : option (pyval F);
  data_specimen : option (list (table F))
}.

Arguments Document {F} data_temperature data_specimen.
Arguments data_temperature {F} d.
Arguments data_specimen {F} d.

(** What lines 99-100 find: no file ([open] raises [FileNotFoundError]),
    a file that is not TOML ([tomllib.load] raises [TOMLDecodeError]),
    or a document. *)
Inductive file (F : Type) : Type :=
| Missing
| Malformed
| Parsed (data : document F).

Arguments Missing {F}.
Arguments Malformed {F}.
Arguments Parsed {F} data.

(** The exceptions that leave the script. *)
Inductive uncaught (F : Type) : Type :=
| Exn (e : exn F)
| KeyError (key : string)
| FileNotFoundError
| TOMLDecodeError.

Arguments Exn {F} e.
Arguments KeyError {F} key.
Arguments FileNotFoundError {F}.
Arguments TOMLDecodeError {F}.

(** What the script prints: the document (line 101), the message of line
    104, and the lines of the constructor. *)
Inductive script_line (F : Type) : Type :=
| PrintData (data : document F)
| PrintNotFound
| Line (ln : line F).

Arguments PrintData {F} data.
Arguments PrintNotFound {F}.
Arguments Line {F} ln.

Record session (F : Type) : Type := Session {
  objects : gmap loc (list (pyval F));
  screen : list (script_line F)
}.

Arguments Session {F} objects screen.
Arguments objects {F} s.
Arguments screen {F} s.

Inductive ending (F A : Type) : Type :=
| Completes (a : A)
| Uncaught (e : uncaught F).

Arguments Completes {F A} a.
Arguments Uncaught {F A} e.

Definition Script (F A : Type) : Type := session F -> ending F A * session F.

Definition complete {F A : Type} (a : A) : Script F A := fun t => (Completes a, t).

Definition throw {F A : Type} (e : uncaught F) : Script F A := fun t => (Uncaught e, t).

Definition and_then {F A B : Type} (m : Script F A) (k : A -> Script F B) : Script F B :=
  fun t =>
    match m t with
    | (Completes a, t') => k a t'
    | (Uncaught e, t') => (Uncaught e, t')
    end.

Declare Scope script_scope.
Delimit Scope script_scope with script.
Notation "x <- m ;; k" := (and_then m (fun x => k))
  (at level 100, m at next level, right associativity) : script_scope.
Notation "m ;; k" := (and_then m (fun _ => k))
  (at level 100, right associativity) : script_scope.

Definition display {F : Type} (ln : script_line F) : Script F unit :=
  fun t => (Completes tt, Session (objects t) (screen t ++ [ln])).

(** [d[key]] on a dictionary. *)
Fixpoint get {F : Type} (key : string) (d : table F) : option (pyval F) :=
  match d with
  | [] => None
  | (k, v) :: rest => if String.eqb k key then Some v else get key rest
  end.

Definition subscript {F A : Type} (key : string) (found : option A) : Script F A :=
  match found with
  | Some v => complete v
  | None => throw (KeyError key)
  end.

Definition type_name {F : Type} (v : pyval F) : string :=
  match v with
  | PyNone => "NoneType"
  | PyBool _ => "bool"
  | PyInt _ => "int"
  | PyFloat _ => "float"
  | PyStr _ => "str"
  | PyTuple _ => "tuple"
  | PyList _ => "list"
  end.

(** The characters of a string.  A string is held as its UTF-8 bytes; a
    character is a byte that does not continue another one, with the
    continuation bytes after it. *)
Definition continues (c : Ascii.ascii) : bool :=
  let n := Ascii.nat_of_ascii c in (128 <=? n)%nat && (n <? 192)%nat.

Fixpoint characters (s : string) : list string :=
  match s with
  | EmptyString => []
  | String c rest =>
      match rest with
      | String c' _ =>
          if continues c'
          then match characters rest with
               | following :: others => String c following :: others
               | [] => [String c EmptyString]
               end
          else String c EmptyString :: characters rest
      | EmptyString => [String c EmptyString]
      end
  end.

(** The elements that [for j in v] goes through: the elements of a list
    or a tuple, the characters of a string; another value is not
    iterable. *)
Definition iterate {F : Type} (v : pyval F) : Script F (list (pyval F)) :=
  match v with
  | PyList l => fun t => (Completes (default [] (objects t !! l)), t)
  | PyTuple items => complete items
  | PyStr s => complete (map PyStr (characters s))
  | _ => throw (Exn (TypeError (Literal ("'" ++ type_name v ++ "' object is not iterable"))))
  end.

(** A list display or comprehension makes a new list object. *)
Definition new_list {F : Type} (items : list (pyval F)) : Script F loc :=
  fun t =>
    let l := fresh (dom (objects t)) in
    (Completes l, Session (<[l := items]> (objects t)) (screen t)).

Section Script.

Context {F : Type} {A : Arith F} {N : Numpy F} {K : Constants F}.

Local Open Scope string_scope.

(** The call [Corrections(...)]: the constructor runs on the store, and
    what it prints goes to the screen. *)
Definition call_Corrections (adsorbate_name frequencies temperature : pyval F)
    : Script F (Corrections F) :=
  fun t =>
    match __init__ adsorbate_name frequencies temperature (World (objects t) []) with
    | (Returns o, w) => (Completes o, Session (heap w) (screen t ++ map Line (stdout w)))
    | (Raises e, w) => (Uncaught (Exn e), Session (heap w) (screen t ++ map Line (stdout w)))
    end.

(** Line 109.  The arguments are evaluated from left to right; the
    object is not kept. *)
Definition loop_body (temperature : pyval F) (i : table F) : Script F unit :=
  (adsorbate_name <- subscript "name" (get "name" i) ;;
   source <- subscript "frequencies" (get "frequencies" i) ;;
   js <- iterate source ;;
   frequencies <- new_list js ;;
   call_Corrections adsorbate_name (PyList frequencies) temperature ;;
   complete tt)%script.

(** Lines 108-109. *)
Fixpoint for_specimen (temperature : pyval F) (specimen : list (table F)) : Script F unit :=
  match specimen with
  | [] => complete tt
  | i :: rest => (loop_body temperature i ;; for_specimen temperature rest)%script
  end.

(** Lines 98-109. *)
Definition main (found : file F) : Script F unit :=
  match found with
  | Missing => (display PrintNotFound ;; throw FileNotFoundError)%script
  | Malformed => throw TOMLDecodeError
  | Parsed data =>
      (display (PrintData data) ;;
       temperature <- subscript "temperature" (data_temperature data) ;;
       specimen <- subscript "specimen" (data_specimen data) ;;
       for_specimen temperature specimen)%script
  end.

(** The three lines of a specimen whose constructor returns. *)
Definition report_of (temperature : F) (s : string) (nus : list F) : result F (list (line F)) :=
  (s_vib <~ calculate_Svib nus temperature ;;
   delta_u <~ calculate_deltaU nus temperature ;;
   Returns (report s temperature (calculate_ZPE nus) s_vib delta_u))%monad.

End Script.

(** A specimen of the document that meets the data model: a name with a
    character and an array of floats, at least one. *)
Definition valid_specimen {F : Type} (store : gmap loc (list (pyval F))) (i : table F)
    (s : string) (nus : list F) : Prop :=
  exists l, get "name" i = Some (PyStr s) /\ valid_name s /\
            get "frequencies" i = Some (PyList l) /\
            store !! l = Some (map PyFloat nus) /\ nus <> [].

(** ** The constructor, step by step *)

Section Constructor.

Context {F : Type} {A : Arith F} {N : Numpy F} {K : Constants F}.

Local Open Scope string_scope.

Lemma check_elements_find (elements : list (pyval F)) (w : world F) :
  check_elements elements w =
  match List.find not_float elements with
  | Some offender => (Raises (exception_of (ElementType offender)), w)
  | None => (Returns tt, w)
  end.
Proof.
  induction elements as [|freq rest IH]; simpl; [reflexivity|].
  unfold not_float at 1.
  destruct (negb (isinstance_float freq)); [reflexivity|exact IH].
Qed.

(** The constructor is its validation followed by [construct]. *)
Lemma init_first_failing_check (adsorbate_name frequencies temperature : pyval F)
    (w : world F) :
  __init__ adsorbate_name frequencies temperature w =
  match first_failing_check (heap w) adsorbate_name frequencies temperature with
  | Some c => (Raises (exception_of c), w)
  | None => construct adsorbate_name frequencies temperature w
  end.
Proof.
  unfold __init__, first_failing_check, bind.
  destruct adsorbate_name as [| | | |s| |]; simpl; try reflexivity.
  destruct (String.length s =? 0)%nat; simpl; [reflexivity|].
  destruct frequencies as [| | | | | |l]; simpl; try reflexivity.
  unfold bind, read; simpl.
  destruct (List.length (default [] (heap w !! l)) =? 0)%nat; simpl; [reflexivity|].
  rewrite check_elements_find.
  destruct (List.find not_float (default [] (heap w !! l))); simpl; [reflexivity|].
  destruct temperature as [| | |t| | |]; simpl; try reflexivity.
  destruct (fleb t fzero); reflexivity.
Qed.

Lemma find_not_float_floats (fs : list F) :
  List.find (not_float (F:=F)) (map PyFloat fs) = None.
Proof. induction fs; simpl; auto. Qed.

Lemma mapM_float_value_floats (fs : list F) :
  mapM float_value (map PyFloat fs) = Some fs.
Proof.
  induction fs as [|x fs IH]; [reflexivity|].
  simpl. rewrite IH. reflexivity.
Qed.

Lemma valid_request_passes (w : world F) (s : string) (l : loc) (fs : list F) (t : F) :
  valid_request w s l fs t ->
  first_failing_check (heap w) (PyStr s) (PyList l) (PyFloat t) = None.
Proof.
  intros (Hs & (Hl & Hfs) & Ht).
  unfold first_failing_check; simpl.
  destruct (Nat.eqb_spec (String.length s) 0) as [E|_]; [contradiction|].
  rewrite Hl; simpl.
  rewrite length_map.
  destruct fs as [|nu fs]; [contradiction|]. simpl.
  change (not_float (PyFloat nu)) with false. cbv iota.
  rewrite find_not_float_floats, Ht. reflexivity.
Qed.

(** What lines 33-41 do on a valid request. *)
Lemma init_valid_request (w : world F) (s : string) (l : loc) (fs : list F) (t : F) :
  valid_request w s l fs t ->
  __init__ (PyStr s) (PyList l) (PyFloat t) w =
  match calculate_Svib fs t with
  | Raises e => (Raises e, w)
  | Returns s_vib =>
      match calculate_deltaU fs t with
      | Raises e => (Raises e, w)
      | Returns delta_u =>
          (Returns (Self s l t (calculate_ZPE fs) s_vib delta_u),
           World (heap w)
             (stdout w ++ report s t (calculate_ZPE fs) s_vib delta_u))
      end
  end.
Proof.
  intros Hv. rewrite init_first_failing_check, (valid_request_passes _ _ _ _ _ Hv).
  destruct Hv as (_ & (Hl & _) & _).
  unfold construct, bind, read, lift; simpl. rewrite Hl; simpl.
  rewrite mapM_float_value_floats.
  destruct (calculate_Svib fs t) as [s_vib|e]; [|reflexivity].
  destruct (calculate_deltaU fs t) as [delta_u|e]; [|reflexivity].
  unfold print, ret, report; simpl.
  rewrite <- !app_assoc. reflexivity.
Qed.

End Constructor.

(** ** What the computation can raise, and what it leaves alone *)

Section Effects.

Context {F : Type} {A : Arith F} {N : Numpy F} {K : Constants F}.

Local Open Scope string_scope.

Lemma truediv_raises (x y : F) (e : exn F) :
  truediv x y = Raises e -> e = ZeroDivisionError.
Proof. unfold truediv. destruct (feqb y fzero); congruence. Qed.

Lemma comprehension_raises {B : Type} (f : F -> result F B) (xs : list F) (e : exn F) :
  (forall x e', f x = Raises e' -> e' = ZeroDivisionError) ->
  comprehension f xs = Raises e -> e = ZeroDivisionError.
Proof.
  intros Hf. induction xs as [|x xs IH]; simpl; [discriminate|].
  destruct (f x) as [y|e'] eqn:E; simpl.
  - destruct (comprehension f xs) as [ys|e'']; simpl; [discriminate|].
    intros H. apply IH. congruence.
  - intros H. injection H as <-. eapply Hf, E.
Qed.

Lemma Svib_term_raises (t x : F) (e : exn F) :
  Svib_term t x = Raises e -> e = ZeroDivisionError.
Proof.
  unfold Svib_term, hnu_over_kt.
  destruct (truediv _ _) as [y|e'] eqn:E; simpl; [discriminate|].
  intros H. injection H as <-. eapply truediv_raises, E.
Qed.

Lemma deltaU_term_raises (t x : F) (e : exn F) :
  deltaU_term t x = Raises e -> e = ZeroDivisionError.
Proof.
  unfold deltaU_term, hnu_over_kt.
  destruct (truediv _ _) as [y|e'] eqn:E; simpl; [discriminate|].
  intros H. injection H as <-. eapply truediv_raises, E.
Qed.

Lemma calculate_Svib_raises (fs : list F) (t : F) (e : exn F) :
  calculate_Svib fs t = Raises e -> e = ZeroDivisionError.
Proof.
  unfold calculate_Svib.
  destruct (comprehension _ fs) as [terms|e'] eqn:E; simpl; [discriminate|].
  intros H. injection H as <-.
  eapply comprehension_raises, E. intros x e''. apply Svib_term_raises.
Qed.

Lemma calculate_deltaU_raises (fs : list F) (t : F) (e : exn F) :
  calculate_deltaU fs t = Raises e -> e = ZeroDivisionError.
Proof.
  unfold calculate_deltaU.
  destruct (comprehension _ fs) as [terms|e'] eqn:E; simpl; [discriminate|].
  intros H. injection H as <-.
  eapply comprehension_raises, E. intros x e''. apply deltaU_term_raises.
Qed.

(** [construct] writes nothing to the store; it raises, if at all, what
    the arithmetic raises. *)
Lemma construct_heap (adsorbate_name frequencies temperature : pyval F) (w : world F) :
  heap (snd (construct adsorbate_name frequencies temperature w)) = heap w.
Proof.
  unfold construct.
  destruct adsorbate_name as [| | | |s| |]; try reflexivity.
  destruct frequencies as [| | | | | |l]; try reflexivity.
  destruct temperature as [| | |t| | |]; try reflexivity.
  unfold bind, read, lift; simpl.
  destruct (mapM float_value _) as [fs|]; [|reflexivity].
  destruct (calculate_Svib fs t); [|reflexivity].
  destruct (calculate_deltaU fs t); reflexivity.
Qed.

Lemma construct_raises (adsorbate_name frequencies temperature : pyval F)
    (w w' : world F) (e : exn F) :
  construct adsorbate_name frequencies temperature w = (Raises e, w') ->
  e = ZeroDivisionError \/ e = TypeError (Literal "unsupported operand type(s)").
Proof.
  unfold construct.
  destruct adsorbate_name as [| | | |s| |]; try (intros [= <- _]; now right).
  destruct frequencies as [| | | | | |l]; try (intros [= <- _]; now right).
  destruct temperature as [| | |t| | |]; try (intros [= <- _]; now right).
  unfold bind, read, lift; simpl.
  destruct (mapM float_value _) as [fs|]; [|intros [= <- _]; now right].
  destruct (calculate_Svib fs t) as [s_vib|e1] eqn:E1.
  - destruct (calculate_deltaU fs t) as [delta_u|e2] eqn:E2; [discriminate|].
    intros [= <- _]. left. eapply calculate_deltaU_raises, E2.
  - intros [= <- _]. left. eapply calculate_Svib_raises, E1.
Qed.

Lemma construct_returns (adsorbate_name container temperature : pyval F)
    (w w' : world F) (o : Corrections F) :
  construct adsorbate_name container temperature w = (Returns o, w') ->
  PyList (frequencies o) = container.
Proof.
  unfold construct.
  destruct adsorbate_name as [| | | |s| |]; try discriminate.
  destruct container as [| | | | | |l]; try discriminate.
  destruct temperature as [| | |t| | |]; try discriminate.
  unfold bind, read, lift; simpl.
  destruct (mapM float_value _) as [fs|]; [|discriminate].
  destruct (calculate_Svib fs t); [|discriminate].
  destruct (calculate_deltaU fs t); [|discriminate].
  intros [= <- _]. reflexivity.
Qed.

Lemma init_heap (adsorbate_name frequencies temperature : pyval F) (w : world F) :
  heap (snd (__init__ adsorbate_name frequencies temperature w)) = heap w.
Proof.
  rewrite init_first_failing_check.
  destruct (first_failing_check _ _ _ _); [reflexivity|apply construct_heap].
Qed.

(** Adding the elements one after the other, from [0.0], is the sum in
    list order. *)
Lemma fold_left_in_list_order (xs : list F) :
  fold_left fadd xs fzero = sum_in_list_order xs.
Proof.
  unfold sum_in_list_order.
  rewrite <- (rev_involutive xs) at 1.
  induction (rev xs) as [|x before IH]; [reflexivity|].
  simpl. rewrite fold_left_app. simpl. now rewrite IH.
Qed.

(** [np.sum] adds fewer than eight elements in list order. *)
Lemma np_sum_short (xs : list F) :
  (List.length xs < 8)%nat -> np_sum xs = fold_left fadd xs fzero.
Proof.
  intros Hlen. unfold np_sum.
  assert (Hlt : (List.length xs <? 8)%nat = true) by (apply Nat.ltb_lt, Hlen).
  destruct (List.length xs) as [|n] eqn:E; cbn [pairwise_sum]; rewrite E, Hlt;
    reflexivity.
Qed.

Lemma np_sum_in_list_order (xs : list F) :
  (List.length xs < 8)%nat -> np_sum xs = sum_in_list_order xs.
Proof. intros Hlen. rewrite np_sum_short by assumption. apply fold_left_in_list_order. Qed.

End Effects.

(** ** The calculators in the real numbers *)

Section Exact.

Context {K : Constants R}.

Local Open Scope R_scope.

Lemma fold_left_Rplus (xs : list R) (a : R) :
  fold_left Rplus xs a = a + Formula.Sigma (fun r => r) xs.
Proof.
  revert a; induction xs as [|r xs IH]; intros a; simpl; [lra|].
  rewrite IH. lra.
Qed.

Lemma Sigma_map (f g : R -> R) (xs : list R) :
  Formula.Sigma f (map g xs) = Formula.Sigma (fun r => f (g r)) xs.
Proof. induction xs as [|r xs IH]; simpl; [reflexivity|]. now rewrite IH. Qed.

Lemma Sigma_ext (f g : R -> R) (xs : list R) :
  (forall r, f r = g r) -> Formula.Sigma f xs = Formula.Sigma g xs.
Proof.
  intros E; induction xs as [|r xs IH]; simpl; [reflexivity|]. now rewrite E, IH.
Qed.

Lemma Sigma_scal (k : R) (f : R -> R) (xs : list R) :
  k * Formula.Sigma f xs = Formula.Sigma (fun r => k * f r) xs.
Proof. induction xs as [|r xs IH]; simpl; [lra|]. rewrite <- IH. lra. Qed.

Lemma Sigma_app (f : R -> R) (xs ys : list R) :
  Formula.Sigma f (xs ++ ys) = Formula.Sigma f xs + Formula.Sigma f ys.
Proof. induction xs as [|r xs IH]; simpl; [lra|]. rewrite IH. lra. Qed.

Lemma Sigma_firstn_skipn (k : nat) (xs : list R) :
  Formula.Sigma (fun r => r) (firstn k xs) + Formula.Sigma (fun r => r) (skipn k xs)
  = Formula.Sigma (fun r => r) xs.
Proof. rewrite <- Sigma_app, firstn_skipn. reflexivity. Qed.

(** In the real numbers the running sums of a group of eight add up to
    what they held plus the group. *)
Lemma Sigma_add_block (r block : list R) :
  List.length block = List.length r ->
  Formula.Sigma (fun x => x) (add_block r block)
  = Formula.Sigma (fun x => x) r + Formula.Sigma (fun x => x) block.
Proof.
  revert block. induction r as [|r_j r IH]; intros [|a_j block] Hlen;
    simpl in *; try discriminate; [lra|].
  change (fadd r_j a_j) with (r_j + a_j).
  rewrite IH by congruence. lra.
Qed.

Lemma length_add_block (r block : list R) :
  List.length (add_block r block) = List.length r.
Proof.
  revert block. induction r as [|r_j r IH]; intros [|a_j block]; simpl; auto.
Qed.

Lemma Sigma_unrolled_loop (blocks : nat) (r a : list R) :
  List.length r = 8%nat -> (8 * blocks <= List.length a)%nat ->
  List.length (fst (unrolled_loop blocks r a)) = 8%nat /\
  Formula.Sigma (fun x => x) (fst (unrolled_loop blocks r a))
  + Formula.Sigma (fun x => x) (snd (unrolled_loop blocks r a))
  = Formula.Sigma (fun x => x) r + Formula.Sigma (fun x => x) a.
Proof.
  revert r a. induction blocks as [|blocks IH]; intros r a Hr Ha; simpl.
  - split; [assumption|reflexivity].
  - assert (Hblock : List.length (firstn 8 a) = 8%nat)
      by (rewrite length_firstn; lia).
    destruct (IH (add_block r (firstn 8 a)) (skipn 8 a)) as [IH1 IH2].
    + rewrite length_add_block. assumption.
    + rewrite length_skipn. lia.
    + split; [assumption|]. rewrite IH2, Sigma_add_block by congruence.
      rewrite <- (Sigma_firstn_skipn 8 a). lra.
Qed.

Lemma Sigma_combine_lanes (r : list R) :
  List.length r = 8%nat -> combine_lanes r = Formula.Sigma (fun x => x) r.
Proof.
  intros Hr. do 9 (destruct r as [|? r]; try discriminate).
  simpl. change fadd with Rplus. lra.
Qed.

Lemma exact_pairwise_block (a : list R) :
  (8 <= List.length a)%nat -> pairwise_block a = Formula.Sigma (fun x => x) a.
Proof.
  intros Ha. unfold pairwise_block.
  destruct (Sigma_unrolled_loop (List.length a / 8 - 1) (firstn 8 a) (skipn 8 a))
    as [H1 H2].
  - rewrite length_firstn. lia.
  - rewrite length_skipn.
    pose proof (Nat.div_mod_eq (List.length a) 8) as Hdiv. lia.
  - destruct (unrolled_loop _ _ _) as [r rest]. simpl in H1, H2.
    change fadd with Rplus. rewrite fold_left_Rplus, Sigma_combine_lanes by assumption.
    rewrite H2, Sigma_firstn_skipn. reflexivity.
Qed.

Lemma exact_pairwise_sum (fuel : nat) (a : list R) :
  (List.length a <= fuel)%nat -> pairwise_sum fuel a = Formula.Sigma (fun x => x) a.
Proof.
  revert a. induction fuel as [|fuel IH]; intros a Hfuel.
  - destruct a; [|simpl in Hfuel; lia]. simpl. reflexivity.
  - cbn [pairwise_sum].
    destruct (Nat.ltb_spec (List.length a) 8) as [H8|H8].
    { change fadd with Rplus. change fzero with 0.
      rewrite fold_left_Rplus. lra. }
    destruct (Nat.leb_spec (List.length a) 128) as [H128|H128].
    { apply exact_pairwise_block, H8. }
    set (n2 := (List.length a / 2 - (List.length a / 2) mod 8)%nat).
    assert (Hn2 : (1 <= n2 < List.length a)%nat).
    { subst n2.
      pose proof (Nat.div_mod_eq (List.length a) 2) as Hd.
      pose proof (Nat.mod_upper_bound (List.length a) 2) as Hm.
      pose proof (Nat.mod_upper_bound (List.length a / 2) 8) as Hm8.
      lia. }
    rewrite !IH.
    + change fadd with Rplus. apply Sigma_firstn_skipn.
    + rewrite length_skipn. lia.
    + rewrite length_firstn. lia.
Qed.

Lemma exact_np_sum_map (g : R -> R) (xs : list R) :
  np_sum (map g xs) = Formula.Sigma g xs.
Proof.
  unfold np_sum. rewrite exact_pairwise_sum by reflexivity.
  rewrite Sigma_map. reflexivity.
Qed.

Lemma exact_calculate_ZPE (fs : list R) :
  calculate_ZPE fs = Formula.ZPE fs.
Proof.
  unfold calculate_ZPE, Formula.ZPE. rewrite exact_np_sum_map.
  change fhalf with (1 / 2). change fmul with Rmult.
  generalize (Formula.Sigma (fun nu => planck_constant * speed_of_light * nu) fs).
  intros r. lra.
Qed.

Lemma exact_hnu_over_kt (T nu : R) :
  boltzmann_constant * T <> 0 ->
  hnu_over_kt T nu = Returns (Formula.x T nu).
Proof.
  intros Hk. unfold hnu_over_kt, truediv; simpl.
  destruct (Req_dec_T (boltzmann_constant * T) 0); [contradiction|reflexivity].
Qed.

Lemma comprehension_total {B : Type} (f : R -> result R B) (g : R -> B) (xs : list R) :
  (forall r, f r = Returns (g r)) ->
  comprehension f xs = Returns (map g xs).
Proof.
  intros E; induction xs as [|r xs IH]; simpl; [reflexivity|].
  rewrite E, IH. reflexivity.
Qed.

Lemma exact_calculate_Svib (fs : list R) (T : R) :
  boltzmann_constant * T <> 0 ->
  calculate_Svib fs T = Returns (Formula.S_vib fs T).
Proof.
  intros Hk. unfold calculate_Svib, Formula.S_vib.
  rewrite (comprehension_total _
    (fun nu => Formula.x T nu / (exp (Formula.x T nu) - 1)
               - ln (1 - exp (- Formula.x T nu)))).
  - simpl. rewrite exact_np_sum_map. reflexivity.
  - intros nu. unfold Svib_term. rewrite (exact_hnu_over_kt _ _ Hk). simpl.
    f_equal. f_equal. unfold Formula.x, Rdiv. rewrite !Rinv_mult. ring.
Qed.

Lemma exact_calculate_deltaU (fs : list R) (T : R) :
  boltzmann_constant <> 0 -> T <> 0 ->
  calculate_deltaU fs T = Returns (Formula.deltaU fs T).
Proof.
  intros Hk HT. unfold calculate_deltaU, Formula.deltaU.
  rewrite (comprehension_total _
    (fun nu => planck_constant * speed_of_light * nu
               / (boltzmann_constant * (exp (Formula.x T nu) - 1)))).
  - simpl. rewrite exact_np_sum_map. f_equal.
    unfold gas_constant_R. rewrite Sigma_scal. apply Sigma_ext. intros nu.
    unfold Rdiv. rewrite Rinv_mult.
    replace (boltzmann_constant *
             (planck_constant * speed_of_light * nu *
              (/ boltzmann_constant * / (exp (Formula.x T nu) - 1))))
      with (boltzmann_constant * / boltzmann_constant *
            (planck_constant * speed_of_light * nu * / (exp (Formula.x T nu) - 1)))
      by ring.
    rewrite Rinv_r by assumption. ring.
  - intros nu. unfold deltaU_term. rewrite exact_hnu_over_kt; [reflexivity|].
    apply Rmult_integral_contrapositive_currified; assumption.
Qed.

Lemma exact_fleb_false (t : R) : 0 < t -> fleb t fzero = false.
Proof. intros Ht; simpl. destruct (Rle_dec t 0); [lra|reflexivity]. Qed.

Lemma exact_fleb_positive (t : R) : fleb t fzero = false -> 0 < t.
Proof. simpl. destruct (Rle_dec t 0); [discriminate|lra]. Qed.

(** A valid request is constructed, and the three terms are the formulas. *)
Lemma exact_init_valid_request (w : world R) (s : string) (l : loc) (fs : list R) (T : R) :
  0 < boltzmann_constant ->
  valid_request w s l fs T ->
  __init__ (PyStr s) (PyList l) (PyFloat T) w =
  (Returns (Self s l T (Formula.ZPE fs) (Formula.S_vib fs T) (Formula.deltaU fs T)),
   World (heap w)
     (stdout w ++ report s T (Formula.ZPE fs) (Formula.S_vib fs T) (Formula.deltaU fs T))).
Proof.
  intros Hk Hv. rewrite (init_valid_request _ _ _ _ _ Hv).
  destruct Hv as (_ & _ & Ht). apply exact_fleb_positive in Ht.
  rewrite exact_calculate_Svib by (apply Rmult_integral_contrapositive_currified; lra).
  rewrite exact_calculate_deltaU by lra.
  rewrite exact_calculate_ZPE. reflexivity.
Qed.

End Exact.

(** ** Monotonicity of the zero-point energy in the real numbers *)

Section ExactMonotone.

Context {K : Constants R}.

Local Open Scope R_scope.

Lemma Sigma_insert_lt (f : R -> R) (xs : list R) (i : nat) (nu nu' : R) :
  (forall a b, a < b -> f a < f b) ->
  xs !! i = Some nu -> nu < nu' ->
  Formula.Sigma f xs < Formula.Sigma f (<[i:=nu']> xs).
Proof.
  intros Hf. revert i. induction xs as [|r xs IH]; intros i Hi Hlt.
  - destruct i; discriminate.
  - destruct i as [|j]; simpl in *.
    + injection Hi as ->. specialize (Hf _ _ Hlt). lra.
    + specialize (IH j Hi Hlt). lra.
Qed.

Lemma exact_calculate_ZPE_insert_lt (nus : list R) (i : nat) (nu nu' : R) :
  0 < planck_constant * speed_of_light ->
  nus !! i = Some nu -> nu < nu' ->
  calculate_ZPE nus < calculate_ZPE (<[i:=nu']> nus).
Proof.
  intros Hhc Hi Hlt. rewrite !exact_calculate_ZPE. unfold Formula.ZPE.
  assert (H := Sigma_insert_lt (fun nu => planck_constant * speed_of_light * nu)
                 nus i nu nu').
  cbv beta in H. specialize (H ltac:(intros; nra) Hi Hlt). lra.
Qed.

End ExactMonotone.

(** ** The calculators in binary64 *)

Section Binary64.

Local Open Scope float_scope.

(** Adding to [0.0] returns the other summand, except that [0.0 + -0.0]
    is [0.0]. *)
Lemma binary64_zero_plus (a : float) : a <> -0 -> 0 + a = a.
Proof.
  intros Ha. apply Prim2SF_inj. rewrite add_spec.
  change (Prim2SF 0) with (S754_zero false).
  destruct (Prim2SF a) as [sa|sa| |sa ma ea] eqn:E; try reflexivity.
  destruct sa; [|reflexivity].
  exfalso. apply Ha. apply Prim2SF_inj. rewrite E. reflexivity.
Qed.

Lemma binary64_np_sum_one (a : float) : a <> -0 -> np_sum [a] = a.
Proof. intros Ha. apply (binary64_zero_plus a Ha). Qed.

Lemma binary64_calculate_ZPE_one (K : Constants float) (nu : float) :
  same_float (calculate_ZPE [nu]) (0.5 * (planck_constant * speed_of_light * nu)).
Proof.
  unfold calculate_ZPE.
  change (map _ [nu]) with [(planck_constant * speed_of_light * nu)%float].
  destruct (PrimFloat.Leibniz.eqb (planck_constant * speed_of_light * nu) (-0)) eqn:E.
  - apply Leibniz.eqb_spec in E. rewrite E. right. reflexivity.
  - left. rewrite binary64_np_sum_one; [reflexivity|].
    intros E'. apply Leibniz.eqb_spec in E'. congruence.
Qed.

End Binary64.

(** ** Rounding in binary64 is monotone *)

Section RoundingFacts.

Local Open Scope Z_scope.

Lemma digits2_pos_bounds (m : positive) :
  2 ^ (Zpos (digits2_pos m) - 1) <= Zpos m < 2 ^ Zpos (digits2_pos m).
Proof.
  induction m as [m IH|m IH|]; simpl digits2_pos.
  - rewrite Pos2Z.inj_succ.
    replace (Z.succ (Zpos (digits2_pos m)) - 1) with (Z.succ (Zpos (digits2_pos m) - 1)) by lia.
    rewrite !Z.pow_succ_r by lia. lia.
  - rewrite Pos2Z.inj_succ.
    replace (Z.succ (Zpos (digits2_pos m)) - 1) with (Z.succ (Zpos (digits2_pos m) - 1)) by lia.
    rewrite !Z.pow_succ_r by lia. lia.
  - simpl. lia.
Qed.

Lemma iter_pos_nat {A : Type} (f : A -> A) (p : positive) (x : A) :
  SpecFloat.iter_pos f p x = Nat.iter (Pos.to_nat p) f x.
Proof.
  revert x. induction p as [p IH|p IH|]; intros x.
  - cbn [SpecFloat.iter_pos]. rewrite !IH, <- Nat.iter_succ_r, <- Nat.iter_add.
    f_equal. lia.
  - cbn [SpecFloat.iter_pos]. rewrite !IH, <- Nat.iter_add. f_equal. lia.
  - reflexivity.
Qed.

(** One step of the shift to the right. *)
Lemma shr_1_nonneg (m : Z) (r s : bool) :
  0 <= m ->
  shr_1 (Build_shr_record m r s) = Build_shr_record (m / 2) (Z.odd m) (r || s).
Proof.
  intros Hm. destruct m as [|p|p]; [reflexivity| |lia].
  destruct p as [p|p|]; simpl.
  - f_equal. rewrite Pos2Z.inj_xI. apply (Z.div_unique _ _ _ 1); lia.
  - f_equal. rewrite Pos2Z.inj_xO. apply (Z.div_unique _ _ _ 0); lia.
  - reflexivity.
Qed.

(** [j+1] steps: the quotient, the last bit shifted out, and whether a bit
    shifted out before it was set. *)
Lemma shr_iter (m : Z) (j : nat) :
  0 <= m ->
  Nat.iter (S j) shr_1 (Build_shr_record m false false)
  = Build_shr_record (m / 2 ^ Z.of_nat (S j))
      (Z.odd (m / 2 ^ Z.of_nat j))
      (negb (m mod 2 ^ Z.of_nat j =? 0)).
Proof.
  intros Hm. induction j as [|j IH].
  - rewrite Nat.iter_succ. unfold Nat.iter at 1. cbn [nat_rect].
    rewrite shr_1_nonneg by assumption.
    change (2 ^ Z.of_nat 1) with 2. change (2 ^ Z.of_nat 0) with 1.
    rewrite Z.div_1_r, Z.mod_1_r. reflexivity.
  - rewrite Nat.iter_succ, IH.
    rewrite shr_1_nonneg by (apply Z.div_pos; lia).
    f_equal.
    + rewrite Z.div_div by lia. f_equal.
      rewrite (Nat2Z.inj_succ (S j)), Z.pow_succ_r by lia. lia.
    + rewrite (Nat2Z.inj_succ j), Z.pow_succ_r by lia.
      set (q := 2 ^ Z.of_nat j). assert (Hq : 0 < q) by (subst q; lia).
      rewrite (Z.mul_comm 2 q), Z.rem_mul_r by lia.
      rewrite Zmod_odd.
      assert (Hr : 0 <= m mod q < q) by (apply Z.mod_pos_bound; lia).
      destruct (Z.odd (m / q)); simpl.
      * symmetry. apply negb_true_iff, Z.eqb_neq. lia.
      * rewrite Z.mul_0_r, Z.add_0_r. reflexivity.
Qed.

Lemma shr_rne (m : Z) (p : positive) :
  0 <= m ->
  let mrs := SpecFloat.iter_pos shr_1 p (Build_shr_record m false false) in
  round_nearest_even (shr_m mrs) (loc_of_shr_record mrs) = rne m (Zpos p).
Proof.
  intros Hm mrs. subst mrs. rewrite iter_pos_nat.
  destruct (Pos2Nat.is_succ p) as [j Hj]. rewrite Hj, shr_iter by assumption.
  assert (Hp : Zpos p = Z.succ (Z.of_nat j)) by lia.
  unfold rne. rewrite Hp, <- Nat2Z.inj_succ.
  rewrite (Nat2Z.inj_succ j), Z.pow_succ_r by lia.
  set (q := 2 ^ Z.of_nat j). assert (Hq : 0 < q) by (subst q; lia).
  rewrite (Z.mul_comm 2 q), Z.rem_mul_r by lia.
  rewrite Zmod_odd.
  assert (Hr : 0 <= m mod q < q) by (apply Z.mod_pos_bound; lia).
  cbn [shr_m loc_of_shr_record].
  destruct (Z.odd (m / q)) eqn:Ho; destruct (Z.eqb_spec (m mod q) 0) as [E0|E0];
    cbn [negb loc_of_shr_record round_nearest_even].
  - rewrite E0. replace (2 * (0 + q * 1) ?= q * 2) with Eq
      by (symmetry; apply Z.compare_eq_iff; lia). reflexivity.
  - replace (2 * (m mod q + q * 1) ?= q * 2) with Gt
      by (symmetry; apply Z.compare_gt_iff; lia). reflexivity.
  - rewrite E0. replace (2 * (0 + q * 0) ?= q * 2) with Lt
      by (symmetry; apply Z.compare_lt_iff; lia). reflexivity.
  - replace (2 * (m mod q + q * 0) ?= q * 2) with Lt
      by (symmetry; apply Z.compare_lt_iff; lia). reflexivity.
Qed.

Lemma shr_m_iter (m : Z) (p : positive) :
  0 <= m ->
  shr_m (SpecFloat.iter_pos shr_1 p (Build_shr_record m false false)) = m / 2 ^ Zpos p.
Proof.
  intros Hm. rewrite iter_pos_nat.
  destruct (Pos2Nat.is_succ p) as [j Hj]. rewrite Hj, shr_iter by assumption.
  cbn [shr_m]. f_equal. f_equal. lia.
Qed.

Lemma rne_bounds (m n : Z) :
  m / 2 ^ n <= rne m n <= m / 2 ^ n + 1.
Proof.
  unfold rne. destruct (_ ?= _); [destruct (Z.even _)| |]; lia.
Qed.

Lemma fexp_fexp64 (e : Z) : fexp prec emax e = fexp64 e.
Proof. reflexivity. Qed.

Lemma Zdigits2_bounds (k : Z) :
  0 < k -> 2 ^ (Zdigits2 k - 1) <= k < 2 ^ Zdigits2 k.
Proof.
  intros Hk. destruct k as [|p|p]; try lia. apply digits2_pos_bounds.
Qed.

Lemma Zdigits2_pos (k : Z) : 0 < k -> 0 < Zdigits2 k.
Proof. intros Hk. destruct k as [|p|p]; try lia. simpl. lia. Qed.

Lemma Zdigits2_unique (k d : Z) :
  2 ^ (d - 1) <= k < 2 ^ d -> 0 < d -> Zdigits2 k = d.
Proof.
  intros [Hlo Hhi] Hd.
  assert (Hk : 0 < k) by (pose proof (Z.pow_pos_nonneg 2 (d - 1)); lia).
  pose proof (Zdigits2_bounds k Hk) as [Hlo' Hhi'].
  pose proof (Zdigits2_pos k Hk) as Hd'.
  destruct (Z.lt_trichotomy (Zdigits2 k) d) as [H|[H|H]]; [|assumption|].
  - assert (2 ^ Zdigits2 k <= 2 ^ (d - 1)) by (apply Z.pow_le_mono_r; lia). lia.
  - assert (2 ^ d <= 2 ^ (Zdigits2 k - 1)) by (apply Z.pow_le_mono_r; lia). lia.
Qed.

Lemma Zdigits2_le (k j : Z) : 0 < k -> k < 2 ^ j -> 0 <= j -> Zdigits2 k <= j.
Proof.
  intros Hk Hlt Hj. pose proof (Zdigits2_bounds k Hk) as [Hlo _].
  pose proof (Zdigits2_pos k Hk).
  destruct (Z.le_gt_cases (Zdigits2 k) j) as [H'|H']; [assumption|].
  assert (2 ^ j <= 2 ^ (Zdigits2 k - 1)) by (apply Z.pow_le_mono_r; lia). lia.
Qed.

Lemma key_inf_pos : 0 < key_inf.
Proof. unfold key_inf, bias. apply Z.pow_pos_nonneg; lia. Qed.

Lemma cond_Zopp_0 (s : bool) : cond_Zopp s 0 = 0.
Proof. destruct s; reflexivity. Qed.

Lemma shr_fexp_no_shift (k E : Z) :
  fexp64 (Zdigits2 k + E) <= E ->
  shr_fexp prec emax k E loc_Exact = (Build_shr_record k false false, E).
Proof.
  intros H. unfold shr_fexp. rewrite fexp_fexp64. cbn [shr_record_of_loc].
  unfold shr. destruct (fexp64 (Zdigits2 k + E) - E) eqn:En; try reflexivity. lia.
Qed.

Lemma finish_rounding_key (s : bool) (k E : Z) :
  0 <= k <= 2 ^ 53 -> -1074 <= E -> (-1074 < E -> 2 ^ 52 <= k) ->
  key (finish_rounding s k E) = cond_Zopp s (Z.min (k * 2 ^ (E + bias)) key_inf).
Proof.
  intros Hk HE Hnorm.
  assert (HB : 0 < 2 ^ (E + bias)) by (apply Z.pow_pos_nonneg; unfold bias; lia).
  pose proof key_inf_pos as HI.
  destruct (Z.eq_dec k 0) as [-> | Hk0].
  { unfold finish_rounding. rewrite shr_fexp_no_shift by (unfold fexp64; simpl Zdigits2; lia).
    cbn [shr_m key]. rewrite Z.mul_0_l, Z.min_l by lia. now rewrite cond_Zopp_0. }
  destruct (Z.eq_dec k (2 ^ 53)) as [-> | Hk53].
  { unfold finish_rounding, shr_fexp. rewrite fexp_fexp64.
    change (Zdigits2 (2 ^ 53)) with 54.
    replace (fexp64 (54 + E) - E) with 1 by (unfold fexp64; lia).
    cbn [shr_record_of_loc shr SpecFloat.iter_pos].
    change (shr_1 {| shr_m := 2 ^ 53; shr_r := false; shr_s := false |})
      with {| shr_m := 2 ^ 52; shr_r := false; shr_s := false |}.
    cbn [shr_m]. change (2 ^ 52) with (Zpos (2 ^ 52)%positive) at 1.
    cbv iota beta.
    assert (Hv : Zpos (2 ^ 52)%positive * 2 ^ (E + 1 + bias) = 2 ^ 53 * 2 ^ (E + bias)).
    { change (Zpos (2 ^ 52)%positive) with (2 ^ 52). rewrite <- !Z.pow_add_r by (unfold bias; lia).
      f_equal. lia. }
    assert (HINF : key_inf = 2 ^ 53 * 2 ^ (971 + bias)).
    { unfold key_inf. rewrite <- Z.pow_add_r by (unfold bias; lia). f_equal. }
    destruct (Z.leb_spec (E + 1) (emax - prec)) as [Hle|Hgt]; cbn [key]; f_equal.
    - rewrite Hv. rewrite Z.min_l; [reflexivity|]. rewrite HINF.
      apply Z.mul_le_mono_nonneg_l; [lia|]. apply Z.pow_le_mono_r; [lia|].
      unfold emax, prec in Hle. lia.
    - rewrite Z.min_r; [reflexivity|]. rewrite HINF.
      apply Z.mul_le_mono_nonneg_l; [lia|]. apply Z.pow_le_mono_r; [lia|].
      unfold emax, prec in Hgt. lia. }
  assert (Hkpos : 0 < k) by lia.
  assert (Hd : Zdigits2 k <= 53) by (apply Zdigits2_le; lia).
  unfold finish_rounding. rewrite shr_fexp_no_shift by (unfold fexp64; lia).
  cbn [shr_m]. destruct k as [|p|p]; try lia.
  destruct (Z.leb_spec E (emax - prec)) as [Hle|Hgt]; cbn [key]; f_equal.
  - rewrite Z.min_l; [reflexivity|].
    unfold key_inf. replace (1024 + bias) with (53 + (971 + bias)) by lia.
    rewrite (Z.pow_add_r 2 53 (971 + bias)) by (unfold bias; lia).
    assert (2 ^ (E + bias) <= 2 ^ (971 + bias)).
    { apply Z.pow_le_mono_r; [lia|]. unfold emax, prec in Hle. lia. }
    nia.
  - rewrite Z.min_r; [reflexivity|].
    unfold emax, prec in Hgt.
    specialize (Hnorm ltac:(lia)).
    unfold key_inf. replace (1024 + bias) with (52 + (972 + bias)) by lia.
    rewrite (Z.pow_add_r 2 52 (972 + bias)) by (unfold bias; lia).
    assert (2 ^ (972 + bias) <= 2 ^ (E + bias)).
    { apply Z.pow_le_mono_r; lia. }
    assert (0 < 2 ^ (972 + bias)) by (apply Z.pow_pos_nonneg; unfold bias; lia).
    nia.
Qed.

Lemma rne_0 (m : Z) : rne m 0 = m.
Proof.
  unfold rne. change (2 ^ 0) with 1. rewrite Z.div_1_r, Z.mod_1_r. reflexivity.
Qed.

Lemma binary_round_aux_finish (s : bool) (m : positive) (e : Z) :
  e <= fexp64 (Zpos (digits2_pos m) + e) ->
  binary_round_aux prec emax s (Zpos m) e loc_Exact
  = finish_rounding s (rne (Zpos m) (fexp64 (Zpos (digits2_pos m) + e) - e))
      (fexp64 (Zpos (digits2_pos m) + e)).
Proof.
  intros Hn. unfold binary_round_aux, finish_rounding.
  unfold shr_fexp at 1. rewrite fexp_fexp64. cbn [Zdigits2 shr_record_of_loc].
  set (E := fexp64 (Zpos (digits2_pos m) + e)) in *.
  unfold shr at 1. destruct (E - e) as [|p|p] eqn:En; [| |lia].
  - cbn [shr_m loc_of_shr_record round_nearest_even]. rewrite rne_0.
    replace e with E by lia. reflexivity.
  - rewrite shr_rne by lia. replace (e + Zpos p) with E by lia. reflexivity.
Qed.

Lemma Zdigits2_scale (m : positive) (j : Z) :
  0 <= j -> Zdigits2 (Zpos m * 2 ^ j) = Zpos (digits2_pos m) + j.
Proof.
  intros Hj. pose proof (digits2_pos_bounds m) as [Hlo Hhi].
  assert (Hp : 0 < 2 ^ j) by (apply Z.pow_pos_nonneg; lia).
  apply Zdigits2_unique; [|lia].
  replace (Zpos (digits2_pos m) + j - 1) with (Zpos (digits2_pos m) - 1 + j) by lia.
  rewrite !Z.pow_add_r by lia. nia.
Qed.

Lemma rne_scale (m n c : Z) :
  0 <= n -> 0 <= c -> rne (m * 2 ^ c) (n + c) = rne m n.
Proof.
  intros Hn Hc. unfold rne.
  assert (Hp : 0 < 2 ^ c) by (apply Z.pow_pos_nonneg; lia).
  assert (Hq : 0 < 2 ^ n) by (apply Z.pow_pos_nonneg; lia).
  rewrite Z.pow_add_r by lia.
  rewrite Z.div_mul_cancel_r by lia.
  rewrite Z.mul_mod_distr_r by lia.
  replace (2 * (m mod 2 ^ n * 2 ^ c)) with (2 * (m mod 2 ^ n) * 2 ^ c) by ring.
  rewrite (Z.mul_comm (2 * (m mod 2 ^ n)) (2 ^ c)), (Z.mul_comm (2 ^ n) (2 ^ c)).
  rewrite <- Zmult_compare_compat_l by lia. reflexivity.
Qed.

Lemma binary_round_aux_key (s : bool) (m : positive) (e : Z) :
  - bias <= e ->
  e <= fexp64 (Zpos (digits2_pos m) + e) ->
  key (binary_round_aux prec emax s (Zpos m) e loc_Exact)
  = cond_Zopp s (Z.min (round_value (Zpos m * 2 ^ (e + bias))) key_inf).
Proof.
  intros HB Hn. rewrite binary_round_aux_finish by assumption.
  set (d := Zpos (digits2_pos m)) in *.
  set (E := fexp64 (d + e)) in *.
  pose proof (digits2_pos_bounds m) as [Hlo Hhi]. fold d in Hlo, Hhi.
  assert (HE : -1074 <= E) by (subst E; unfold fexp64; lia).
  assert (HEd : d + e - 53 <= E) by (subst E; unfold fexp64; lia).
  assert (Hq : 0 < 2 ^ (E - e)) by (apply Z.pow_pos_nonneg; lia).
  pose proof (rne_bounds (Zpos m) (E - e)) as [Hk1 Hk2].
  assert (Hk0 : 0 <= Zpos m / 2 ^ (E - e)) by (apply Z.div_pos; lia).
  assert (Hk53 : Zpos m / 2 ^ (E - e) < 2 ^ 53).
  { apply Z.div_lt_upper_bound; [lia|].
    rewrite <- Z.pow_add_r by lia.
    assert (2 ^ d <= 2 ^ (E - e + 53)) by (apply Z.pow_le_mono_r; lia). lia. }
  rewrite finish_rounding_key.
  - f_equal. f_equal.
    assert (Hexp : round_exp (Zpos m * 2 ^ (e + bias)) = E + bias).
    { unfold round_exp. rewrite Zdigits2_scale by lia. fold d.
      replace (d + (e + bias) - bias) with (d + e) by lia. reflexivity. }
    unfold round_value. rewrite Hexp. f_equal.
    rewrite <- (rne_scale (Zpos m) (E - e) (e + bias)) by lia.
    f_equal. lia.
  - lia.
  - assumption.
  - intros HEn.
    assert (HEeq : E = d + e - 53) by (subst E; unfold fexp64 in *; lia).
    assert (2 ^ 52 <= Zpos m / 2 ^ (E - e)); [|lia].
    apply Z.div_le_lower_bound; [lia|].
    rewrite <- Z.pow_add_r by lia.
    replace (E - e + 52) with (d - 1) by lia. lia.
Qed.

Lemma Zdigits2_mono (v1 v2 : Z) :
  0 < v1 -> v1 <= v2 -> Zdigits2 v1 <= Zdigits2 v2.
Proof.
  intros H1 H12.
  pose proof (Zdigits2_bounds v1 H1) as [Hlo1 _].
  pose proof (Zdigits2_bounds v2 ltac:(lia)) as [_ Hhi2].
  pose proof (Zdigits2_pos v1 H1). pose proof (Zdigits2_pos v2 ltac:(lia)).
  destruct (Z.le_gt_cases (Zdigits2 v1) (Zdigits2 v2)) as [H'|H']; [assumption|].
  assert (2 ^ Zdigits2 v2 <= 2 ^ (Zdigits2 v1 - 1)) by (apply Z.pow_le_mono_r; lia).
  lia.
Qed.

Lemma round_exp_pos (v : Z) : 0 < round_exp v.
Proof. unfold round_exp, fexp64, bias. lia. Qed.

(** At one exponent, rounding to nearest even is monotone. *)
Lemma rne_mono (v1 v2 t : Z) :
  0 <= t -> v1 <= v2 -> rne v1 t <= rne v2 t.
Proof.
  intros Ht H12.
  assert (Hq : 0 < 2 ^ t) by (apply Z.pow_pos_nonneg; lia).
  assert (Hk : v1 / 2 ^ t <= v2 / 2 ^ t) by (apply Z.div_le_mono; lia).
  pose proof (rne_bounds v1 t) as [_ Hu1]. pose proof (rne_bounds v2 t) as [Hl2 _].
  destruct (Z.eq_dec (v1 / 2 ^ t) (v2 / 2 ^ t)) as [Heq|Hne]; [|lia].
  pose proof (Z.div_mod v1 (2 ^ t) ltac:(lia)) as Hd1.
  pose proof (Z.div_mod v2 (2 ^ t) ltac:(lia)) as Hd2.
  assert (Hr : v1 mod 2 ^ t <= v2 mod 2 ^ t) by nia.
  unfold rne. rewrite <- Heq.
  destruct (Z.compare_spec (2 * (v1 mod 2 ^ t)) (2 ^ t)) as [E1|E1|E1];
  destruct (Z.compare_spec (2 * (v2 mod 2 ^ t)) (2 ^ t)) as [E2|E2|E2];
    try destruct (Z.even (v1 / 2 ^ t)); lia.
Qed.

Lemma round_value_mono (v1 v2 : Z) :
  0 < v1 -> v1 <= v2 -> round_value v1 <= round_value v2.
Proof.
  intros H1 H12.
  pose proof (Zdigits2_mono v1 v2 H1 H12) as Hg.
  pose proof (Zdigits2_bounds v1 H1) as [Hlo1 Hhi1].
  pose proof (Zdigits2_bounds v2 ltac:(lia)) as [Hlo2 Hhi2].
  pose proof (round_exp_pos v1) as Ht1. pose proof (round_exp_pos v2) as Ht2.
  unfold round_value.
  assert (He1 : round_exp v1 = Z.max (Zdigits2 v1 - bias - 53) (-1074) + bias) by reflexivity.
  assert (He2 : round_exp v2 = Z.max (Zdigits2 v2 - bias - 53) (-1074) + bias) by reflexivity.
  set (g1 := Zdigits2 v1) in *. set (g2 := Zdigits2 v2) in *.
  set (t1 := round_exp v1) in *. set (t2 := round_exp v2) in *.
  assert (Ht : t1 <= t2) by lia.
  destruct (Z.eq_dec t1 t2) as [Heq|Hne].
  - rewrite Heq. apply Z.mul_le_mono_nonneg_r.
    + apply Z.pow_nonneg; lia.
    + apply rne_mono; lia.
  - assert (Ht2eq : t2 = g2 - 53) by lia.
    assert (Hg12 : g1 < g2) by lia.
    assert (Ht1le : t1 <= g2 - 1) by lia.
    assert (Hq1 : 0 < 2 ^ t1) by (apply Z.pow_pos_nonneg; lia).
    assert (Hq2 : 0 < 2 ^ t2) by (apply Z.pow_pos_nonneg; lia).
    assert (Hup : rne v1 t1 * 2 ^ t1 <= 2 ^ (g2 - 1)).
    { pose proof (rne_bounds v1 t1) as [_ Hu].
      assert (Hk : v1 / 2 ^ t1 + 1 <= 2 ^ (g2 - 1 - t1)).
      { assert (v1 / 2 ^ t1 < 2 ^ (g2 - 1 - t1)); [|lia].
        apply Z.div_lt_upper_bound; [lia|].
        rewrite <- Z.pow_add_r by lia. replace (t1 + (g2 - 1 - t1)) with (g2 - 1) by lia.
        assert (2 ^ g1 <= 2 ^ (g2 - 1)) by (apply Z.pow_le_mono_r; lia). lia. }
      replace (2 ^ (g2 - 1)) with (2 ^ (g2 - 1 - t1) * 2 ^ t1)
        by (rewrite <- Z.pow_add_r by lia; f_equal; lia).
      apply Z.mul_le_mono_nonneg_r; lia. }
    assert (Hlow : 2 ^ (g2 - 1) <= rne v2 t2 * 2 ^ t2).
    { pose proof (rne_bounds v2 t2) as [Hl _].
      assert (Hk : 2 ^ (g2 - 1 - t2) <= v2 / 2 ^ t2).
      { apply Z.div_le_lower_bound; [lia|].
        rewrite <- Z.pow_add_r by lia. replace (t2 + (g2 - 1 - t2)) with (g2 - 1) by lia.
        lia. }
      replace (2 ^ (g2 - 1)) with (2 ^ (g2 - 1 - t2) * 2 ^ t2)
        by (rewrite <- Z.pow_add_r by lia; f_equal; lia).
      apply Z.mul_le_mono_nonneg_r; lia. }
    lia.
Qed.

Lemma round_value_nonneg (v : Z) : 0 <= v -> 0 <= round_value v.
Proof.
  intros Hv. unfold round_value. pose proof (round_exp_pos v) as Ht.
  pose proof (rne_bounds v (round_exp v)) as [Hl _].
  assert (0 <= v / 2 ^ round_exp v) by (apply Z.div_pos; [lia|apply Z.pow_pos_nonneg; lia]).
  apply Z.mul_nonneg_nonneg; [lia|apply Z.pow_nonneg; lia].
Qed.

Lemma round_key_mono (v1 v2 : Z) : v1 <= v2 -> round_key v1 <= round_key v2.
Proof.
  intros H12. pose proof key_inf_pos as HI.
  destruct v1 as [|p1|p1], v2 as [|p2|p2]; try lia; unfold round_key.
  - pose proof (round_value_nonneg (Zpos p2)). lia.
  - pose proof (round_value_mono (Zpos p1) (Zpos p2)). lia.
  - pose proof (round_value_nonneg (- Zneg p1)). lia.
  - pose proof (round_value_nonneg (- Zneg p1)).
    pose proof (round_value_nonneg (Zpos p2)). lia.
  - pose proof (round_value_mono (- Zneg p2) (- Zneg p1)). lia.
Qed.

(** What [valid_binary] says of the mantissa and exponent of a float. *)
Lemma valid_finite (s : bool) (m : positive) (e : Z) :
  valid_binary (S754_finite s m e) = true ->
  e = fexp64 (Zpos (digits2_pos m) + e) /\ e <= 971.
Proof.
  unfold SpecFloat.valid_binary, bounded, canonical_mantissa.
  rewrite fexp_fexp64. intros H. apply andb_true_iff in H as [H1 H2].
  apply Z.eqb_eq in H1. apply Z.leb_le in H2. unfold emax, prec in H2.
  split; [symmetry; exact H1|lia].
Qed.

Lemma valid_finite_bounds (s : bool) (m : positive) (e : Z) :
  valid_binary (S754_finite s m e) = true ->
  -1074 <= e <= 971 /\ Zpos m < 2 ^ 53 /\ (-1074 < e -> 2 ^ 52 <= Zpos m).
Proof.
  intros Hv. apply valid_finite in Hv as [Hc He].
  pose proof (digits2_pos_bounds m) as [Hlo Hhi].
  set (d := Zpos (digits2_pos m)) in *.
  assert (Hd : 0 < d) by (subst d; lia).
  unfold fexp64 in Hc. split; [lia|]. split.
  - assert (2 ^ d <= 2 ^ 53) by (apply Z.pow_le_mono_r; lia). lia.
  - intros He'. assert (d = 53) by lia.
    replace (d - 1) with 52 in Hlo by lia. exact Hlo.
Qed.

Lemma finite_key_bounds (s : bool) (m : positive) (e : Z) :
  valid_binary (S754_finite s m e) = true ->
  0 < Zpos m * 2 ^ (e + bias) < key_inf.
Proof.
  intros Hv. apply valid_finite_bounds in Hv as (He & Hm & _).
  assert (Hp : 0 < 2 ^ (e + bias)) by (apply Z.pow_pos_nonneg; unfold bias; lia).
  split; [lia|].
  unfold key_inf. replace (1024 + bias) with (53 + (971 + bias)) by lia.
  rewrite (Z.pow_add_r 2 53 (971 + bias)) by (unfold bias; lia).
  assert (2 ^ (e + bias) <= 2 ^ (971 + bias)) by (apply Z.pow_le_mono_r; unfold bias; lia).
  nia.
Qed.

(** Among valid floats of one sign the order of the exponents decides. *)
Lemma finite_key_lt (s1 s2 : bool) (m1 m2 : positive) (e1 e2 : Z) :
  valid_binary (S754_finite s1 m1 e1) = true ->
  valid_binary (S754_finite s2 m2 e2) = true ->
  e1 < e2 -> Zpos m1 * 2 ^ (e1 + bias) < Zpos m2 * 2 ^ (e2 + bias).
Proof.
  intros H1 H2 He.
  apply valid_finite_bounds in H1 as (He1 & Hm1 & _).
  apply valid_finite_bounds in H2 as (He2 & _ & Hm2).
  specialize (Hm2 ltac:(lia)).
  assert (Hp : 0 < 2 ^ (e1 + bias)) by (apply Z.pow_pos_nonneg; unfold bias; lia).
  assert (Hq : 2 * 2 ^ (e1 + bias) <= 2 ^ (e2 + bias)).
  { rewrite <- Z.pow_succ_r by (unfold bias; lia). apply Z.pow_le_mono_r; lia. }
  change (2 ^ 53) with (2 * 2 ^ 52) in Hm1.
  nia.
Qed.

Ltac decide_compare :=
  cbn [cond_Zopp];
  first
    [ reflexivity
    | f_equal; symmetry;
      first [ apply Z.compare_eq_iff; lia
            | apply Z.compare_lt_iff; lia
            | apply Z.compare_gt_iff; lia ] ].

Lemma SFcompare_key (x y : spec_float) :
  valid_binary x = true -> valid_binary y = true ->
  is_nan_sf x = false -> is_nan_sf y = false ->
  SFcompare x y = Some (key x ?= key y).
Proof.
  intros Hx Hy Nx Ny. pose proof key_inf_pos as HI.
  destruct x as [sx|sx| |sx mx ex], y as [sy|sy| |sy my ey]; try discriminate;
    cbn [SFcompare key].
  - reflexivity.
  - destruct sy; decide_compare.
  - pose proof (finite_key_bounds _ _ _ Hy). destruct sy; decide_compare.
  - destruct sx; decide_compare.
  - destruct sx, sy; decide_compare.
  - pose proof (finite_key_bounds _ _ _ Hy). destruct sx, sy; decide_compare.
  - pose proof (finite_key_bounds _ _ _ Hx). destruct sx; decide_compare.
  - pose proof (finite_key_bounds _ _ _ Hx). destruct sx, sy; decide_compare.
  - pose proof (finite_key_bounds _ _ _ Hx) as Bx.
    pose proof (finite_key_bounds _ _ _ Hy) as By.
    assert (Hp : 0 < 2 ^ (ex + bias)) by lia.
    destruct sx, sy; try decide_compare; cbn [cond_Zopp]; f_equal.
    + destruct (Z.compare_spec ex ey) as [E|E|E].
      * subst ey. change (Pos.compare_cont Eq mx my) with (Pos.compare mx my).
        rewrite Z.compare_opp.
        rewrite (Z.mul_comm (Zpos my)), (Z.mul_comm (Zpos mx)).
        rewrite <- Zmult_compare_compat_l by lia.
        rewrite <- Pos2Z.inj_compare. symmetry. apply Pos.compare_antisym.
      * pose proof (finite_key_lt _ _ _ _ _ _ Hx Hy E).
        symmetry. apply Z.compare_gt_iff. lia.
      * pose proof (finite_key_lt _ _ _ _ _ _ Hy Hx E).
        symmetry. apply Z.compare_lt_iff. lia.
    + destruct (Z.compare_spec ex ey) as [E|E|E].
      * subst ey. change (Pos.compare_cont Eq mx my) with (Pos.compare mx my).
        rewrite (Z.mul_comm (Zpos my)), (Z.mul_comm (Zpos mx)).
        rewrite <- Zmult_compare_compat_l by lia. apply Pos2Z.inj_compare.
      * pose proof (finite_key_lt _ _ _ _ _ _ Hx Hy E).
        symmetry. apply Z.compare_lt_iff. lia.
      * pose proof (finite_key_lt _ _ _ _ _ _ Hy Hx E).
        symmetry. apply Z.compare_gt_iff. lia.
Qed.

Lemma pos_iter_xO (m d : positive) : Zpos (Pos.iter xO m d) = Zpos m * 2 ^ Zpos d.
Proof.
  change (Pos.iter xO m d) with (shift_pos d m).
  rewrite shift_pos_correct. rewrite Zpower_pos_nat, Zpower_nat_Z, positive_nat_Z. lia.
Qed.

Lemma round_key_pos (v : Z) : 0 < v -> round_key v = Z.min (round_value v) key_inf.
Proof. destruct v; try lia. reflexivity. Qed.

Lemma round_key_neg (v : Z) : v < 0 -> round_key v = - Z.min (round_value (- v)) key_inf.
Proof. destruct v; try lia. reflexivity. Qed.

Lemma round_key_cond_Zopp (s : bool) (v : Z) :
  0 < v -> round_key (cond_Zopp s v) = cond_Zopp s (Z.min (round_value v) key_inf).
Proof.
  intros Hv. destruct s; cbn [cond_Zopp].
  - rewrite round_key_neg by lia. now rewrite Z.opp_involutive.
  - apply round_key_pos, Hv.
Qed.

(** [binary_round] rounds the value it is given. *)
Lemma binary_round_key (s : bool) (m : positive) (e : Z) :
  -1074 <= e ->
  key (binary_round prec emax s m e)
  = cond_Zopp s (Z.min (round_value (Zpos m * 2 ^ (e + bias))) key_inf).
Proof.
  intros He. unfold binary_round. rewrite fexp_fexp64.
  set (E := fexp64 (Zpos (digits2_pos m) + e)).
  assert (HE : -1074 <= E) by (subst E; unfold fexp64; lia).
  unfold shl_align. destruct (E - e) as [|p|p] eqn:En.
  - rewrite binary_round_aux_key; [reflexivity|unfold bias; lia|fold E; lia].
  - rewrite binary_round_aux_key; [reflexivity|unfold bias; lia|fold E; lia].
  - assert (Hm : Zpos (Pos.iter xO m p) * 2 ^ (E + bias) = Zpos m * 2 ^ (e + bias)).
    { rewrite pos_iter_xO, <- Z.mul_assoc, <- Z.pow_add_r by (unfold bias; lia).
      f_equal. f_equal. lia. }
    rewrite binary_round_aux_key; [rewrite Hm; reflexivity|unfold bias; lia|].
    assert (Hd : Zpos (digits2_pos (Pos.iter xO m p)) = Zpos (digits2_pos m) + Zpos p).
    { change (Zpos (digits2_pos (Pos.iter xO m p))) with (Zdigits2 (Zpos (Pos.iter xO m p))).
      rewrite pos_iter_xO. apply Zdigits2_scale. lia. }
    rewrite Hd. replace (Zpos (digits2_pos m) + Zpos p + E) with (Zpos (digits2_pos m) + e) by lia.
    fold E. lia.
Qed.

Lemma binary_normalize_key (M e : Z) (sz : bool) :
  -1074 <= e ->
  key (binary_normalize prec emax M e sz) = round_key (M * 2 ^ (e + bias)).
Proof.
  intros He.
  assert (Hp : 0 < 2 ^ (e + bias)) by (apply Z.pow_pos_nonneg; unfold bias; lia).
  destruct M as [|m|m]; cbn [binary_normalize].
  - reflexivity.
  - rewrite binary_round_key by assumption.
    symmetry. apply (round_key_cond_Zopp false). lia.
  - rewrite binary_round_key by assumption.
    replace (Zneg m * 2 ^ (e + bias)) with (cond_Zopp true (Zpos m * 2 ^ (e + bias)))
      by (cbn [cond_Zopp]; lia).
    symmetry. apply round_key_cond_Zopp. lia.
Qed.

(** A float is its own rounding. *)
Lemma round_value_canonical (s : bool) (m : positive) (e : Z) :
  valid_binary (S754_finite s m e) = true ->
  round_value (Zpos m * 2 ^ (e + bias)) = Zpos m * 2 ^ (e + bias).
Proof.
  intros Hv. pose proof (valid_finite_bounds _ _ _ Hv) as (He & _ & _).
  apply valid_finite in Hv as [Hc _].
  assert (Hexp : round_exp (Zpos m * 2 ^ (e + bias)) = e + bias).
  { unfold round_exp. rewrite Zdigits2_scale by (unfold bias; lia).
    replace (Zpos (digits2_pos m) + (e + bias) - bias) with (Zpos (digits2_pos m) + e) by lia.
    rewrite <- Hc. reflexivity. }
  unfold round_value. rewrite Hexp. f_equal.
  transitivity (rne (Zpos m) 0); [|apply rne_0].
  apply (rne_scale (Zpos m) 0 (e + bias)); unfold bias; lia.
Qed.

Lemma round_key_key (x : spec_float) :
  valid_binary x = true -> finite_or_zero x = true -> round_key (key x) = key x.
Proof.
  intros Hv Hfz. destruct x as [s|s| |s m e]; try discriminate; cbn [key].
  - reflexivity.
  - pose proof (finite_key_bounds _ _ _ Hv) as Hb.
    rewrite round_key_cond_Zopp by lia.
    rewrite (round_value_canonical _ _ _ Hv). f_equal. lia.
Qed.

Lemma shl_align_fst (m : positive) (e e' : Z) :
  e' <= e -> - bias <= e' ->
  Zpos (fst (shl_align m e e')) * 2 ^ (e' + bias) = Zpos m * 2 ^ (e + bias).
Proof.
  intros Hle HB. unfold shl_align. destruct (e' - e) as [|p|p] eqn:En; cbn [fst].
  - replace e' with e by lia. reflexivity.
  - lia.
  - rewrite pos_iter_xO, <- Z.mul_assoc, <- Z.pow_add_r by lia.
    f_equal. f_equal. lia.
Qed.

Lemma cond_Zopp_mul (s : bool) (a b : Z) : cond_Zopp s a * b = cond_Zopp s (a * b).
Proof. destruct s; cbn [cond_Zopp]; lia. Qed.

(** The sum of finite floats or zeros is the rounding of the exact sum. *)
Lemma SFadd_key (x y : spec_float) :
  valid_binary x = true -> valid_binary y = true ->
  finite_or_zero x = true -> finite_or_zero y = true ->
  key (SF64add x y) = round_key (key x + key y).
Proof.
  intros Hx Hy Fx Fy.
  destruct x as [sx|sx| |sx mx ex], y as [sy|sy| |sy my ey]; try discriminate.
  - destruct sx, sy; reflexivity.
  - change (SF64add (S754_zero sx) (S754_finite sy my ey)) with (S754_finite sy my ey).
    change (key (S754_zero sx)) with 0. rewrite Z.add_0_l.
    symmetry. apply (round_key_key _ Hy Fy).
  - change (SF64add (S754_finite sx mx ex) (S754_zero sy)) with (S754_finite sx mx ex).
    change (key (S754_zero sy)) with 0. rewrite Z.add_0_r.
    symmetry. apply (round_key_key _ Hx Fx).
  - unfold SF64add, SFadd.
    pose proof (valid_finite_bounds _ _ _ Hx) as (Hex & _ & _).
    pose proof (valid_finite_bounds _ _ _ Hy) as (Hey & _ & _).
    rewrite binary_normalize_key by lia.
    f_equal. rewrite Z.mul_add_distr_r, !cond_Zopp_mul.
    rewrite !shl_align_fst by (unfold bias; lia). reflexivity.
Qed.

Lemma key_bounds (x : spec_float) :
  valid_binary x = true -> - key_inf <= key x <= key_inf.
Proof.
  intros Hv. pose proof key_inf_pos.
  destruct x as [s|s| |s m e]; cbn [key]; try lia.
  - destruct s; cbn [cond_Zopp]; lia.
  - pose proof (finite_key_bounds _ _ _ Hv). destruct s; cbn [cond_Zopp]; lia.
Qed.

Lemma key_finite_bounds (x : spec_float) :
  valid_binary x = true -> finite_or_zero x = true -> - key_inf < key x < key_inf.
Proof.
  intros Hv Hfz. pose proof key_inf_pos.
  destruct x as [s|s| |s m e]; try discriminate; cbn [key]; try lia.
  pose proof (finite_key_bounds _ _ _ Hv). destruct s; cbn [cond_Zopp]; lia.
Qed.

(** Floats in order: the smaller is minus infinity, or the larger is plus
    infinity, or both are finite or zero. *)
Lemma ordered_cases (x y : spec_float) :
  valid_binary x = true -> valid_binary y = true ->
  is_nan_sf x = false -> is_nan_sf y = false ->
  key x <= key y ->
  x = S754_infinity true \/ y = S754_infinity false \/ (finite_or_zero x = true /\ finite_or_zero y = true).
Proof.
  intros Hx Hy Nx Ny Hle. pose proof key_inf_pos.
  pose proof (key_finite_bounds _ Hx) as Fx. pose proof (key_finite_bounds _ Hy) as Fy.
  destruct x as [sx|sx| |sx mx ex]; try discriminate;
  destruct y as [sy|sy| |sy my ey]; try discriminate;
    try (right; right; split; reflexivity);
    try destruct sx; try destruct sy;
    try (left; reflexivity); try (right; left; reflexivity);
    exfalso;
    try specialize (Fx eq_refl); try specialize (Fy eq_refl);
    cbn [key cond_Zopp] in *; lia.
Qed.

Lemma SFnot_below_nan_l (x y : spec_float) : is_nan_sf x = true -> SFnot_below x y.
Proof. destruct x; try discriminate. intros _. unfold SFnot_below, SFltb. now destruct y. Qed.

Lemma SFnot_below_nan_r (x y : spec_float) : is_nan_sf y = true -> SFnot_below x y.
Proof. destruct y; try discriminate. intros _. reflexivity. Qed.

Lemma SFnot_below_key (x y : spec_float) :
  valid_binary x = true -> valid_binary y = true ->
  is_nan_sf x = false -> is_nan_sf y = false ->
  SFnot_below x y <-> key x <= key y.
Proof.
  intros Hx Hy Nx Ny. unfold SFnot_below, SFltb.
  rewrite (SFcompare_key y x Hy Hx Ny Nx).
  destruct (Z.compare_spec (key y) (key x)); split; intros; try lia; try reflexivity;
    discriminate.
Qed.

Lemma SFadd_not_nan (x y : spec_float) :
  is_nan_sf (SF64add x y) = false -> is_nan_sf x = false /\ is_nan_sf y = false.
Proof. destruct x, y; cbn; auto. Qed.

Lemma SFadd_neg_inf_l (y : spec_float) :
  is_nan_sf (SF64add (S754_infinity true) y) = false ->
  SF64add (S754_infinity true) y = S754_infinity true.
Proof. destruct y as [|[|]| |]; cbn; intros; try reflexivity; discriminate. Qed.

Lemma SFadd_neg_inf_r (x : spec_float) :
  is_nan_sf (SF64add x (S754_infinity true)) = false ->
  SF64add x (S754_infinity true) = S754_infinity true.
Proof. destruct x as [|[|]| |]; cbn; intros; try reflexivity; discriminate. Qed.

Lemma SFadd_pos_inf_l (y : spec_float) :
  is_nan_sf (SF64add (S754_infinity false) y) = false ->
  SF64add (S754_infinity false) y = S754_infinity false.
Proof. destruct y as [|[|]| |]; cbn; intros; try reflexivity; discriminate. Qed.

Lemma SFadd_pos_inf_r (x : spec_float) :
  is_nan_sf (SF64add x (S754_infinity false)) = false ->
  SF64add x (S754_infinity false) = S754_infinity false.
Proof. destruct x as [|[|]| |]; cbn; intros; try reflexivity; discriminate. Qed.

(** Addition is monotone in both arguments. *)
Lemma SFadd_mono (a b c d : spec_float) :
  valid_binary a = true -> valid_binary b = true ->
  valid_binary c = true -> valid_binary d = true ->
  valid_binary (SF64add a c) = true -> valid_binary (SF64add b d) = true ->
  SFnot_below a b -> SFnot_below c d -> SFnot_below (SF64add a c) (SF64add b d).
Proof.
  intros Va Vb Vc Vd Vac Vbd Hab Hcd.
  destruct (is_nan_sf (SF64add a c)) eqn:Nac; [now apply SFnot_below_nan_l|].
  destruct (is_nan_sf (SF64add b d)) eqn:Nbd; [now apply SFnot_below_nan_r|].
  destruct (SFadd_not_nan _ _ Nac) as [Na Nc].
  destruct (SFadd_not_nan _ _ Nbd) as [Nb Nd].
  apply SFnot_below_key in Hab; try assumption. apply SFnot_below_key in Hcd; try assumption.
  apply SFnot_below_key; try assumption.
  pose proof (key_bounds _ Vac) as Bac. pose proof (key_bounds _ Vbd) as Bbd.
  destruct (ordered_cases a b Va Vb Na Nb Hab) as [-> | [-> | [Fa Fb]]].
  - rewrite SFadd_neg_inf_l by assumption. cbn [key cond_Zopp]. lia.
  - rewrite (SFadd_pos_inf_l d) by assumption. cbn [key cond_Zopp]. lia.
  - destruct (ordered_cases c d Vc Vd Nc Nd Hcd) as [-> | [-> | [Fc Fd]]].
    + rewrite SFadd_neg_inf_r by assumption. cbn [key cond_Zopp]. lia.
    + rewrite (SFadd_pos_inf_r b) by assumption. cbn [key cond_Zopp]. lia.
    + rewrite !SFadd_key by assumption. apply round_key_mono. lia.
Qed.

(** The product of two mantissas has no fewer digits than a float needs. *)
Lemma product_exponent (sp sx : bool) (mp mx : positive) (ep ex : Z) :
  valid_binary (S754_finite sp mp ep) = true ->
  valid_binary (S754_finite sx mx ex) = true ->
  ep + ex <= fexp64 (Zpos (digits2_pos (mp * mx)) + (ep + ex)).
Proof.
  intros Hp Hx.
  pose proof (valid_finite_bounds _ _ _ Hp) as (Hep & Hmp & Hnp).
  pose proof (valid_finite_bounds _ _ _ Hx) as (Hex & Hmx & Hnx).
  pose proof (digits2_pos_bounds (mp * mx)) as [_ Hhi].
  set (D := Zpos (digits2_pos (mp * mx))) in *.
  assert (HD : 0 < D) by (subst D; lia).
  unfold fexp64.
  destruct (Z.eq_dec ep (-1074)) as [Ep|Ep]; destruct (Z.eq_dec ex (-1074)) as [Ex|Ex];
    try lia.
  - specialize (Hnx ltac:(lia)).
    assert (2 ^ 52 <= Zpos (mp * mx)) by (rewrite Pos2Z.inj_mul; nia).
    assert (52 < D).
    { destruct (Z.le_gt_cases D 52) as [H'|H']; [|assumption].
      assert (2 ^ D <= 2 ^ 52) by (apply Z.pow_le_mono_r; lia). lia. }
    lia.
  - specialize (Hnp ltac:(lia)).
    assert (2 ^ 52 <= Zpos (mp * mx)) by (rewrite Pos2Z.inj_mul; nia).
    assert (52 < D).
    { destruct (Z.le_gt_cases D 52) as [H'|H']; [|assumption].
      assert (2 ^ D <= 2 ^ 52) by (apply Z.pow_le_mono_r; lia). lia. }
    lia.
  - specialize (Hnp ltac:(lia)).
    assert (2 ^ 52 <= Zpos (mp * mx)) by (rewrite Pos2Z.inj_mul; nia).
    assert (52 < D).
    { destruct (Z.le_gt_cases D 52) as [H'|H']; [|assumption].
      assert (2 ^ D <= 2 ^ 52) by (apply Z.pow_le_mono_r; lia). lia. }
    lia.
Qed.

(** The product of a positive finite float with a finite float or a zero
    is the rounding of the exact product. *)
Lemma SFmul_key (mp : positive) (ep : Z) (x : spec_float) :
  valid_binary (S754_finite false mp ep) = true ->
  valid_binary x = true -> finite_or_zero x = true ->
  exists w, key (SF64mul (S754_finite false mp ep) x) = round_key w
            /\ w * 2 ^ bias = Zpos mp * 2 ^ (ep + bias) * key x.
Proof.
  intros Hp Hx Fx. destruct x as [sx|sx| |sx mx ex]; try discriminate.
  - exists 0. split; [reflexivity|]. cbn [key]. lia.
  - pose proof (valid_finite_bounds _ _ _ Hp) as (Hep & _ & _).
    pose proof (valid_finite_bounds _ _ _ Hx) as (Hex & _ & _).
    exists (cond_Zopp sx (Zpos (mp * mx) * 2 ^ (ep + ex + bias))).
    assert (HW : 0 < Zpos (mp * mx) * 2 ^ (ep + ex + bias)).
    { apply Z.mul_pos_pos; [lia|]. apply Z.pow_pos_nonneg; unfold bias; lia. }
    split.
    + unfold SF64mul, SFmul. cbn [xorb].
      rewrite binary_round_aux_key.
      * symmetry. apply round_key_cond_Zopp, HW.
      * unfold bias. lia.
      * apply (product_exponent false sx); assumption.
    + cbn [key]. rewrite cond_Zopp_mul.
      replace (Zpos mp * 2 ^ (ep + bias) * cond_Zopp sx (Zpos mx * 2 ^ (ex + bias)))
        with (cond_Zopp sx (Zpos mp * 2 ^ (ep + bias) * (Zpos mx * 2 ^ (ex + bias))))
        by (destruct sx; cbn [cond_Zopp]; lia).
      f_equal. rewrite Pos2Z.inj_mul.
      replace (ep + ex + bias) with ((ep + bias) + (ex + bias) - bias) by lia.
      assert (E : 2 ^ (ep + bias + (ex + bias) - bias) * 2 ^ bias = 2 ^ (ep + bias) * 2 ^ (ex + bias)).
      { rewrite <- !Z.pow_add_r by (unfold bias; lia). f_equal. lia. }
      rewrite <- !Z.mul_assoc, E. ring.
Qed.

Lemma SFmul_not_nan (mp : positive) (ep : Z) (x : spec_float) :
  is_nan_sf (SF64mul (S754_finite false mp ep) x) = false -> is_nan_sf x = false.
Proof. destruct x; cbn; auto. Qed.

(** Multiplication by a positive finite float is monotone. *)
Lemma SFmul_mono (mp : positive) (ep : Z) (a b : spec_float) :
  valid_binary (S754_finite false mp ep) = true ->
  valid_binary a = true -> valid_binary b = true ->
  valid_binary (SF64mul (S754_finite false mp ep) a) = true ->
  valid_binary (SF64mul (S754_finite false mp ep) b) = true ->
  SFnot_below a b -> SFnot_below (SF64mul (S754_finite false mp ep) a) (SF64mul (S754_finite false mp ep) b).
Proof.
  intros Vp Va Vb Vpa Vpb Hab.
  destruct (is_nan_sf (SF64mul (S754_finite false mp ep) a)) eqn:Npa; [now apply SFnot_below_nan_l|].
  destruct (is_nan_sf (SF64mul (S754_finite false mp ep) b)) eqn:Npb; [now apply SFnot_below_nan_r|].
  pose proof (SFmul_not_nan _ _ _ Npa) as Na. pose proof (SFmul_not_nan _ _ _ Npb) as Nb.
  apply SFnot_below_key in Hab; try assumption. apply SFnot_below_key; try assumption.
  pose proof (key_bounds _ Vpa) as Bpa. pose proof (key_bounds _ Vpb) as Bpb.
  destruct (ordered_cases a b Va Vb Na Nb Hab) as [-> | [-> | [Fa Fb]]].
  - cbn [SF64mul SFmul xorb key cond_Zopp]. cbn [SF64mul SFmul xorb key cond_Zopp] in Bpb. lia.
  - cbn [SF64mul SFmul xorb key cond_Zopp]. cbn [SF64mul SFmul xorb key cond_Zopp] in Bpa. lia.
  - destruct (SFmul_key mp ep a Vp Va Fa) as (wa & -> & Ha).
    destruct (SFmul_key mp ep b Vp Vb Fb) as (wb & -> & Hb).
    apply round_key_mono.
    pose proof (finite_key_bounds _ _ _ Vp) as [Hkp _].
    assert (HB : 0 < 2 ^ bias) by (apply Z.pow_pos_nonneg; unfold bias; lia).
    nia.
Qed.

Lemma not_below_SFnd (x y : float) : not_below x y <-> SFnot_below (Prim2SF x) (Prim2SF y).
Proof. unfold not_below, SFnot_below. rewrite ltb_spec. reflexivity. Qed.

Lemma not_below_refl (x : float) : not_below x x.
Proof.
  apply not_below_SFnd. unfold SFnot_below, SFltb.
  destruct (is_nan_sf (Prim2SF x)) eqn:Nx.
  - destruct (Prim2SF x); try discriminate. reflexivity.
  - rewrite SFcompare_key by (try apply Prim2SF_valid; assumption).
    now rewrite Z.compare_refl.
Qed.

Lemma not_below_lt (x y : float) : PrimFloat.ltb x y = true -> not_below x y.
Proof.
  unfold not_below. rewrite !ltb_spec. unfold SFltb.
  destruct (SFcompare (Prim2SF x) (Prim2SF y)) as [[| |]|] eqn:E; try discriminate.
  intros _.
  destruct (is_nan_sf (Prim2SF x)) eqn:Nx;
    [destruct (Prim2SF x); try discriminate; now destruct (Prim2SF y)|].
  destruct (is_nan_sf (Prim2SF y)) eqn:Ny;
    [destruct (Prim2SF y); try discriminate; reflexivity|].
  rewrite SFcompare_key in E by (try apply Prim2SF_valid; assumption).
  rewrite SFcompare_key by (try apply Prim2SF_valid; assumption).
  injection E as E. rewrite Z.compare_antisym, E. reflexivity.
Qed.

Lemma not_below_add (a b c d : float) :
  not_below a b -> not_below c d -> not_below (a + c) (b + d).
Proof.
  rewrite !not_below_SFnd, !add_spec. intros Hab Hcd.
  apply SFadd_mono; try apply Prim2SF_valid; try assumption.
  - rewrite <- add_spec. apply Prim2SF_valid.
  - rewrite <- add_spec. apply Prim2SF_valid.
Qed.

Lemma positive_finite_spec (p : float) :
  positive_finite p -> exists m e, Prim2SF p = S754_finite false m e.
Proof.
  intros [H0 Hinf]. rewrite ltb_spec in H0, Hinf.
  change (Prim2SF 0) with (S754_zero false) in H0.
  change (Prim2SF infinity) with (S754_infinity false) in Hinf.
  destruct (Prim2SF p) as [s|s| |s m e]; try discriminate.
  - destruct s; discriminate.
  - destruct s; [discriminate|]. now exists m, e.
Qed.

Lemma not_below_mul (p a b : float) :
  positive_finite p -> not_below a b -> not_below (p * a) (p * b).
Proof.
  intros Hp. destruct (positive_finite_spec p Hp) as (m & e & Ep).
  rewrite !not_below_SFnd, !mul_spec, Ep. intros Hab.
  apply SFmul_mono; try apply Prim2SF_valid; try assumption.
  - rewrite <- Ep. apply Prim2SF_valid.
  - rewrite <- Ep, <- mul_spec. apply Prim2SF_valid.
  - rewrite <- Ep, <- mul_spec. apply Prim2SF_valid.
Qed.

End RoundingFacts.

(** ** Sums of lists that are related element by element *)

Section Monotone.

Context {F : Type} {A : Arith F} (R : F -> F -> Prop).

Hypothesis R_refl : forall x, R x x.
Hypothesis R_add : forall a b c d, R a b -> R c d -> R (fadd a c) (fadd b d).

Lemma fold_left_related (xs ys : list F) (a b : F) :
  Forall2 R xs ys -> R a b -> R (fold_left fadd xs a) (fold_left fadd ys b).
Proof.
  intros H. revert a b. induction H as [|x y xs ys Hxy _ IH]; intros a b Hab; simpl.
  - exact Hab.
  - apply IH, R_add; assumption.
Qed.

Lemma add_block_related (r r' block block' : list F) :
  Forall2 R r r' -> Forall2 R block block' ->
  Forall2 R (add_block r block) (add_block r' block').
Proof.
  intros Hr. revert block block'.
  induction Hr as [|x y r r' Hxy Hr IH]; intros block block' Hb; simpl.
  - constructor.
  - destruct Hb as [|a b block block' Hab Hb]; constructor; auto.
Qed.

Lemma unrolled_loop_related (blocks : nat) (r r' a a' : list F) :
  Forall2 R r r' -> Forall2 R a a' ->
  Forall2 R (fst (unrolled_loop blocks r a)) (fst (unrolled_loop blocks r' a')) /\
  Forall2 R (snd (unrolled_loop blocks r a)) (snd (unrolled_loop blocks r' a')).
Proof.
  revert r r' a a'. induction blocks as [|blocks IH]; intros r r' a a' Hr Ha; simpl.
  - split; assumption.
  - apply IH.
    + apply add_block_related; [assumption|]. apply Forall2_take, Ha.
    + apply Forall2_drop, Ha.
Qed.

Lemma combine_lanes_related (r r' : list F) :
  Forall2 R r r' -> R (combine_lanes r) (combine_lanes r').
Proof.
  intros H.
  do 9 (destruct H as [|? ? ? ? ? H]; [try apply R_refl|]); try apply R_refl.
  cbn [combine_lanes]. repeat apply R_add; assumption.
Qed.

Lemma pairwise_block_related (a a' : list F) :
  Forall2 R a a' -> R (pairwise_block a) (pairwise_block a').
Proof.
  intros H. unfold pairwise_block.
  rewrite <- (Forall2_length _ _ _ H).
  destruct (unrolled_loop_related (List.length a / 8 - 1)
              (firstn 8 a) (firstn 8 a') (skipn 8 a) (skipn 8 a')) as [H1 H2].
  - apply Forall2_take, H.
  - apply Forall2_drop, H.
  - destruct (unrolled_loop _ (firstn 8 a) _) as [r rest].
    destruct (unrolled_loop _ (firstn 8 a') _) as [r' rest'].
    apply fold_left_related; [exact H2|]. apply combine_lanes_related, H1.
Qed.

Lemma pairwise_sum_related (fuel : nat) (a a' : list F) :
  Forall2 R a a' -> R (pairwise_sum fuel a) (pairwise_sum fuel a').
Proof.
  revert a a'. induction fuel as [|fuel IH]; intros a a' H; cbn [pairwise_sum];
    rewrite <- (Forall2_length _ _ _ H);
    destruct (List.length a <? 8)%nat;
    try (apply fold_left_related; [exact H|apply R_refl]);
    destruct (List.length a <=? 128)%nat;
    try (apply pairwise_block_related, H).
  - apply R_refl.
  - apply R_add; apply IH; [apply Forall2_take|apply Forall2_drop]; exact H.
Qed.

Lemma np_sum_related (xs ys : list F) :
  Forall2 R xs ys -> R (np_sum xs) (np_sum ys).
Proof.
  intros H. unfold np_sum. rewrite <- (Forall2_length _ _ _ H).
  apply pairwise_sum_related, H.
Qed.

Lemma map_related (f : F -> F) (xs ys : list F) :
  (forall x y, R x y -> R (f x) (f y)) ->
  Forall2 R xs ys -> Forall2 R (map f xs) (map f ys).
Proof. intros Hf H. induction H; simpl; constructor; auto. Qed.

Lemma insert_related (xs : list F) (i : nat) (x x' : F) :
  xs !! i = Some x -> R x x' -> Forall2 R xs (<[i := x']> xs).
Proof.
  revert i. induction xs as [|y xs IH]; intros i Hi Hx.
  - destruct i; discriminate.
  - destruct i as [|i]; simpl in *.
    + injection Hi as ->. constructor; [exact Hx|].
      clear - R_refl. induction xs; constructor; auto.
    + constructor; [apply R_refl|apply IH; assumption].
Qed.

End Monotone.

(** ** The zero-point energy in binary64 never decreases *)

Lemma half_positive_finite : positive_finite 0.5%float.
Proof. split; reflexivity. Qed.

Lemma binary64_calculate_ZPE_related (K : Constants float) (xs ys : list float) :
  positive_finite (planck_constant * speed_of_light)%float ->
  Forall2 not_below xs ys ->
  not_below (calculate_ZPE (A := binary64) xs) (calculate_ZPE (A := binary64) ys).
Proof.
  intros Hhc H. unfold calculate_ZPE.
  apply (not_below_mul 0.5%float); [apply half_positive_finite|].
  apply (np_sum_related (A := binary64) not_below not_below_refl not_below_add).
  apply map_related; [|exact H].
  intros x y Hxy. apply (not_below_mul _ x y Hhc Hxy).
Qed.

Lemma binary64_calculate_ZPE_insert (K : Constants float) (nus : list float) (i : nat)
    (nu nu' : float) :
  positive_finite (planck_constant * speed_of_light)%float ->
  nus !! i = Some nu -> PrimFloat.ltb nu nu' = true ->
  PrimFloat.ltb (calculate_ZPE (A := binary64) (<[i := nu']> nus))
    (calculate_ZPE (A := binary64) nus) = false.
Proof.
  intros Hhc Hi Hlt.
  apply (binary64_calculate_ZPE_related K nus (<[i := nu']> nus) Hhc).
  apply (insert_related not_below not_below_refl nus i nu nu' Hi).
  apply not_below_lt, Hlt.
Qed.

(** ** Which requests raise a [ValueError] *)

(** On a string, a list of floats and a float, the constructor raises a
    [ValueError] exactly when the name has no character, or the list is
    empty, or the temperature is [<= 0]. *)
Lemma init_value_error_iff (F : Type) (A : Arith F) (N : Numpy F) (K : Constants F)
    (w : world F) (s : string) (l : loc) (nus : list F) (t : F) :
  heap w !! l = Some (map PyFloat nus) ->
  (exists m w', __init__ (PyStr s) (PyList l) (PyFloat t) w = (Raises (ValueError m), w'))
  <-> (String.length s = 0%nat \/ nus = [] \/ fleb t fzero = true).
Proof.
  intros Hl. rewrite init_first_failing_check.
  unfold first_failing_check; simpl. rewrite Hl; simpl. rewrite length_map.
  rewrite find_not_float_floats.
  destruct (Nat.eqb_spec (String.length s) 0) as [Es|Es].
  { split; [intros _; now left|intros _; do 2 eexists; reflexivity]. }
  destruct nus as [|nu nus]; simpl.
  { split; [intros _; right; now left|intros _; do 2 eexists; reflexivity]. }
  destruct (fleb t fzero) eqn:Et.
  { split; [intros _; right; now right|intros _; do 2 eexists; reflexivity]. }
  split.
  - intros (m & w' & H).
    apply (construct_raises (PyStr s) (PyList l) (PyFloat t)) in H.
    destruct H; discriminate.
  - intros [H|[H|H]]; [contradiction|discriminate|discriminate].
Qed.


(** ** The example request in the real numbers *)

Section ScipyExact.

Local Open Scope R_scope.


Lemma example_request_valid (nu T : R) :
  0 < T -> valid_request (world_with [PyFloat nu]) "O" 1%positive [nu] T.
Proof.
  intros HT. split; [|split; [split|]].
  - discriminate.
  - reflexivity.
  - discriminate.
  - apply exact_fleb_false, HT.
Qed.

End ScipyExact.

(** ** The claims of the specification *)

(** C3, as the specification writes it, fails on the program in binary64
    with the scipy constants: for the eight frequencies 100.0, 200.0, ...,
    800.0 the program's zero-point energy is not [0.5] times the sum of
    the [h*c*ν_i] added in list order (the two differ in the last bit).
    [np.sum] adds the first to the second term, the third to the fourth,
    and so on, and then those sums in pairs. *)
Lemma C3_ZPE_not_summed_in_list_order :
  under_scipy_constants (fun K =>
    calculate_ZPE (A := binary64) [100; 200; 300; 400; 500; 600; 700; 800]%float
    <> (0.5 * sum_in_list_order (A := binary64)
          (map (fun nu => planck_constant * speed_of_light * nu)
             [100; 200; 300; 400; 500; 600; 700; 800]))%float) /\
  calculate_ZPE (A := binary64) (K := scipy_binary64)
    [100; 200; 300; 400; 500; 600; 700; 800]%float
  = 0x1.c90e2b5a29aa7p-3%float /\
  (0.5 * sum_in_list_order (A := binary64)
     (map (fun nu => planck_constant (Constants := scipy_binary64)
                     * speed_of_light (Constants := scipy_binary64) * nu)
        [100; 200; 300; 400; 500; 600; 700; 800]))%float
  = 0x1.c90e2b5a29aa8p-3%float.
Proof.
  split; [split|split; reflexivity].
  - intros H.
    apply (f_equal (fun x => PrimFloat.eqb x 0x1.c90e2b5a29aa7p-3)) in H.
    vm_compute in H. discriminate.
  - intros H.
    apply (f_equal (fun x => PrimFloat.eqb x 0x1.c90e2b5be02f6p-3)) in H.
    vm_compute in H. discriminate.
Qed.

(** C3, amended.  The zero-point energy of a constructed object is [0.5]
    times [np.sum] of the [h*c*ν_i], and the same for every temperature.
    In the real numbers that is [0.5 * Σ_i h*c*ν_i].  In every arithmetic
    the terms are added in list order when there are fewer than eight
    frequencies (from eight on, numpy groups the additions).  In binary64
    the value for a one-element list [ν] is [0.5 * (h*c*ν)], and for the
    frequency 1000 under the scipy constants it is [0.5*h*c*1000]. *)
Theorem C3_ZPE_formula :
  (forall (F : Type) (A : Arith F) (N : Numpy F) (K : Constants F)
          (w : world F) (s : string) (l : loc) (nus : list F) (t : F)
          (o : Corrections F) (w' : world F),
      valid_request w s l nus t ->
      __init__ (PyStr s) (PyList l) (PyFloat t) w = (Returns o, w') ->
      ZPE o = calculate_ZPE nus /\
      ((List.length nus < 8)%nat ->
       ZPE o = fmul fhalf (sum_in_list_order
                 (map (fun nu => fmul (fmul planck_constant speed_of_light) nu) nus))) /\
      forall (t' : F) (o' : Corrections F) (w'' : world F),
        __init__ (PyStr s) (PyList l) (PyFloat t') w = (Returns o', w'') ->
        ZPE o' = ZPE o) /\
  (forall (K : Constants R) (nus : list R),
      calculate_ZPE (A := exact) nus = Formula.ZPE nus) /\
  (forall (K : Constants float) (nu : float),
      same_float (calculate_ZPE (A := binary64) [nu])
        (0.5 * (planck_constant * speed_of_light * nu))%float) /\
  under_scipy_constants (fun K =>
    calculate_ZPE (A := binary64) [1000%float]
    = (0.5 * planck_constant * speed_of_light * 1000)%float).
Proof.
  split; [|split; [|split]].
  - intros F A N K w s l nus t o w' Hv Hinit.
    assert (Hzpe : forall t0 o0 w0,
               __init__ (PyStr s) (PyList l) (PyFloat t0) w = (Returns o0, w0) ->
               ZPE o0 = calculate_ZPE nus).
    { intros t0 o0 w0. rewrite init_first_failing_check.
      destruct (first_failing_check _ _ _ _); [discriminate|].
      destruct Hv as (_ & (Hl & _) & _).
      unfold construct, bind, read, lift; simpl. rewrite Hl; simpl.
      rewrite mapM_float_value_floats.
      destruct (calculate_Svib nus t0); [|discriminate].
      destruct (calculate_deltaU nus t0); [|discriminate].
      intros [= <- _]. reflexivity. }
    split; [exact (Hzpe _ _ _ Hinit)|]. split.
    + intros Hlen. rewrite (Hzpe _ _ _ Hinit). unfold calculate_ZPE.
      rewrite np_sum_in_list_order by (rewrite length_map; exact Hlen).
      reflexivity.
    + intros t' o' w'' Hinit'.
      now rewrite (Hzpe _ _ _ Hinit), (Hzpe _ _ _ Hinit').
  - intros K nus. apply exact_calculate_ZPE.
  - intros K nu. apply binary64_calculate_ZPE_one.
  - split; reflexivity.
Qed.

Lemma C3_ZPE_formula_witness :
  ZPE (Self "O"%string 1%positive 300%R
         (Formula.ZPE (K := scipy_exact) [1000%R])
         (Formula.S_vib (K := scipy_exact) [1000%R] 300%R)
         (Formula.deltaU (K := scipy_exact) [1000%R] 300%R))
  = fmul (Arith := exact) fhalf (sum_in_list_order
      (map (fun nu => fmul (fmul (planck_constant (Constants := scipy_exact))
                                 (speed_of_light (Constants := scipy_exact))) nu)
           [1000%R])).
Proof.
  refine (proj1 (proj2 (proj1 C3_ZPE_formula R exact exact_numpy scipy_exact
            (world_with [PyFloat 1000%R]) "O"%string 1%positive [1000%R] 300%R _ _ _ _))
            _).
  - split; [|split; [split|]].
    + discriminate.
    + reflexivity.
    + discriminate.
    + simpl. destruct (Rle_dec 300 0); [lra|reflexivity].
  - apply (exact_init_valid_request (K := scipy_exact)).
    + simpl. lra.
    + apply example_request_valid. lra.
  - simpl. lia.
Defined.

(** C4, as the specification writes it, fails on the program: a tuple of
    floats is a sequence of floats, and the constructor rejects it with the
    [TypeError] of the container check. *)
Lemma C4_tuple_of_floats_is_rejected :
  __init__ (A := exact) (N := exact_numpy) (K := scipy_exact)
    (PyStr "O") (PyTuple [PyFloat 3657%R]) (PyFloat 298.15%R) (World ∅ [])
  = (Raises (TypeError (Literal "Frequencies must be of type List.")), World ∅ []) /\
  kind_of (F := R) (TypeError (Literal "Frequencies must be of type List."))
  = Some InvalidArgumentType.
Proof. split; reflexivity. Qed.

(** C4, amended.  With a name that passes its checks, the constructor
    raises the [TypeError] of the container check exactly when the
    frequency container is not a list; any other container, a tuple of
    floats included, is rejected. *)
Theorem C4_container_must_be_a_list (F : Type) (A : Arith F) (N : Numpy F)
    (K : Constants F) (s : string) (container temperature : pyval F) (w : world F) :
  valid_name s ->
  __init__ (PyStr s) container temperature w = (Raises (exception_of ContainerType), w)
  <-> isinstance_List container = false.
Proof.
  intros Hs. rewrite init_first_failing_check.
  unfold first_failing_check; simpl.
  destruct (Nat.eqb_spec (String.length s) 0) as [E|_]; [contradiction|].
  destruct (isinstance_List container) eqn:Hc; simpl.
  - split; [|discriminate]. intros H. exfalso.
    destruct (List.length (elements_of (heap w) container) =? 0)%nat;
      [discriminate|].
    destruct (List.find not_float _); [discriminate|].
    destruct (negb (isinstance_float temperature)); [discriminate|].
    destruct (temperature_not_positive temperature); [discriminate|].
    apply (construct_raises (PyStr s) container temperature) in H.
    destruct H; discriminate.
  - split; reflexivity.
Qed.

Lemma C4_container_must_be_a_list_witness :
  __init__ (A := exact) (N := exact_numpy) (K := scipy_exact)
    (PyStr "O") (PyTuple [PyFloat 3657%R]) (PyFloat 298.15%R) (World ∅ [])
  = (Raises (exception_of ContainerType), World ∅ [])
  <-> isinstance_List (F := R) (PyTuple [PyFloat 3657%R]) = false.
Proof.
  apply (C4_container_must_be_a_list R exact exact_numpy scipy_exact "O").
  unfold valid_name. simpl. lia.
Defined.

(** C5.  The constructor raises the exception of the first check that
    fails in the specification's order (type of name, length of name,
    type of the container, emptiness of the container, type of each
    element in list order with the first offender in the message, type of
    temperature, value of temperature), the kind of error is the one the
    specification gives that check, and the world is the one it was
    given: nothing is printed, nothing is written, nothing is computed.
    Only when no check fails does it go on to lines 33-41. *)
Theorem C5_checks_in_order (F : Type) (A : Arith F) (N : Numpy F) (K : Constants F)
    (adsorbate_name container temperature : pyval F) (w : world F) :
  match first_failing_check (heap w) adsorbate_name container temperature with
  | Some c =>
      __init__ adsorbate_name container temperature w = (Raises (exception_of c), w) /\
      kind_of (exception_of c) = Some (spec_kind c)
  | None =>
      __init__ adsorbate_name container temperature w
      = construct adsorbate_name container temperature w
  end.
Proof.
  rewrite init_first_failing_check.
  destruct (first_failing_check _ _ _ _) as [c|]; [|reflexivity].
  split; [reflexivity|]. destruct c; reflexivity.
Qed.


(** C6.  The checks raise a [ValueError] exactly as specified, but what
    follows them does not always return.  In binary64 with the scipy
    constants the request ("O", [1000.0], 5e-324) is valid, its
    temperature is a float above zero, and the constructor raises
    [ZeroDivisionError]: [boltzmann_constant*temperature] rounds to [0.0]
    in [hnu_over_kt]. *)
Theorem C6_tiny_temperature_raises (N : Numpy float) :
  valid_request (A := binary64) (world_with [PyFloat 1000%float]) "O" 1%positive
    [1000%float] 0x1p-1074%float /\
  PrimFloat.ltb 0 0x1p-1074 = true /\
  under_scipy_constants (fun K =>
    __init__ (A := binary64)
      (PyStr "O") (PyList 1%positive) (PyFloat 0x1p-1074%float)
      (world_with [PyFloat 1000%float])
    = (Raises ZeroDivisionError, world_with [PyFloat 1000%float])).
Proof.
  assert (Hv : valid_request (A := binary64) (world_with [PyFloat 1000%float]) "O"
                 1%positive [1000%float] 0x1p-1074%float).
  { split; [|split; [split|]]; [discriminate|reflexivity|discriminate|reflexivity]. }
  split; [exact Hv|]. split; [reflexivity|].
  split; rewrite (init_valid_request _ _ _ _ _ Hv); reflexivity.
Qed.

(** C7, as the specification writes it, fails on the program in binary64
    with the scipy constants: in the list [[1000.0, 2000.0]] the second
    frequency is replaced by the next float above it, and the computed
    zero-point energy is not larger (it is the same float). *)
Lemma C7_ZPE_not_strictly_monotone_in_binary64 :
  ([1000; 2000]%float : list float) !! 1%nat = Some 2000%float /\
  PrimFloat.ltb 2000 0x1.f400000000001p+10 = true /\
  under_scipy_constants (fun K =>
    PrimFloat.ltb
      (calculate_ZPE (A := binary64) [1000; 2000]%float)
      (calculate_ZPE (A := binary64)
         (<[1%nat := 0x1.f400000000001p+10%float]> [1000; 2000]%float))
    = false).
Proof. repeat split; reflexivity. Qed.

(** C7, amended.  In binary64, for constants whose product [h*c] is
    positive and finite (the scipy constants are), replacing the [i]-th
    frequency by a strictly larger one never makes the computed
    zero-point energy smaller, whatever the other frequencies are and
    however many there are; it can leave it unchanged, as for
    [[1000.0, 2000.0]] and [[1000.0, 2000.0000000000002]].  In the real
    numbers, with [h*c > 0], it makes it strictly larger. *)
Theorem C7_ZPE_monotone :
  (forall (K : Constants float) (nus : list float) (i : nat) (nu nu' : float),
      positive_finite (planck_constant * speed_of_light)%float ->
      nus !! i = Some nu -> PrimFloat.ltb nu nu' = true ->
      PrimFloat.ltb (calculate_ZPE (A := binary64) (<[i := nu']> nus))
        (calculate_ZPE (A := binary64) nus) = false) /\
  under_scipy_constants (fun K =>
    positive_finite (planck_constant * speed_of_light)%float /\
    calculate_ZPE (A := binary64) [1000; 2000]%float
    = calculate_ZPE (A := binary64) [1000; 0x1.f400000000001p+10]%float) /\
  (forall (K : Constants R) (nus : list R) (i : nat) (nu nu' : R),
      (0 < planck_constant * speed_of_light)%R ->
      nus !! i = Some nu -> (nu < nu')%R ->
      (calculate_ZPE (A := exact) nus
       < calculate_ZPE (A := exact) (<[i := nu']> nus))%R).
Proof.
  split; [|split].
  - intros K nus i nu nu' Hhc Hi Hlt.
    exact (binary64_calculate_ZPE_insert K nus i nu nu' Hhc Hi Hlt).
  - repeat split; reflexivity.
  - intros K nus i nu nu' Hhc Hi Hlt.
    exact (exact_calculate_ZPE_insert_lt nus i nu nu' Hhc Hi Hlt).
Qed.

Lemma C7_ZPE_monotone_witness :
  PrimFloat.ltb
    (calculate_ZPE (A := binary64) (K := scipy_binary64)
       (<[1%nat := 3000%float]> [1000; 2000]%float))
    (calculate_ZPE (A := binary64) (K := scipy_binary64) [1000; 2000]%float)
  = false.
Proof.
  refine (proj1 C7_ZPE_monotone scipy_binary64 [1000; 2000]%float 1%nat
            2000%float 3000%float _ _ _).
  - split; reflexivity.
  - reflexivity.
  - reflexivity.
Defined.

(** C8.  With a valid name and a non-empty list: an integer temperature
    is rejected with the [TypeError] of the temperature check when the
    elements are floats; an integer element after floats only is rejected
    with the [TypeError] that reports it; and in the list [[100, "bad"]]
    the element reported is the integer [100]. *)
Theorem C8_integers_are_rejected (F : Type) (A : Arith F) (N : Numpy F) (K : Constants F) :
  (forall (w : world F) (s : string) (l : loc) (nus : list F) (n : Z),
      valid_name s -> valid_frequencies w l nus ->
      __init__ (PyStr s) (PyList l) (PyInt n) w
      = (Raises (exception_of TemperatureType), w) /\
      kind_of (exception_of (F := F) TemperatureType) = Some InvalidArgumentType) /\
  (forall (w : world F) (s : string) (l : loc) (before : list F) (n : Z)
          (after : list (pyval F)) (temperature : pyval F),
      valid_name s ->
      heap w !! l = Some (map PyFloat before ++ PyInt n :: after) ->
      __init__ (PyStr s) (PyList l) temperature w
      = (Raises (exception_of (ElementType (PyInt n))), w) /\
      kind_of (exception_of (ElementType (F := F) (PyInt n))) = Some InvalidArgumentType) /\
  (forall (w : world F) (s : string) (l : loc) (temperature : pyval F),
      valid_name s ->
      heap w !! l = Some [PyInt 100; PyStr "bad"] ->
      __init__ (PyStr s) (PyList l) temperature w
      = (Raises (TypeError (FString
           "Frequencies must be floating point values. Invalid element: "
           (PyInt 100) ".")), w)).
Proof.
  assert (Helem : forall (w : world F) (s : string) (l : loc) (before : list F) (n : Z)
          (after : list (pyval F)) (temperature : pyval F),
      valid_name s ->
      heap w !! l = Some (map PyFloat before ++ PyInt n :: after) ->
      __init__ (PyStr s) (PyList l) temperature w
      = (Raises (exception_of (ElementType (PyInt n))), w)).
  { intros w s l before n after temperature Hs Hl.
    rewrite init_first_failing_check. unfold first_failing_check; simpl.
    destruct (Nat.eqb_spec (String.length s) 0) as [E|_]; [contradiction|].
    rewrite Hl; simpl. rewrite length_app; simpl.
    replace (List.length (map PyFloat before) + S (List.length after) =? 0)%nat
      with false by (symmetry; apply Nat.eqb_neq; lia).
    replace (List.find not_float (map PyFloat before ++ PyInt n :: after))
      with (Some (PyInt (F := F) n)); [reflexivity|].
    clear. induction before as [|x before IH]; simpl; [reflexivity|exact IH]. }
  split; [|split].
  - intros w s l nus n Hs (Hl & Hne). split; [|reflexivity].
    rewrite init_first_failing_check. unfold first_failing_check; simpl.
    destruct (Nat.eqb_spec (String.length s) 0) as [E|_]; [contradiction|].
    rewrite Hl; simpl. rewrite length_map.
    destruct nus as [|nu nus]; [contradiction|]. simpl.
    change (not_float (PyFloat nu)) with false. cbv iota.
    rewrite find_not_float_floats. reflexivity.
  - intros w s l before n after temperature Hs Hl. split; [|reflexivity].
    exact (Helem w s l before n after temperature Hs Hl).
  - intros w s l temperature Hs Hl.
    apply (Helem w s l [] 100%Z [PyStr "bad"] temperature Hs Hl).
Qed.

Lemma C8_integers_are_rejected_witness :
  __init__ (A := exact) (N := exact_numpy) (K := scipy_exact)
    (PyStr "O") (PyList 1%positive) (PyFloat 300%R)
    (world_with [PyInt 100; PyStr "bad"])
  = (Raises (TypeError (FString
       "Frequencies must be floating point values. Invalid element: "
       (PyInt 100) ".")), world_with [PyInt 100; PyStr "bad"]).
Proof.
  refine (proj2 (proj2 (C8_integers_are_rejected R exact exact_numpy scipy_exact))
            (world_with [PyInt 100; PyStr "bad"]) "O"%string 1%positive
            (PyFloat 300%R) _ _).
  - unfold valid_name. simpl. lia.
  - reflexivity.
Defined.

(** C9.  Whatever the arguments and whether the constructor returns or
    raises, the store it leaves holds the same list objects with the same
    elements in the same order; and the object it returns keeps the
    caller's list itself, not a copy. *)
Theorem C9_frequency_list_is_not_mutated (F : Type) (A : Arith F) (N : Numpy F)
    (K : Constants F) (adsorbate_name container temperature : pyval F) (w : world F) :
  heap (snd (__init__ adsorbate_name container temperature w)) = heap w /\
  match fst (__init__ adsorbate_name container temperature w) with
  | Returns o => PyList (frequencies o) = container
  | Raises _ => True
  end.
Proof.
  split; [apply init_heap|].
  rewrite init_first_failing_check.
  destruct (first_failing_check _ _ _ _); [exact I|].
  destruct (construct adsorbate_name container temperature w) as [[o|e] w'] eqn:E;
    [|exact I].
  simpl. eapply construct_returns, E.
Qed.
(** C10.  The calculators take any list, with no validation: on the empty
    list, in binary64 with the scipy constants and whatever [np.exp] and
    [np.log] are, [calculate_ZPE] is [0.0], and [calculate_Svib] and
    [calculate_deltaU] return [0.0] for every temperature, without
    raising. *)
Theorem C10_calculators_on_the_empty_list (N : Numpy float) (T : float) :
  under_scipy_constants (fun K =>
    calculate_ZPE (A := binary64) [] = 0%float /\
    calculate_Svib (A := binary64) [] T = Returns 0%float /\
    calculate_deltaU (A := binary64) [] T = Returns 0%float).
Proof. repeat split; reflexivity. Qed.

(** ** Further properties *)

(** X1.  On arguments of the right types (a string, a list of floats, a
    float) the constructor raises a [ValueError] exactly when the name has
    no character, or the list is empty, or the temperature is [<= 0]. *)
Theorem X1_value_error_exactly_when_out_of_domain (F : Type) (A : Arith F) (N : Numpy F)
    (K : Constants F) (w : world F) (s : string) (l : loc) (nus : list F) (t : F) :
  heap w !! l = Some (map PyFloat nus) ->
  (exists m w', __init__ (PyStr s) (PyList l) (PyFloat t) w = (Raises (ValueError m), w'))
  <-> (String.length s = 0%nat \/ nus = [] \/ fleb t fzero = true).
Proof. apply init_value_error_iff. Qed.

Lemma X1_value_error_exactly_when_out_of_domain_witness :
  (exists m w',
      __init__ (A := exact) (N := exact_numpy) (K := scipy_exact)
        (PyStr "O") (PyList 1%positive) (PyFloat (-5)%R) (world_with [PyFloat 3657%R])
      = (Raises (ValueError m), w'))
  <-> (String.length "O" = 0%nat \/ [3657%R] = [] \/ fleb (-5)%R fzero = true).
Proof.
  apply (X1_value_error_exactly_when_out_of_domain R exact exact_numpy scipy_exact
           (world_with [PyFloat 3657%R]) "O" 1%positive [3657%R] (-5)%R).
  reflexivity.
Defined.

(** X2.  The invalid-input scenarios of section 8, in binary64 and
    whatever [np.exp] and [np.log] are: an empty name, an empty list, the
    temperatures [0.0] and [-5.0] raise a [ValueError]; the list
    [[100, "bad"]] and the name [42] raise a [TypeError]; in each case the
    world is left as it was. *)
Theorem X2_invalid_input_scenarios (N : Numpy float) (K : Constants float) :
  __init__ (A := binary64) (PyStr EmptyString) (PyList 1%positive) (PyFloat 300%float)
    (world_with [PyFloat 3657%float])
  = (Raises (exception_of NameLength), world_with [PyFloat 3657%float]) /\
  __init__ (A := binary64) (PyStr "O") (PyList 1%positive) (PyFloat 300%float)
    (world_with [])
  = (Raises (exception_of ContainerEmpty), world_with []) /\
  __init__ (A := binary64) (PyStr "O") (PyList 1%positive) (PyFloat 0%float)
    (world_with [PyFloat 3657%float])
  = (Raises (exception_of TemperatureValue), world_with [PyFloat 3657%float]) /\
  __init__ (A := binary64) (PyStr "O") (PyList 1%positive) (PyFloat (-5)%float)
    (world_with [PyFloat 3657%float])
  = (Raises (exception_of TemperatureValue), world_with [PyFloat 3657%float]) /\
  __init__ (A := binary64) (PyStr "O") (PyList 1%positive) (PyFloat 300%float)
    (world_with [PyInt 100; PyStr "bad"])
  = (Raises (exception_of (ElementType (PyInt 100))),
     world_with [PyInt 100; PyStr "bad"]) /\
  __init__ (A := binary64) (PyInt 42) (PyList 1%positive) (PyFloat 300%float)
    (world_with [PyFloat 3657%float])
  = (Raises (exception_of NameType), world_with [PyFloat 3657%float]).
Proof. repeat split; reflexivity. Qed.

(** X3.  In every arithmetic a valid request has two outcomes.  Either
    both calculators return, and the constructor returns the object with
    the three terms, keeps the store, and prints the specimen, the terms
    with [T*S_vib], and the total [ZPE - T*S_vib + deltaU]; or a
    calculator divides by zero, and the constructor raises
    [ZeroDivisionError] and leaves the world as it was. *)
Theorem X3_valid_request_outcomes (F : Type) (A : Arith F) (N : Numpy F) (K : Constants F)
    (w : world F) (s : string) (l : loc) (nus : list F) (t : F) :
  valid_request w s l nus t ->
  (exists s_vib delta_u,
      calculate_Svib nus t = Returns s_vib /\
      calculate_deltaU nus t = Returns delta_u /\
      __init__ (PyStr s) (PyList l) (PyFloat t) w
      = (Returns (Self s l t (calculate_ZPE nus) s_vib delta_u),
         World (heap w)
           (stdout w ++
            [ PrintSpecimen s;
              PrintTerms (calculate_ZPE nus) s_vib (fmul t s_vib) delta_u;
              PrintTotal (fadd (fsub (calculate_ZPE nus) (fmul t s_vib)) delta_u) ]))) \/
  __init__ (PyStr s) (PyList l) (PyFloat t) w = (Raises ZeroDivisionError, w).
Proof.
  intros Hv. rewrite (init_valid_request _ _ _ _ _ Hv).
  destruct (calculate_Svib nus t) as [s_vib|e] eqn:E1.
  - destruct (calculate_deltaU nus t) as [delta_u|e] eqn:E2.
    + left. exists s_vib, delta_u. repeat split; reflexivity.
    + right. now rewrite (calculate_deltaU_raises _ _ _ E2).
  - right. now rewrite (calculate_Svib_raises _ _ _ E1).
Qed.

Lemma X3_valid_request_outcomes_witness :
  (exists s_vib delta_u,
      calculate_Svib (A := exact) (N := exact_numpy) (K := scipy_exact) [3657%R] 298.15%R
      = Returns s_vib /\
      calculate_deltaU (A := exact) (N := exact_numpy) (K := scipy_exact) [3657%R] 298.15%R
      = Returns delta_u /\
      __init__ (A := exact) (N := exact_numpy) (K := scipy_exact)
        (PyStr "O") (PyList 1%positive) (PyFloat 298.15%R) (world_with [PyFloat 3657%R])
      = (Returns (Self "O" 1%positive 298.15%R
                    (calculate_ZPE (A := exact) (K := scipy_exact) [3657%R])
                    s_vib delta_u),
         World (heap (world_with [PyFloat 3657%R]))
           (stdout (world_with [PyFloat 3657%R]) ++
            [ PrintSpecimen "O";
              PrintTerms (calculate_ZPE (A := exact) (K := scipy_exact) [3657%R])
                s_vib (fmul 298.15%R s_vib) delta_u;
              PrintTotal
                (fadd (fsub (calculate_ZPE (A := exact) (K := scipy_exact) [3657%R])
                         (fmul 298.15%R s_vib)) delta_u) ]))) \/
  __init__ (A := exact) (N := exact_numpy) (K := scipy_exact)
    (PyStr "O") (PyList 1%positive) (PyFloat 298.15%R) (world_with [PyFloat 3657%R])
  = (Raises ZeroDivisionError, world_with [PyFloat 3657%R]).
Proof.
  apply (X3_valid_request_outcomes R exact exact_numpy scipy_exact
           (world_with [PyFloat 3657%R]) "O" 1%positive [3657%R] 298.15%R).
  split; [|split; [split|]].
  - discriminate.
  - reflexivity.
  - discriminate.
  - simpl. destruct (Rle_dec 298.15 0); [lra|reflexivity].
Defined.

(** X4.  In the real numbers, with [h*c >= 0], the zero-point energy of
    non-negative frequencies is non-negative. *)
Theorem X4_ZPE_nonnegative (K : Constants R) (nus : list R) :
  (0 <= planck_constant * speed_of_light)%R ->
  Forall (fun nu => (0 <= nu)%R) nus ->
  (0 <= calculate_ZPE (A := exact) nus)%R.
Proof.
  intros Hhc Hnus. rewrite exact_calculate_ZPE. unfold Formula.ZPE.
  assert (H : (0 <= Formula.Sigma (fun nu => planck_constant * speed_of_light * nu) nus)%R).
  { induction Hnus as [|nu nus Hnu _ IH]; simpl; [lra|]. nra. }
  lra.
Qed.

Lemma X4_ZPE_nonnegative_witness :
  (0 <= calculate_ZPE (A := exact) (K := scipy_exact) [3657; 1595]%R)%R.
Proof.
  apply (X4_ZPE_nonnegative scipy_exact [3657; 1595]%R).
  - simpl. lra.
  - repeat constructor; lra.
Defined.

(** ** When the calculators divide by zero *)

Section DivisionByZero.

Context {F : Type} {A : Arith F} {N : Numpy F} {K : Constants F}.

Lemma comprehension_cons_raises {B : Type} (f : F -> result F B) (x : F) (xs : list F)
    (e : exn F) :
  f x = Raises e -> comprehension f (x :: xs) = Raises e.
Proof. intros H. simpl. now rewrite H. Qed.

Lemma comprehension_returns {B : Type} (f : F -> result F B) (xs : list F) :
  (forall x, exists y, f x = Returns y) ->
  exists ys, comprehension f xs = Returns ys.
Proof.
  intros Hf. induction xs as [|x xs [ys IH]]; simpl.
  - now exists [].
  - destruct (Hf x) as [y Hy]. rewrite Hy, IH. simpl. now exists (y :: ys).
Qed.

Lemma hnu_over_kt_zero (t f : F) :
  feqb (fmul boltzmann_constant t) fzero = true ->
  hnu_over_kt t f = Raises ZeroDivisionError.
Proof. intros H. unfold hnu_over_kt, truediv. now rewrite H. Qed.

Lemma hnu_over_kt_nonzero (t f : F) :
  feqb (fmul boltzmann_constant t) fzero = false ->
  hnu_over_kt t f
  = Returns (fdiv (fmul (fmul planck_constant speed_of_light) f) (fmul boltzmann_constant t)).
Proof. intros H. unfold hnu_over_kt, truediv. now rewrite H. Qed.

Lemma calculate_Svib_zero (nus : list F) (t : F) :
  nus <> [] -> feqb (fmul boltzmann_constant t) fzero = true ->
  calculate_Svib nus t = Raises ZeroDivisionError.
Proof.
  intros Hn Hz. destruct nus as [|nu nus]; [contradiction|].
  unfold calculate_Svib.
  rewrite (comprehension_cons_raises _ nu nus ZeroDivisionError); [reflexivity|].
  unfold Svib_term. now rewrite (hnu_over_kt_zero t nu Hz).
Qed.

Lemma calculate_deltaU_zero (nus : list F) (t : F) :
  nus <> [] -> feqb (fmul boltzmann_constant t) fzero = true ->
  calculate_deltaU nus t = Raises ZeroDivisionError.
Proof.
  intros Hn Hz. destruct nus as [|nu nus]; [contradiction|].
  unfold calculate_deltaU.
  rewrite (comprehension_cons_raises _ nu nus ZeroDivisionError); [reflexivity|].
  unfold deltaU_term. now rewrite (hnu_over_kt_zero t nu Hz).
Qed.

Lemma calculate_Svib_nonzero (nus : list F) (t : F) :
  feqb (fmul boltzmann_constant t) fzero = false ->
  exists s_vib, calculate_Svib nus t = Returns s_vib.
Proof.
  intros Hz. unfold calculate_Svib.
  destruct (comprehension_returns (Svib_term t) nus) as [ys Hys].
  - intros x. unfold Svib_term. rewrite (hnu_over_kt_nonzero t x Hz). simpl. eauto.
  - rewrite Hys. simpl. eauto.
Qed.

Lemma calculate_deltaU_nonzero (nus : list F) (t : F) :
  feqb (fmul boltzmann_constant t) fzero = false ->
  exists delta_u, calculate_deltaU nus t = Returns delta_u.
Proof.
  intros Hz. unfold calculate_deltaU.
  destruct (comprehension_returns (deltaU_term t) nus) as [ys Hys].
  - intros x. unfold deltaU_term. rewrite (hnu_over_kt_nonzero t x Hz). simpl. eauto.
  - rewrite Hys. simpl. eauto.
Qed.

Lemma calculate_Svib_raises_iff (nus : list F) (t : F) :
  calculate_Svib nus t = Raises ZeroDivisionError
  <-> nus <> [] /\ feqb (fmul boltzmann_constant t) fzero = true.
Proof.
  split.
  - intros H. split.
    + intros ->. discriminate.
    + destruct (feqb (fmul boltzmann_constant t) fzero) eqn:Hz; [reflexivity|].
      destruct (calculate_Svib_nonzero nus t Hz) as [s Hs]. congruence.
  - intros [Hn Hz]. now apply calculate_Svib_zero.
Qed.

Lemma calculate_deltaU_raises_iff (nus : list F) (t : F) :
  calculate_deltaU nus t = Raises ZeroDivisionError
  <-> nus <> [] /\ feqb (fmul boltzmann_constant t) fzero = true.
Proof.
  split.
  - intros H. split.
    + intros ->. discriminate.
    + destruct (feqb (fmul boltzmann_constant t) fzero) eqn:Hz; [reflexivity|].
      destruct (calculate_deltaU_nonzero nus t Hz) as [s Hs]. congruence.
  - intros [Hn Hz]. now apply calculate_deltaU_zero.
Qed.

End DivisionByZero.

(** ** Results of binary64 operations that are numbers *)

Section RoundingNumbers.

Local Open Scope Z_scope.

Lemma finish_rounding_not_nan (s : bool) (k E : Z) :
  0 <= k <= 2 ^ 53 -> -1074 <= E -> is_nan_sf (finish_rounding s k E) = false.
Proof.
  intros Hk HE.
  destruct (Z.eq_dec k 0) as [-> | Hk0].
  { unfold finish_rounding.
    rewrite shr_fexp_no_shift by (unfold fexp64; simpl Zdigits2; lia). reflexivity. }
  destruct (Z.eq_dec k (2 ^ 53)) as [-> | Hk53].
  { unfold finish_rounding, shr_fexp. rewrite fexp_fexp64.
    change (Zdigits2 (2 ^ 53)) with 54.
    replace (fexp64 (54 + E) - E) with 1 by (unfold fexp64; lia).
    cbn [shr_record_of_loc shr SpecFloat.iter_pos].
    change (shr_1 {| shr_m := 2 ^ 53; shr_r := false; shr_s := false |})
      with {| shr_m := 2 ^ 52; shr_r := false; shr_s := false |}.
    cbn [shr_m]. change (2 ^ 52) with (Zpos (2 ^ 52)%positive) at 1.
    cbv iota beta. now destruct (E + 1 <=? emax - prec). }
  assert (Hd : Zdigits2 k <= 53) by (apply Zdigits2_le; lia).
  unfold finish_rounding. rewrite shr_fexp_no_shift by (unfold fexp64; lia).
  cbn [shr_m]. destruct k as [|p|p]; try lia.
  now destruct (E <=? emax - prec).
Qed.

Lemma binary_round_aux_not_nan (s : bool) (m : positive) (e : Z) :
  e <= fexp64 (Zpos (digits2_pos m) + e) ->
  is_nan_sf (binary_round_aux prec emax s (Zpos m) e loc_Exact) = false.
Proof.
  intros Hn. rewrite binary_round_aux_finish by assumption.
  set (d := Zpos (digits2_pos m)) in *.
  set (E := fexp64 (d + e)) in *.
  pose proof (digits2_pos_bounds m) as [Hlo Hhi]. fold d in Hlo, Hhi.
  assert (HEd : d + e - 53 <= E) by (subst E; unfold fexp64; lia).
  assert (Hq : 0 < 2 ^ (E - e)) by (apply Z.pow_pos_nonneg; lia).
  pose proof (rne_bounds (Zpos m) (E - e)) as [Hk1 Hk2].
  assert (Hk0 : 0 <= Zpos m / 2 ^ (E - e)) by (apply Z.div_pos; lia).
  assert (Hk53 : Zpos m / 2 ^ (E - e) < 2 ^ 53).
  { apply Z.div_lt_upper_bound; [lia|].
    rewrite <- Z.pow_add_r by lia.
    assert (2 ^ d <= 2 ^ (E - e + 53)) by (apply Z.pow_le_mono_r; lia). lia. }
  apply finish_rounding_not_nan; [lia|]. subst E. unfold fexp64. lia.
Qed.

Lemma binary_round_not_nan (s : bool) (m : positive) (e : Z) :
  is_nan_sf (binary_round prec emax s m e) = false.
Proof.
  unfold binary_round. rewrite fexp_fexp64.
  set (E := fexp64 (Zpos (digits2_pos m) + e)).
  unfold shl_align. destruct (E - e) as [|p|p] eqn:En.
  - apply binary_round_aux_not_nan. fold E. lia.
  - apply binary_round_aux_not_nan. fold E. lia.
  - apply binary_round_aux_not_nan.
    assert (Hd : Zpos (digits2_pos (Pos.iter xO m p)) = Zpos (digits2_pos m) + Zpos p).
    { change (Zpos (digits2_pos (Pos.iter xO m p))) with (Zdigits2 (Zpos (Pos.iter xO m p))).
      rewrite pos_iter_xO. apply Zdigits2_scale. lia. }
    rewrite Hd. replace (Zpos (digits2_pos m) + Zpos p + E) with (Zpos (digits2_pos m) + e) by lia.
    fold E. lia.
Qed.

Lemma binary_normalize_not_nan (M e : Z) (sz : bool) :
  is_nan_sf (binary_normalize prec emax M e sz) = false.
Proof. destruct M; cbn [binary_normalize]; [reflexivity| |]; apply binary_round_not_nan. Qed.

(** A sum is a number unless a term is not one, or the terms are the two
    infinities. *)
Lemma SFadd_number (x y : spec_float) :
  is_nan_sf x = false -> is_nan_sf y = false ->
  (forall s, x = S754_infinity s -> y <> S754_infinity (negb s)) ->
  is_nan_sf (SF64add x y) = false.
Proof.
  intros Nx Ny Hinf.
  destruct x as [sx|sx| |sx mx ex], y as [sy|sy| |sy my ey]; try discriminate;
    try reflexivity.
  - destruct sx, sy; reflexivity.
  - destruct sx, sy; try reflexivity; exfalso; eapply Hinf; reflexivity.
  - unfold SF64add, SFadd. apply binary_normalize_not_nan.
Qed.

(** The product of a finite number and a finite number or a zero. *)
Lemma SFmul_number (sp : bool) (mp : positive) (ep : Z) (x : spec_float) :
  valid_binary (S754_finite sp mp ep) = true -> valid_binary x = true ->
  finite_or_zero x = true ->
  is_nan_sf (SF64mul (S754_finite sp mp ep) x) = false.
Proof.
  intros Hp Hx Fx. destruct x as [sx|sx| |sx mx ex]; try discriminate; [reflexivity|].
  unfold SF64mul, SFmul. apply binary_round_aux_not_nan.
  apply (product_exponent sp sx); assumption.
Qed.

(** Every float is a multiple of the smallest positive one. *)
Lemma key_grid (x : spec_float) :
  valid_binary x = true -> exists n, key x = n * 2 ^ (bias - 1074).
Proof.
  intros Hx. destruct x as [s|s| |s m e]; cbn [key].
  - now exists 0.
  - exists (cond_Zopp s (2 ^ 2098)). rewrite cond_Zopp_mul.
    unfold key_inf. rewrite <- Z.pow_add_r by (unfold bias; lia). reflexivity.
  - now exists 0.
  - pose proof (valid_finite_bounds _ _ _ Hx) as (He & _ & _).
    exists (cond_Zopp s (Zpos m * 2 ^ (e + 1074))). rewrite cond_Zopp_mul. f_equal.
    rewrite <- Z.mul_assoc, <- Z.pow_add_r by (unfold bias; lia).
    f_equal. f_equal. lia.
Qed.

End RoundingNumbers.

(** ** Comparisons of floats *)

Lemma float_compare_key (x y : float) :
  is_nan_sf (Prim2SF x) = false -> is_nan_sf (Prim2SF y) = false ->
  SFcompare (Prim2SF x) (Prim2SF y) = Some (key (Prim2SF x) ?= key (Prim2SF y))%Z.
Proof. intros Nx Ny. apply SFcompare_key; try apply Prim2SF_valid; assumption. Qed.

Lemma float_compare_nan (x y : float) :
  is_nan_sf (Prim2SF x) = true \/ is_nan_sf (Prim2SF y) = true ->
  SFcompare (Prim2SF x) (Prim2SF y) = None.
Proof.
  intros [H|H].
  - destruct (Prim2SF x); try discriminate. reflexivity.
  - destruct (Prim2SF y); try discriminate. now destruct (Prim2SF x).
Qed.

Lemma leb_key (x y : float) :
  PrimFloat.leb x y = true
  <-> is_nan_sf (Prim2SF x) = false /\ is_nan_sf (Prim2SF y) = false /\
      (key (Prim2SF x) <= key (Prim2SF y))%Z.
Proof.
  rewrite leb_spec. unfold SFleb.
  destruct (is_nan_sf (Prim2SF x)) eqn:Nx;
    [rewrite float_compare_nan by now left|].
  { split; [discriminate|intros (H & _); discriminate]. }
  destruct (is_nan_sf (Prim2SF y)) eqn:Ny;
    [rewrite float_compare_nan by now right|].
  { split; [discriminate|intros (_ & H & _); discriminate]. }
  rewrite float_compare_key by assumption.
  destruct (Z.compare_spec (key (Prim2SF x)) (key (Prim2SF y))) as [C|C|C]; split;
    try (intros _; repeat split; lia); try discriminate; intros (_ & _ & H); lia.
Qed.

Lemma ltb_key (x y : float) :
  PrimFloat.ltb x y = true
  <-> is_nan_sf (Prim2SF x) = false /\ is_nan_sf (Prim2SF y) = false /\
      (key (Prim2SF x) < key (Prim2SF y))%Z.
Proof.
  rewrite ltb_spec. unfold SFltb.
  destruct (is_nan_sf (Prim2SF x)) eqn:Nx;
    [rewrite float_compare_nan by now left|].
  { split; [discriminate|intros (H & _); discriminate]. }
  destruct (is_nan_sf (Prim2SF y)) eqn:Ny;
    [rewrite float_compare_nan by now right|].
  { split; [discriminate|intros (_ & H & _); discriminate]. }
  rewrite float_compare_key by assumption.
  destruct (Z.compare_spec (key (Prim2SF x)) (key (Prim2SF y))) as [C|C|C]; split;
    try (intros _; repeat split; lia); try discriminate; intros (_ & _ & H); lia.
Qed.

Lemma eqb_key (x y : float) :
  PrimFloat.eqb x y = true
  <-> is_nan_sf (Prim2SF x) = false /\ is_nan_sf (Prim2SF y) = false /\
      key (Prim2SF x) = key (Prim2SF y).
Proof.
  rewrite FloatAxioms.eqb_spec. unfold SFeqb.
  destruct (is_nan_sf (Prim2SF x)) eqn:Nx;
    [rewrite float_compare_nan by now left|].
  { split; [discriminate|intros (H & _); discriminate]. }
  destruct (is_nan_sf (Prim2SF y)) eqn:Ny;
    [rewrite float_compare_nan by now right|].
  { split; [discriminate|intros (_ & H & _); discriminate]. }
  rewrite float_compare_key by assumption.
  destruct (Z.compare_spec (key (Prim2SF x)) (key (Prim2SF y))) as [C|C|C]; split;
    try (intros _; repeat split; lia); try discriminate; intros (_ & _ & H); lia.
Qed.

Lemma is_nan_spec (x : float) :
  PrimFloat.is_nan x = is_nan_sf (Prim2SF x).
Proof.
  unfold PrimFloat.is_nan.
  destruct (is_nan_sf (Prim2SF x)) eqn:Nx.
  - destruct (PrimFloat.eqb x x) eqn:E; [|reflexivity].
    apply eqb_key in E. destruct E as (E & _). congruence.
  - assert (E : PrimFloat.eqb x x = true) by (apply eqb_key; auto).
    now rewrite E.
Qed.

(** ** The temperatures at which [k_B * T] rounds to zero *)

Lemma nan_or_number (x : spec_float) : {is_nan_sf x = true} + {is_nan_sf x = false}.
Proof. destruct (is_nan_sf x); auto. Qed.

Lemma mul_nan (p x : float) :
  is_nan_sf (Prim2SF x) = true -> is_nan_sf (Prim2SF (p * x)) = true.
Proof.
  intros H. rewrite mul_spec. destruct (Prim2SF x); try discriminate.
  now destruct (Prim2SF p).
Qed.

Lemma finite_of_key (x : spec_float) :
  valid_binary x = true -> is_nan_sf x = false ->
  (- key_inf < key x < key_inf)%Z -> finite_or_zero x = true.
Proof.
  intros Hx Nx Hk. destruct x as [s|s| |s m e]; try reflexivity; try discriminate.
  destruct s; cbn [key cond_Zopp] in Hk; lia.
Qed.

(** The product of a positive finite float and a positive finite float:
    a number, not below zero. *)
Lemma mul_positive (p x : float) :
  positive_finite p ->
  is_nan_sf (Prim2SF x) = false ->
  (0 <= key (Prim2SF x) < key_inf)%Z ->
  is_nan_sf (Prim2SF (p * x)) = false /\ (0 <= key (Prim2SF (p * x)))%Z.
Proof.
  intros Hp Nx Hk. destruct (positive_finite_spec p Hp) as (m & e & Ep).
  assert (Vp : valid_binary (S754_finite false m e) = true)
    by (rewrite <- Ep; apply Prim2SF_valid).
  pose proof key_inf_pos as HI.
  assert (Fx : finite_or_zero (Prim2SF x) = true)
    by (apply finite_of_key; [apply Prim2SF_valid|assumption|lia]).
  rewrite mul_spec, Ep. split.
  - apply SFmul_number; [assumption|apply Prim2SF_valid|assumption].
  - destruct (SFmul_key m e (Prim2SF x) Vp (Prim2SF_valid x) Fx) as (w & -> & Hw).
    change 0%Z with (round_key 0). apply round_key_mono.
    pose proof (finite_key_bounds _ _ _ Vp) as [Hkp _].
    assert (HB : (0 < 2 ^ bias)%Z) by (apply Z.pow_pos_nonneg; unfold bias; lia).
    nia.
Qed.

(** Between two neighbouring floats [t0] and [t1], of which the first is
    sent to zero by the multiplication with [p] and the second is not:
    the products that are zero are those of the floats up to [t0]. *)
Lemma mul_zero_iff (p t0 t1 T : float) (n : Z) :
  positive_finite p ->
  is_nan_sf (Prim2SF t0) = false -> key (Prim2SF t0) = (n * 2 ^ (bias - 1074))%Z ->
  is_nan_sf (Prim2SF t1) = false -> key (Prim2SF t1) = ((n + 1) * 2 ^ (bias - 1074))%Z ->
  (key (Prim2SF t0) < key_inf)%Z ->
  PrimFloat.eqb (p * t0) 0 = true -> PrimFloat.ltb 0 (p * t1) = true ->
  PrimFloat.leb T 0 = false ->
  PrimFloat.eqb (p * T) 0 = true <-> PrimFloat.leb T t0 = true.
Proof.
  intros Hp N0 K0 N1 K1 F0 Z0 P1 HT.
  assert (HG : (0 < 2 ^ (bias - 1074))%Z) by (apply Z.pow_pos_nonneg; unfold bias; lia).
  assert (Nz : is_nan_sf (Prim2SF 0) = false) by reflexivity.
  assert (Kz : key (Prim2SF 0) = 0%Z) by reflexivity.
  apply ltb_key in P1. destruct P1 as (_ & Np1 & Kp1). rewrite Kz in Kp1.
  apply eqb_key in Z0. destruct Z0 as (Np0 & _ & Kp0). rewrite Kz in Kp0.
  split.
  - intros E. apply eqb_key in E. destruct E as (NpT & _ & KpT). rewrite Kz in KpT.
    destruct (nan_or_number (Prim2SF T)) as [NT|NT].
    { rewrite (mul_nan p T NT) in NpT. discriminate. }
    apply leb_key. repeat split; try assumption.
    destruct (Z_le_gt_dec (key (Prim2SF T)) (key (Prim2SF t0))) as [Hle|Hgt]; [exact Hle|].
    exfalso.
    destruct (key_grid (Prim2SF T) (Prim2SF_valid T)) as [k Hk].
    assert (Hge : (key (Prim2SF t1) <= key (Prim2SF T))%Z).
    { rewrite K1, Hk. rewrite Hk, K0 in Hgt.
      assert (n < k)%Z by (apply (Z.mul_lt_mono_pos_r (2 ^ (bias - 1074))); lia).
      apply Z.mul_le_mono_nonneg_r; lia. }
    assert (Hnb : not_below t1 T).
    { unfold not_below. destruct (PrimFloat.ltb T t1) eqn:L; [|reflexivity].
      apply ltb_key in L. lia. }
    pose proof (not_below_mul p t1 T Hp Hnb) as Hm. unfold not_below in Hm.
    assert (L : PrimFloat.ltb (p * T) (p * t1) = true) by (apply ltb_key; repeat split; auto; lia).
    congruence.
  - intros L. apply leb_key in L. destruct L as (NT & _ & KT).
    assert (Hpos : (0 < key (Prim2SF T))%Z).
    { destruct (Z_lt_le_dec 0 (key (Prim2SF T))) as [H|H]; [exact H|].
      assert (L : PrimFloat.leb T 0 = true) by (apply leb_key; repeat split; auto; lia).
      congruence. }
    destruct (mul_positive p T Hp NT) as [NpT KpT]; [lia|].
    apply eqb_key. repeat split; try assumption. rewrite Kz.
    assert (Hnb : not_below T t0).
    { unfold not_below. destruct (PrimFloat.ltb t0 T) eqn:L; [|reflexivity].
      apply ltb_key in L. lia. }
    pose proof (not_below_mul p T t0 Hp Hnb) as Hm. unfold not_below in Hm.
    destruct (Z_le_gt_dec (key (Prim2SF (p * T))) 0) as [Hle|Hgt]; [lia|].
    assert (L : PrimFloat.ltb (p * t0) (p * T) = true) by (apply ltb_key; repeat split; auto; lia).
    congruence.
Qed.

Lemma scipy_boltzmann_times_zero (T : float) :
  PrimFloat.leb T 0 = false ->
  under_scipy_constants (fun K =>
    PrimFloat.eqb (boltzmann_constant * T) 0 = true
    <-> PrimFloat.leb T 0x16aap-1074 = true).
Proof.
  intros HT. split.
  - apply (mul_zero_iff _ 0x16aap-1074 0x16abp-1074 T 5802); try reflexivity; try assumption.
    split; reflexivity.
  - apply (mul_zero_iff _ 0x16aap-1074 0x16abp-1074 T 5802); try reflexivity; try assumption.
    split; reflexivity.
Qed.

(** ** The outcome of a valid request in binary64 *)

Lemma init_valid_request_outcome {F : Type} {A : Arith F} {N : Numpy F} {K : Constants F}
    (w : world F) (s : string) (l : loc) (nus : list F) (t : F) :
  valid_request w s l nus t ->
  if feqb (fmul boltzmann_constant t) fzero
  then __init__ (PyStr s) (PyList l) (PyFloat t) w = (Raises ZeroDivisionError, w)
  else exists o, __init__ (PyStr s) (PyList l) (PyFloat t) w
                 = (Returns o, World (heap w)
                                 (stdout w ++ report s t (ZPE o) (S_vib o) (deltaU o))).
Proof.
  intros Hv. rewrite (init_valid_request _ _ _ _ _ Hv).
  destruct Hv as (_ & (_ & Hn) & _).
  destruct (feqb (fmul boltzmann_constant t) fzero) eqn:Hz.
  - now rewrite (calculate_Svib_zero nus t Hn Hz).
  - destruct (calculate_Svib_nonzero nus t Hz) as [sv ->].
    destruct (calculate_deltaU_nonzero nus t Hz) as [du ->].
    exists (Self s l t (calculate_ZPE nus) sv du). reflexivity.
Qed.

Lemma binary64_temperature_check (t : float) :
  PrimFloat.leb t 0 = false <-> PrimFloat.ltb 0 t = true \/ PrimFloat.is_nan t = true.
Proof.
  rewrite is_nan_spec.
  assert (Nz : is_nan_sf (Prim2SF 0) = false) by reflexivity.
  assert (Kz : key (Prim2SF 0) = 0%Z) by reflexivity.
  split.
  - intros H. destruct (nan_or_number (Prim2SF t)) as [Nt|Nt]; [now right|left].
    apply ltb_key. repeat split; try assumption. rewrite Kz.
    destruct (Z_lt_le_dec 0 (key (Prim2SF t))) as [Hk|Hk]; [exact Hk|].
    assert (L : PrimFloat.leb t 0 = true) by (apply leb_key; repeat split; auto; lia).
    congruence.
  - intros [H|H]; destruct (PrimFloat.leb t 0) eqn:L; try reflexivity; exfalso;
      apply leb_key in L; destruct L as (Nt & _ & Kt).
    + apply ltb_key in H. lia.
    + congruence.
Qed.

Lemma init_divides_iff (N : Numpy float) (K : Constants float) (t0 : float) :
  (forall T, PrimFloat.leb T 0 = false ->
             PrimFloat.eqb (boltzmann_constant * T) 0 = true <-> PrimFloat.leb T t0 = true) ->
  forall (w : world float) (s : string) (l : loc) (nus : list float) (T : float),
    valid_request (A := binary64) w s l nus T ->
    if PrimFloat.leb T t0
    then __init__ (A := binary64) (PyStr s) (PyList l) (PyFloat T) w
         = (Raises ZeroDivisionError, w)
    else exists o,
         __init__ (A := binary64) (PyStr s) (PyList l) (PyFloat T) w
         = (Returns o,
            World (heap w) (stdout w ++ report s T (ZPE o) (S_vib o) (deltaU o))).
Proof.
  intros Hiff w s l nus T Hv.
  pose proof (init_valid_request_outcome (N := N) (K := K) w s l nus T Hv) as H.
  destruct Hv as (_ & _ & HT). specialize (Hiff T HT).
  cbn [feqb fmul fzero binary64] in H.
  destruct (PrimFloat.leb T t0).
  - rewrite (proj2 Hiff eq_refl) in H. exact H.
  - destruct (PrimFloat.eqb (boltzmann_constant * T) 0);
      [destruct Hiff as [Hiff _]; discriminate (Hiff eq_refl)|exact H].
Qed.

(** ** Sums of lists whose elements share a property *)

Section Closed.

Context {F : Type} {A : Arith F} (P : F -> Prop).

Hypothesis P_zero : P fzero.
Hypothesis P_add : forall a b, P a -> P b -> P (fadd a b).

Lemma fold_left_closed (xs : list F) (a : F) :
  Forall P xs -> P a -> P (fold_left fadd xs a).
Proof.
  intros H. revert a. induction H as [|x xs Hx _ IH]; intros a Ha; simpl.
  - exact Ha.
  - apply IH, P_add; assumption.
Qed.

Lemma add_block_closed (r block : list F) :
  Forall P r -> Forall P block -> Forall P (add_block r block).
Proof.
  intros Hr. revert block. induction Hr as [|x r Hx Hr IH]; intros block Hb; simpl.
  - constructor.
  - destruct Hb as [|b block Hb Hbs]; constructor; auto.
Qed.

Lemma unrolled_loop_closed (blocks : nat) (r a : list F) :
  Forall P r -> Forall P a ->
  Forall P (fst (unrolled_loop blocks r a)) /\ Forall P (snd (unrolled_loop blocks r a)).
Proof.
  revert r a. induction blocks as [|blocks IH]; intros r a Hr Ha; simpl.
  - split; assumption.
  - apply IH.
    + apply add_block_closed; [assumption|]. apply Forall_take, Ha.
    + apply Forall_drop, Ha.
Qed.

Lemma combine_lanes_closed (r : list F) : Forall P r -> P (combine_lanes r).
Proof.
  intros H.
  do 9 (destruct H as [|? ? ? H]; [try apply P_zero|]); try apply P_zero.
  cbn [combine_lanes]. repeat apply P_add; assumption.
Qed.

Lemma pairwise_block_closed (a : list F) : Forall P a -> P (pairwise_block a).
Proof.
  intros H. unfold pairwise_block.
  destruct (unrolled_loop_closed (List.length a / 8 - 1) (firstn 8 a) (skipn 8 a)) as [H1 H2].
  - apply Forall_take, H.
  - apply Forall_drop, H.
  - destruct (unrolled_loop _ (firstn 8 a) _) as [r rest].
    apply fold_left_closed; [exact H2|]. apply combine_lanes_closed, H1.
Qed.

Lemma pairwise_sum_closed (fuel : nat) (a : list F) :
  Forall P a -> P (pairwise_sum fuel a).
Proof.
  revert a. induction fuel as [|fuel IH]; intros a H; cbn [pairwise_sum];
    destruct (List.length a <? 8)%nat;
    try (apply fold_left_closed; [exact H|apply P_zero]);
    destruct (List.length a <=? 128)%nat;
    try (apply pairwise_block_closed, H).
  - apply P_zero.
  - apply P_add; apply IH; [apply Forall_take|apply Forall_drop]; exact H.
Qed.

Lemma np_sum_closed (xs : list F) : Forall P xs -> P (np_sum xs).
Proof. apply pairwise_sum_closed. Qed.

End Closed.

(** ** Sums of lists with an element that absorbs the others *)

Section Absorbing.

Context {F : Type} {A : Arith F} (Q : F -> Prop).

Hypothesis Q_left : forall a b, Q a -> Q (fadd a b).
Hypothesis Q_right : forall a b, Q b -> Q (fadd a b).

Lemma fold_left_absorbing (xs : list F) (a : F) :
  Q a \/ Exists Q xs -> Q (fold_left fadd xs a).
Proof.
  revert a. induction xs as [|x xs IH]; intros a H; simpl.
  - destruct H as [H|H]; [exact H|inversion H].
  - apply IH. destruct H as [H|H].
    + left. apply Q_left, H.
    + inversion H; subst; [left; apply Q_right; assumption|now right].
Qed.

Lemma add_block_length (r block : list F) :
  List.length (add_block r block) = List.length r.
Proof.
  revert block. induction r as [|x r IH]; intros block; simpl; [reflexivity|].
  destruct block; simpl; [reflexivity|]. now rewrite IH.
Qed.

Lemma add_block_absorbing (r block : list F) :
  (List.length block <= List.length r)%nat ->
  Exists Q r \/ Exists Q block -> Exists Q (add_block r block).
Proof.
  revert block. induction r as [|x r IH]; intros block Hlen H.
  - destruct block; simpl in Hlen; [|lia]. destruct H as [H|H]; inversion H.
  - destruct block as [|b block]; simpl.
    + destruct H as [H|H]; [exact H|inversion H].
    + simpl in Hlen.
      destruct H as [H|H]; inversion H; subst.
      * left. apply Q_left. assumption.
      * right. apply IH; [lia|now left].
      * left. apply Q_right. assumption.
      * right. apply IH; [lia|now right].
Qed.

Lemma unrolled_loop_absorbing (blocks : nat) (r a : list F) :
  List.length r = 8%nat ->
  Exists Q r \/ Exists Q a ->
  List.length (fst (unrolled_loop blocks r a)) = 8%nat /\
  (Exists Q (fst (unrolled_loop blocks r a)) \/ Exists Q (snd (unrolled_loop blocks r a))).
Proof.
  revert r a. induction blocks as [|blocks IH]; intros r a Hr H; simpl.
  - split; assumption.
  - apply IH.
    + now rewrite add_block_length.
    + assert (Ha : Exists Q a -> Exists Q (firstn 8 a) \/ Exists Q (skipn 8 a)).
      { intros Ha. rewrite <- (firstn_skipn 8 a) in Ha. apply Exists_app in Ha. exact Ha. }
      assert (Hlen : (List.length (firstn 8 a) <= List.length r)%nat).
      { rewrite Hr. apply firstn_le_length. }
      destruct H as [H|H].
      * left. apply add_block_absorbing; [exact Hlen|now left].
      * destruct (Ha H) as [H1|H2]; [|now right].
        left. apply add_block_absorbing; [exact Hlen|now right].
Qed.

Lemma combine_lanes_absorbing (r : list F) :
  List.length r = 8%nat -> Exists Q r -> Q (combine_lanes r).
Proof.
  intros Hr H.
  do 9 (destruct r as [|? r]; try discriminate). cbn [combine_lanes].
  repeat (apply Exists_cons in H; destruct H as [H|H];
          [auto 8 using Q_left, Q_right|]).
  inversion H.
Qed.

Lemma pairwise_block_absorbing (a : list F) :
  (8 <= List.length a)%nat -> Exists Q a -> Q (pairwise_block a).
Proof.
  intros Hlen H. unfold pairwise_block.
  destruct (unrolled_loop_absorbing (List.length a / 8 - 1) (firstn 8 a) (skipn 8 a))
    as [H1 H2].
  - rewrite length_firstn. lia.
  - rewrite <- (firstn_skipn 8 a) in H. apply Exists_app in H. exact H.
  - destruct (unrolled_loop _ (firstn 8 a) _) as [r rest]. simpl in H1, H2.
    apply fold_left_absorbing. destruct H2 as [H2|H2]; [left|now right].
    apply combine_lanes_absorbing; assumption.
Qed.

Lemma pairwise_sum_absorbing (fuel : nat) (a : list F) :
  (List.length a <= fuel)%nat -> Exists Q a -> Q (pairwise_sum fuel a).
Proof.
  revert a. induction fuel as [|fuel IH]; intros a Hlen H; cbn [pairwise_sum].
  - destruct a; [inversion H|simpl in Hlen; lia].
  - destruct (Nat.ltb_spec (List.length a) 8) as [H8|H8].
    { apply fold_left_absorbing. now right. }
    destruct (Nat.leb_spec (List.length a) 128) as [H128|H128].
    { apply pairwise_block_absorbing; assumption. }
    set (n2 := (List.length a / 2 - (List.length a / 2) mod 8)%nat).
    assert (Hdiv : (List.length a / 2 < List.length a)%nat)
      by (apply Nat.div_lt; lia).
    assert (H64 : (64 <= List.length a / 2)%nat)
      by (apply Nat.div_le_lower_bound; lia).
    assert (Hmod : ((List.length a / 2) mod 8 < 8)%nat) by (apply Nat.mod_upper_bound; lia).
    assert (Hn2 : (0 < n2 < List.length a)%nat) by (subst n2; lia).
    rewrite <- (firstn_skipn n2 a) in H. apply Exists_app in H.
    destruct H as [H|H].
    + apply Q_left, IH; [|exact H]. rewrite length_firstn. lia.
    + apply Q_right, IH; [|exact H]. rewrite length_skipn. lia.
Qed.

Lemma np_sum_absorbing (xs : list F) : Exists Q xs -> Q (np_sum xs).
Proof. apply pairwise_sum_absorbing. lia. Qed.

End Absorbing.

(** ** The sign of the zero-point energy in binary64 *)

Lemma add_nan_l (a b : float) :
  is_nan_sf (Prim2SF a) = true -> is_nan_sf (Prim2SF (a + b)) = true.
Proof.
  intros H. rewrite add_spec. destruct (Prim2SF a); try discriminate. reflexivity.
Qed.

Lemma add_nan_r (a b : float) :
  is_nan_sf (Prim2SF b) = true -> is_nan_sf (Prim2SF (a + b)) = true.
Proof.
  intros H. rewrite add_spec. destruct (Prim2SF b); try discriminate.
  now destruct (Prim2SF a).
Qed.

Lemma add_nonnegative (a b : float) :
  PrimFloat.leb 0 a = true -> PrimFloat.leb 0 b = true -> PrimFloat.leb 0 (a + b) = true.
Proof.
  intros Ha Hb.
  assert (Kz : key (Prim2SF 0) = 0%Z) by reflexivity.
  apply leb_key in Ha. destruct Ha as (Nz & Na & Ka). rewrite Kz in Ka.
  apply leb_key in Hb. destruct Hb as (_ & Nb & Kb). rewrite Kz in Kb.
  pose proof key_inf_pos as HI.
  assert (Nab : is_nan_sf (Prim2SF (a + b)) = false).
  { rewrite add_spec. apply SFadd_number; try assumption.
    intros s Ea Eb. rewrite Ea in Ka. rewrite Eb in Kb.
    destruct s; cbn [key cond_Zopp negb] in Ka, Kb; lia. }
  apply leb_key. repeat split; try assumption. rewrite Kz.
  assert (H0a : not_below 0 a).
  { unfold not_below. destruct (PrimFloat.ltb a 0) eqn:L; [|reflexivity].
    apply ltb_key in L. lia. }
  assert (H0b : not_below 0 b).
  { unfold not_below. destruct (PrimFloat.ltb b 0) eqn:L; [|reflexivity].
    apply ltb_key in L. lia. }
  pose proof (not_below_add 0 a 0 b H0a H0b) as H.
  change (0 + 0)%float with 0%float in H. unfold not_below in H.
  destruct (Z_le_gt_dec 0 (key (Prim2SF (a + b)))) as [Hle|Hgt]; [exact Hle|].
  assert (L : PrimFloat.ltb (a + b) 0 = true) by (apply ltb_key; repeat split; auto; lia).
  congruence.
Qed.

Lemma mul_nonnegative (p x : float) :
  positive_finite p -> PrimFloat.leb 0 x = true -> PrimFloat.leb 0 (p * x) = true.
Proof.
  intros Hp Hx.
  assert (Kz : key (Prim2SF 0) = 0%Z) by reflexivity.
  apply leb_key in Hx. destruct Hx as (Nz & Nx & Kx). rewrite Kz in Kx.
  pose proof key_inf_pos as HI.
  pose proof (key_bounds _ (Prim2SF_valid x)) as [_ Hub].
  apply leb_key. rewrite Kz.
  destruct (Z.eq_dec (key (Prim2SF x)) key_inf) as [Hinf|Hfin].
  - destruct (positive_finite_spec p Hp) as (m & e & Ep).
    rewrite mul_spec, Ep.
    pose proof (key_finite_bounds _ (Prim2SF_valid x)) as Hfb.
    destruct (Prim2SF x) as [s|s| |s mx ex]; try discriminate;
      try (specialize (Hfb eq_refl); lia).
    destruct s; cbn [key cond_Zopp] in Hinf; [lia|].
    cbn. repeat split; try reflexivity. lia.
  - destruct (mul_positive p x Hp Nx) as [N K]; [lia|]. repeat split; assumption.
Qed.

Lemma binary64_calculate_ZPE_nonnegative (K : Constants float) (nus : list float) :
  positive_finite (planck_constant * speed_of_light)%float ->
  Forall (fun nu => PrimFloat.leb 0 nu = true) nus ->
  PrimFloat.leb 0 (calculate_ZPE (A := binary64) nus) = true.
Proof.
  intros Hhc H. unfold calculate_ZPE.
  apply (mul_nonnegative 0.5%float); [apply half_positive_finite|].
  apply (np_sum_closed (A := binary64) (fun x => PrimFloat.leb 0 x = true)).
  - reflexivity.
  - apply add_nonnegative.
  - apply Forall_map. eapply Forall_impl; [exact H|].
    intros nu Hnu. apply (mul_nonnegative _ nu Hhc Hnu).
Qed.

(** A frequency that is not a number gives a zero-point energy that is
    not a number. *)
Lemma binary64_calculate_ZPE_nan (K : Constants float) (nus : list float) :
  Exists (fun nu => PrimFloat.is_nan nu = true) nus ->
  PrimFloat.is_nan (calculate_ZPE (A := binary64) nus) = true.
Proof.
  intros H. rewrite is_nan_spec. unfold calculate_ZPE.
  apply (mul_nan 0.5%float).
  apply (np_sum_absorbing (A := binary64) (fun x => is_nan_sf (Prim2SF x) = true)
           add_nan_l add_nan_r).
  induction H as [nu nus Hnu|nu nus _ IH]; simpl.
  - left. apply mul_nan. now rewrite <- is_nan_spec.
  - right. exact IH.
Qed.

(** ** A frequency of zero *)


Lemma float_of_spec (x : float) (y : spec_float) : Prim2SF x = y -> x = SF2Prim y.
Proof. intros <-. symmetry. apply SF2Prim_Prim2SF. Qed.

Lemma float_nan (x : float) : is_nan_sf (Prim2SF x) = true -> x = nan.
Proof.
  intros H. apply (float_of_spec x S754_nan). now destruct (Prim2SF x).
Qed.

Lemma zero_cases (x : float) : PrimFloat.eqb x 0 = true -> x = 0%float \/ x = (-0)%float.
Proof.
  rewrite FloatAxioms.eqb_spec. change (Prim2SF 0) with (S754_zero false).
  destruct (Prim2SF x) as [s|s| |s m e] eqn:E; try discriminate.
  - intros _. apply float_of_spec in E. destruct s; [now right|now left].
  - destruct s; discriminate.
  - destruct s; discriminate.
Qed.

Lemma mul_zero (p z : float) :
  positive_finite p -> z = 0%float \/ z = (-0)%float -> (p * z)%float = z.
Proof.
  intros Hp Hz. destruct (positive_finite_spec p Hp) as (m & e & Ep).
  destruct Hz as [-> | ->].
  - apply (float_of_spec _ (S754_zero false)). now rewrite mul_spec, Ep.
  - apply (float_of_spec _ (S754_zero true)). now rewrite mul_spec, Ep.
Qed.

Lemma positive_spec (d : float) :
  PrimFloat.ltb 0 d = true ->
  (exists m e, Prim2SF d = S754_finite false m e) \/ Prim2SF d = S754_infinity false.
Proof.
  rewrite ltb_spec. change (Prim2SF 0) with (S754_zero false).
  destruct (Prim2SF d) as [s|s| |s m e]; try discriminate.
  - destruct s; [discriminate|]. now right.
  - destruct s; [discriminate|]. left. now exists m, e.
Qed.

Lemma positive_nonzero (d : float) : PrimFloat.ltb 0 d = true -> PrimFloat.eqb d 0 = false.
Proof.
  intros H. rewrite FloatAxioms.eqb_spec. change (Prim2SF 0) with (S754_zero false).
  destruct (positive_spec d H) as [(m & e & ->)| ->]; reflexivity.
Qed.

Lemma zero_div_positive (z d : float) :
  z = 0%float \/ z = (-0)%float -> PrimFloat.ltb 0 d = true -> (z / d)%float = z.
Proof.
  intros Hz Hd.
  destruct Hz as [-> | ->]; destruct (positive_spec d Hd) as [(m & e & Ed)|Ed].
  - apply (float_of_spec _ (S754_zero false)). now rewrite div_spec, Ed.
  - apply (float_of_spec _ (S754_zero false)). now rewrite div_spec, Ed.
  - apply (float_of_spec _ (S754_zero true)). now rewrite div_spec, Ed.
  - apply (float_of_spec _ (S754_zero true)). now rewrite div_spec, Ed.
Qed.

(** Zero divided by the product of a positive float and zero. *)
Lemma zero_div_positive_times_zero (z d : float) :
  z = 0%float \/ z = (-0)%float -> PrimFloat.ltb 0 d = true -> (z / (d * 0))%float = nan.
Proof.
  intros Hz Hd. apply float_nan. rewrite div_spec, mul_spec.
  change (Prim2SF 0) with (S754_zero false).
  destruct Hz as [-> | ->]; destruct (positive_spec d Hd) as [(m & e & ->)| ->]; reflexivity.
Qed.

Lemma nan_sub (y : float) : (nan - y)%float = nan.
Proof. apply float_nan. rewrite sub_spec. reflexivity. Qed.

Section ZeroFrequency.

Context {N : Numpy float} {K : Constants float}.

Hypothesis exp_zero : np_exp 0%float = 1%float.
Hypothesis exp_minus_zero : np_exp (-0)%float = 1%float.
Hypothesis hc_positive : positive_finite (planck_constant * speed_of_light)%float.
Hypothesis k_positive : positive_finite boltzmann_constant.

Variable T : float.
Hypothesis kT_positive : PrimFloat.ltb 0 (boltzmann_constant * T) = true.

Lemma exp_of_zero (z : float) : z = 0%float \/ z = (-0)%float -> np_exp z = 1%float.
Proof. intros [-> | ->]; assumption. Qed.

Lemma hnu_over_kt_returns (nu : float) :
  hnu_over_kt (A := binary64) T nu
  = Returns (planck_constant * speed_of_light * nu / (boltzmann_constant * T))%float.
Proof.
  exact (hnu_over_kt_nonzero (A := binary64) T nu (positive_nonzero _ kT_positive)).
Qed.

Lemma hnu_over_kt_zero_frequency (nu : float) :
  PrimFloat.eqb nu 0 = true ->
  (planck_constant * speed_of_light * nu)%float = nu /\
  (planck_constant * speed_of_light * nu / (boltzmann_constant * T))%float = nu.
Proof.
  intros H. apply zero_cases in H.
  rewrite (mul_zero _ nu hc_positive H). split; [reflexivity|].
  apply zero_div_positive; assumption.
Qed.

Lemma Svib_term_zero_frequency (nu : float) :
  PrimFloat.eqb nu 0 = true ->
  Svib_term (A := binary64) T nu = Returns nan.
Proof.
  intros H. unfold Svib_term. rewrite hnu_over_kt_returns. cbn [bind_result].
  destruct (hnu_over_kt_zero_frequency nu H) as [E1 E2].
  cbn [fmul fdiv fsub fneg fone binary64]. rewrite E2, E1.
  apply zero_cases in H.
  rewrite (exp_of_zero nu H).
  change (1 - 1)%float with 0%float.
  rewrite (zero_div_positive_times_zero nu _ H kT_positive).
  now rewrite nan_sub.
Qed.

Lemma deltaU_term_zero_frequency (nu : float) :
  PrimFloat.eqb nu 0 = true ->
  deltaU_term (A := binary64) T nu = Returns nan.
Proof.
  intros H. unfold deltaU_term. rewrite hnu_over_kt_returns. cbn [bind_result].
  destruct (hnu_over_kt_zero_frequency nu H) as [E1 E2].
  cbn [fmul fdiv fsub fneg fone binary64]. rewrite E2, E1.
  apply zero_cases in H.
  rewrite (exp_of_zero nu H).
  change (1 - 1)%float with 0%float.
  rewrite (mul_zero _ 0%float k_positive) by now left.
  f_equal. apply float_nan. rewrite div_spec.
  destruct H as [-> | ->]; reflexivity.
Qed.

Lemma term_returns (nu : float) :
  (exists y, Svib_term (A := binary64) T nu = Returns y) /\
  (exists y, deltaU_term (A := binary64) T nu = Returns y).
Proof.
  unfold Svib_term, deltaU_term. rewrite hnu_over_kt_returns. cbn [bind_result].
  split; eexists; reflexivity.
Qed.

Lemma comprehension_zero_frequency {B : Type} (f : float -> result float float)
    (nus : list float) :
  (forall nu, exists y, f nu = Returns y) ->
  (forall nu, PrimFloat.eqb nu 0 = true -> f nu = Returns nan) ->
  Exists (fun nu => PrimFloat.eqb nu 0 = true) nus ->
  exists terms, comprehension f nus = Returns terms /\
                Exists (fun y => is_nan_sf (Prim2SF y) = true) terms.
Proof.
  intros Hret Hzero H. induction H as [nu nus Hnu|nu nus _ (terms & E & IH)].
  - destruct (comprehension_returns f nus Hret) as [ys Hys].
    exists (nan :: ys). split; [|now left].
    simpl. now rewrite (Hzero nu Hnu), Hys.
  - destruct (Hret nu) as [y Hy]. exists (y :: terms). split; [|now right].
    simpl. now rewrite Hy, E.
Qed.

Lemma calculate_Svib_zero_frequency (nus : list float) :
  Exists (fun nu => PrimFloat.eqb nu 0 = true) nus ->
  exists s_vib, calculate_Svib (A := binary64) nus T = Returns s_vib /\
                PrimFloat.is_nan s_vib = true.
Proof.
  intros H. unfold calculate_Svib.
  destruct (comprehension_zero_frequency (B := float) (Svib_term (A := binary64) T) nus)
    as (terms & -> & Hterms); try assumption.
  - intros nu. apply term_returns.
  - apply Svib_term_zero_frequency.
  - eexists. split; [reflexivity|]. rewrite is_nan_spec. apply mul_nan.
    apply (np_sum_absorbing (A := binary64) _ add_nan_l add_nan_r), Hterms.
Qed.

Lemma calculate_deltaU_zero_frequency (nus : list float) :
  Exists (fun nu => PrimFloat.eqb nu 0 = true) nus ->
  exists delta_u, calculate_deltaU (A := binary64) nus T = Returns delta_u /\
                  PrimFloat.is_nan delta_u = true.
Proof.
  intros H. unfold calculate_deltaU.
  destruct (comprehension_zero_frequency (B := float) (deltaU_term (A := binary64) T) nus)
    as (terms & -> & Hterms); try assumption.
  - intros nu. apply term_returns.
  - apply deltaU_term_zero_frequency.
  - eexists. split; [reflexivity|]. rewrite is_nan_spec. apply mul_nan.
    apply (np_sum_absorbing (A := binary64) _ add_nan_l add_nan_r), Hterms.
Qed.

End ZeroFrequency.

(** ** The three terms in the real numbers *)

Section ExactTerms.

Context {K : Constants R}.

Local Open Scope R_scope.


Lemma Sigma_permutation (f : R -> R) (xs ys : list R) :
  Permutation xs ys -> Formula.Sigma f xs = Formula.Sigma f ys.
Proof. intros H. induction H; simpl; lra. Qed.







Lemma exact_feqb_zero (r : R) : feqb r fzero = true <-> r = 0.
Proof. simpl. destruct (Req_dec_T r 0); split; intros; congruence. Qed.

(** The calculators on a list and on a rearrangement of it. *)
Lemma exact_calculators_permutation (xs ys : list R) (T : R) :
  Permutation xs ys ->
  calculate_ZPE (A := exact) xs = calculate_ZPE (A := exact) ys /\
  calculate_Svib (A := exact) xs T = calculate_Svib (A := exact) ys T /\
  calculate_deltaU (A := exact) xs T = calculate_deltaU (A := exact) ys T.
Proof.
  intros H.
  assert (Hnil : xs = [] <-> ys = []).
  { split; intros ->; [apply Permutation_nil, H|apply Permutation_nil; symmetry; exact H]. }
  split; [|].
  { rewrite !exact_calculate_ZPE. unfold Formula.ZPE. f_equal. apply Sigma_permutation, H. }
  destruct (Req_dec_T (boltzmann_constant * T) 0) as [Hz|Hz].
  - apply exact_feqb_zero in Hz.
    destruct xs as [|x xs].
    { rewrite (proj1 Hnil eq_refl). split; reflexivity. }
    assert (Hy : ys <> []) by (intros E; apply Hnil in E; discriminate).
    rewrite (calculate_Svib_zero (x :: xs) T), (calculate_Svib_zero ys T),
      (calculate_deltaU_zero (x :: xs) T), (calculate_deltaU_zero ys T);
      try assumption; try discriminate. split; reflexivity.
  - assert (Hk : boltzmann_constant <> 0) by (intros E; apply Hz; rewrite E; ring).
    assert (HT : T <> 0) by (intros E; apply Hz; rewrite E; ring).
    rewrite !exact_calculate_Svib, !exact_calculate_deltaU by assumption.
    unfold Formula.S_vib, Formula.deltaU. split; f_equal; [f_equal|]; apply Sigma_permutation, H.
Qed.


End ExactTerms.

(** ** Raising non-negative frequencies in binary64 *)

Lemma leb_not_below (a b : float) : PrimFloat.leb a b = true -> not_below a b.
Proof.
  intros H. apply leb_key in H. destruct H as (Na & Nb & Hk).
  unfold not_below. destruct (PrimFloat.ltb b a) eqn:L; [|reflexivity].
  apply ltb_key in L. lia.
Qed.

Lemma leb_trans (a b c : float) :
  PrimFloat.leb a b = true -> PrimFloat.leb b c = true -> PrimFloat.leb a c = true.
Proof.
  intros H1 H2. apply leb_key in H1, H2. apply leb_key.
  destruct H1 as (? & ? & ?), H2 as (? & ? & ?). repeat split; auto; lia.
Qed.

Lemma binary64_calculate_ZPE_monotone (K : Constants float) (xs ys : list float) :
  positive_finite (planck_constant * speed_of_light)%float ->
  Forall2 (fun nu nu' => PrimFloat.leb 0 nu = true /\ PrimFloat.leb nu nu' = true) xs ys ->
  PrimFloat.leb (calculate_ZPE (A := binary64) xs) (calculate_ZPE (A := binary64) ys) = true.
Proof.
  intros Hhc H.
  assert (Hall : Forall (fun nu => PrimFloat.leb 0 nu = true) xs /\
                 Forall (fun nu => PrimFloat.leb 0 nu = true) ys /\
                 Forall2 not_below xs ys).
  { induction H as [|x y xs ys [H0 H1] _ (IH1 & IH2 & IH3)].
    - repeat split; constructor.
    - repeat split; constructor; try assumption.
      + apply (leb_trans 0 x y H0 H1).
      + apply leb_not_below, H1. }
  destruct Hall as (Hx & Hy & Hxy).
  pose proof (binary64_calculate_ZPE_nonnegative K xs Hhc Hx) as Px.
  pose proof (binary64_calculate_ZPE_nonnegative K ys Hhc Hy) as Py.
  pose proof (binary64_calculate_ZPE_related K xs ys Hhc Hxy) as Hr.
  apply leb_key in Px, Py. destruct Px as (_ & Nx & _), Py as (_ & Ny & _).
  apply leb_key. repeat split; try assumption.
  unfold not_below in Hr.
  destruct (Z_le_gt_dec (key (Prim2SF (calculate_ZPE (A := binary64) xs)))
              (key (Prim2SF (calculate_ZPE (A := binary64) ys)))) as [Hle|Hgt]; [exact Hle|].
  assert (L : PrimFloat.ltb (calculate_ZPE (A := binary64) ys)
                (calculate_ZPE (A := binary64) xs) = true)
    by (apply ltb_key; repeat split; auto; lia).
  congruence.
Qed.

(** ** The temperature check in binary64 *)

Lemma init_temperature_value_iff (N : Numpy float) (K : Constants float)
    (w : world float) (s : string) (l : loc) (nus : list float) (t : float) :
  valid_name s -> valid_frequencies w l nus ->
  __init__ (A := binary64) (PyStr s) (PyList l) (PyFloat t) w
  = (Raises (exception_of TemperatureValue), w)
  <-> PrimFloat.ltb 0 t = false /\ PrimFloat.is_nan t = false.
Proof.
  intros Hs Hf.
  assert (Hcheck : PrimFloat.leb t 0 = true
                   <-> PrimFloat.ltb 0 t = false /\ PrimFloat.is_nan t = false).
  { pose proof (binary64_temperature_check t) as [Hc1 Hc2]. split.
    - intros L. split.
      + destruct (PrimFloat.ltb 0 t) eqn:E; [|reflexivity].
        rewrite Hc2 in L by now left. discriminate.
      + destruct (PrimFloat.is_nan t) eqn:E; [|reflexivity].
        rewrite Hc2 in L by now right. discriminate.
    - intros [L1 L2]. destruct (PrimFloat.leb t 0) eqn:E; [reflexivity|].
      destruct (Hc1 eq_refl); congruence. }
  rewrite <- Hcheck. clear Hcheck.
  destruct (PrimFloat.leb t 0) eqn:L.
  - rewrite init_first_failing_check.
    destruct Hf as [Hl Hn].
    unfold first_failing_check; simpl. rewrite Hl; simpl. rewrite length_map.
    rewrite find_not_float_floats.
    destruct (Nat.eqb_spec (String.length s) 0) as [E|E]; [contradiction|].
    destruct nus as [|nu nus]; [contradiction|]. simpl.
    rewrite L. tauto.
  - assert (Hv : valid_request (A := binary64) w s l nus t) 
      by (split; [exact Hs|split; [exact Hf|exact L]]).
    pose proof (init_valid_request_outcome (N := N) (K := K) w s l nus t Hv) as H.
    split; [|discriminate]. intros E. rewrite E in H.
    destruct (feqb (fmul boltzmann_constant t) fzero); [discriminate|].
    destruct H as [o H]. discriminate.
Qed.

(** ** The script *)

Section ScriptFacts.

Context {F : Type} {A : Arith F} {N : Numpy F} {K : Constants F}.

Lemma fresh_object (store : gmap loc (list (pyval F))) : store !! fresh (dom store) = None.
Proof. apply not_elem_of_dom, is_fresh. Qed.

Lemma valid_specimen_weaken (store store' : gmap loc (list (pyval F))) (i : table F)
    (s : string) (nus : list F) :
  store ⊆ store' -> valid_specimen store i s nus -> valid_specimen store' i s nus.
Proof.
  intros Hsub (l & H1 & H2 & H3 & H4 & H5). exists l. repeat split; try assumption.
  apply (lookup_weaken _ _ _ _ H4 Hsub).
Qed.

(** A valid specimen with a temperature that passes the check: the list
    is copied, and the constructor prints its lines or divides by zero. *)
Lemma loop_body_valid (T : F) (i : table F) (s : string) (nus : list F) (t : session F) :
  valid_specimen (objects t) i s nus -> fleb T fzero = false ->
  loop_body (PyFloat T) i t =
  match report_of T s nus with
  | Returns block =>
      (Completes tt,
       Session (<[fresh (dom (objects t)) := map PyFloat nus]> (objects t))
         (screen t ++ map Line block))
  | Raises e =>
      (Uncaught (Exn e),
       Session (<[fresh (dom (objects t)) := map PyFloat nus]> (objects t)) (screen t))
  end.
Proof.
  intros (l & Hname & Hs & Hfreq & Hl & Hn) HT.
  unfold loop_body, and_then, subscript. rewrite Hname, Hfreq.
  cbn [complete iterate new_list]. rewrite Hl. cbn [default].
  unfold call_Corrections. cbn [objects screen].
  set (l' := fresh (dom (objects t))).
  assert (Hv : valid_request (World (<[l' := map PyFloat nus]> (objects t)) []) s l' nus T).
  { split; [exact Hs|split; [|exact HT]]. split; [|exact Hn].
    cbn [heap]. apply lookup_insert_eq. }
  rewrite (init_valid_request _ _ _ _ _ Hv). unfold report_of.
  destruct (calculate_Svib nus T) as [sv|e]; cbn [bind_result].
  - destruct (calculate_deltaU nus T) as [du|e]; cbn [bind_result heap stdout app].
    + reflexivity.
    + now rewrite app_nil_r.
  - cbn [heap stdout map]. now rewrite app_nil_r.
Qed.

Lemma report_of_returns (T : F) (s : string) (nus : list F) :
  feqb (fmul boltzmann_constant T) fzero = false ->
  exists block, report_of T s nus = Returns block.
Proof.
  intros Hz. unfold report_of.
  destruct (calculate_Svib_nonzero nus T Hz) as [sv ->].
  destruct (calculate_deltaU_nonzero nus T Hz) as [du ->].
  cbn [bind_result]. eauto.
Qed.

Lemma for_specimen_valid (T : F) (specimen : list (table F))
    (expected : list (string * list F)) (t : session F) :
  fleb T fzero = false -> feqb (fmul boltzmann_constant T) fzero = false ->
  Forall2 (fun i e => valid_specimen (objects t) i (fst e) (snd e)) specimen expected ->
  exists t' blocks,
    for_specimen (PyFloat T) specimen t = (Completes tt, t') /\
    Forall2 (fun e block => report_of T (fst e) (snd e) = Returns block) expected blocks /\
    screen t' = screen t ++ map Line (concat blocks) /\
    objects t ⊆ objects t'.
Proof.
  intros HT Hz H. revert expected t H.
  induction specimen as [|i rest IH]; intros expected t H.
  - inversion H; subst. exists t, []. split; [reflexivity|split; [constructor|split]].
    + simpl. now rewrite app_nil_r.
    + reflexivity.
  - inversion H as [|? [s nus] ? expected' Hi Hrest]; subst. cbn [fst snd] in Hi.
    destruct (report_of_returns T s nus Hz) as [block Hblock].
    pose proof (loop_body_valid T i s nus t Hi HT) as Hbody. rewrite Hblock in Hbody.
    set (t1 := Session (<[fresh (dom (objects t)) := map PyFloat nus]> (objects t))
                 (screen t ++ map Line block)) in *.
    assert (Hsub : objects t ⊆ objects t1).
    { apply insert_subseteq, fresh_object. }
    destruct (IH expected' t1) as (t' & blocks & Hrun & Hblocks & Hscreen & Hsub').
    { eapply Forall2_impl; [exact Hrest|].
      intros i' e' Hv. exact (valid_specimen_weaken _ _ _ _ _ Hsub Hv). }
    exists t', (block :: blocks). split; [|split; [|split]].
    + cbn [for_specimen]. unfold and_then at 1. rewrite Hbody. exact Hrun.
    + constructor; assumption.
    + rewrite Hscreen. cbn [screen t1 concat]. now rewrite map_app, app_assoc.
    + etransitivity; eassumption.
Qed.

Lemma for_specimen_app (temperature : pyval F) (xs ys : list (table F)) (t : session F) :
  for_specimen temperature (xs ++ ys) t =
  match for_specimen temperature xs t with
  | (Completes _, t') => for_specimen temperature ys t'
  | (Uncaught e, t') => (Uncaught e, t')
  end.
Proof.
  revert t. induction xs as [|i xs IH]; intros t; [reflexivity|].
  cbn [app for_specimen]. unfold and_then.
  destruct (loop_body temperature i t) as [[[]|e] t1]; [apply IH|reflexivity].
Qed.

(** A temperature that is not a float, with a first specimen that is
    valid. *)
Lemma loop_body_temperature_type (v : pyval F) (i : table F) (s : string) (nus : list F)
    (t : session F) :
  isinstance_float v = false -> valid_specimen (objects t) i s nus ->
  loop_body v i t =
  (Uncaught (Exn (exception_of TemperatureType)),
   Session (<[fresh (dom (objects t)) := map PyFloat nus]> (objects t)) (screen t)).
Proof.
  intros Hv (l & Hname & Hs & Hfreq & Hl & Hn).
  unfold loop_body, and_then, subscript. rewrite Hname, Hfreq.
  cbn [complete iterate new_list]. rewrite Hl. cbn [default].
  unfold call_Corrections. cbn [objects screen].
  rewrite init_first_failing_check. unfold first_failing_check.
  cbn [isinstance_str negb name_has_no_character isinstance_List elements_of heap].
  rewrite lookup_insert_eq. cbn [default]. unfold Datatypes.id.
  rewrite length_map, find_not_float_floats.
  destruct (Nat.eqb_spec (String.length s) 0) as [E|E]; [contradiction|].
  destruct nus as [|nu nus]; [contradiction|]. cbn [List.length Nat.eqb].
  rewrite Hv. cbn [negb stdout map]. now rewrite app_nil_r.
Qed.

Lemma main_parsed (data : document F) (temperature : pyval F) (specimen : list (table F))
    (t : session F) :
  data_temperature data = Some temperature -> data_specimen data = Some specimen ->
  main (Parsed data) t
  = for_specimen temperature specimen (Session (objects t) (screen t ++ [PrintData data])).
Proof.
  intros Ht Hs. unfold main, and_then, display, subscript. now rewrite Ht, Hs.
Qed.

End ScriptFacts.

(** ** The two sums of a valid request *)

Section Values.

Context {F : Type} {A : Arith F} {N : Numpy F} {K : Constants F}.





End Values.


(** In the real numbers, with positive constants, temperature and
    frequencies, the sums are those of sections 4.3 and 4.4. *)
Section ExactValues.

Context {K : Constants R}.

Local Open Scope R_scope.




End ExactValues.

(** ** The internal energy and the entropy of a valid request *)







(** ** Properties of the edge cases and of the script *)

(** X5.  The calculators validate nothing.  In every arithmetic,
    [calculate_Svib] and [calculate_deltaU] raise [ZeroDivisionError]
    exactly when the list has an element and [k_B * T == 0]; they raise
    nothing else. *)
Theorem X5_calculators_divide_by_zero (F : Type) (A : Arith F) (N : Numpy F)
    (K : Constants F) (nus : list F) (t : F) :
  (calculate_Svib nus t = Raises ZeroDivisionError
   <-> nus <> [] /\ feqb (fmul boltzmann_constant t) fzero = true) /\
  (calculate_deltaU nus t = Raises ZeroDivisionError
   <-> nus <> [] /\ feqb (fmul boltzmann_constant t) fzero = true) /\
  (forall e, calculate_Svib nus t = Raises e \/ calculate_deltaU nus t = Raises e ->
             e = ZeroDivisionError).
Proof.
  split; [apply calculate_Svib_raises_iff|split; [apply calculate_deltaU_raises_iff|]].
  intros e [H|H].
  - exact (calculate_Svib_raises _ _ _ H).
  - exact (calculate_deltaU_raises _ _ _ H).
Qed.

(** X6.  In binary64 with the scipy constants, a request that passes the
    checks raises [ZeroDivisionError] exactly when its temperature is at
    most [5802 * 2**-1074], which Python prints as [2.8666e-320]; at
    every other temperature the checks accept, the constructor returns
    and prints its three lines. *)
Theorem X6_temperatures_that_divide_by_zero (N : Numpy float) :
  under_scipy_constants (fun K =>
    forall (w : world float) (s : string) (l : loc) (nus : list float) (T : float),
      valid_request (A := binary64) w s l nus T ->
      if PrimFloat.leb T 0x16aap-1074
      then __init__ (A := binary64) (PyStr s) (PyList l) (PyFloat T) w
           = (Raises ZeroDivisionError, w)
      else exists o,
           __init__ (A := binary64) (PyStr s) (PyList l) (PyFloat T) w
           = (Returns o,
              World (heap w) (stdout w ++ report s T (ZPE o) (S_vib o) (deltaU o)))).
Proof.
  split; apply init_divides_iff; intros T HT;
    destruct (scipy_boltzmann_times_zero T HT) as [H1 H2]; assumption.
Qed.

Lemma X6_temperatures_that_divide_by_zero_witness :
  __init__ (A := binary64) (N := {| np_exp := fun x => x; np_log := fun x => x |})
    (K := scipy_binary64) (PyStr "O") (PyList 1%positive) (PyFloat 1e-320%float)
    (world_with [PyFloat 1000%float])
  = (Raises ZeroDivisionError, world_with [PyFloat 1000%float]).
Proof.
  refine (proj1 (X6_temperatures_that_divide_by_zero
                   {| np_exp := fun x => x; np_log := fun x => x |})
            (world_with [PyFloat 1000%float]) "O"%string 1%positive [1000%float] 1e-320%float _).
  split; [discriminate|split; [split; [reflexivity|discriminate]|reflexivity]].
Defined.

(** X7.  In binary64, with a valid name and a valid list, the constructor
    raises the [ValueError] of the temperature check exactly when the
    temperature is neither above zero nor a nan: [nan <= 0] is false, so
    a nan temperature is not rejected. *)
Theorem X7_temperature_check_in_binary64 (N : Numpy float) (K : Constants float)
    (w : world float) (s : string) (l : loc) (nus : list float) (t : float) :
  valid_name s -> valid_frequencies w l nus ->
  __init__ (A := binary64) (PyStr s) (PyList l) (PyFloat t) w
  = (Raises (exception_of TemperatureValue), w)
  <-> PrimFloat.ltb 0 t = false /\ PrimFloat.is_nan t = false.
Proof. apply init_temperature_value_iff. Qed.

Lemma X7_temperature_check_in_binary64_witness :
  __init__ (A := binary64) (N := {| np_exp := fun x => x; np_log := fun x => x |})
    (K := scipy_binary64) (PyStr "O") (PyList 1%positive) (PyFloat nan)
    (world_with [PyFloat 3657%float])
  = (Raises (exception_of TemperatureValue), world_with [PyFloat 3657%float])
  <-> PrimFloat.ltb 0 nan = false /\ PrimFloat.is_nan nan = false.
Proof.
  apply (X7_temperature_check_in_binary64 _ scipy_binary64
           (world_with [PyFloat 3657%float]) "O" 1%positive [3657%float] nan).
  - discriminate.
  - split; [reflexivity|discriminate].
Defined.

(** X8.  In binary64, with [h*c] positive and finite, the zero-point
    energy of frequencies that are all [>= 0] is [>= 0]; in particular it
    is not a nan. *)
Theorem X8_ZPE_nonnegative_in_binary64 (K : Constants float) (nus : list float) :
  positive_finite (planck_constant * speed_of_light)%float ->
  Forall (fun nu => PrimFloat.leb 0 nu = true) nus ->
  PrimFloat.leb 0 (calculate_ZPE (A := binary64) nus) = true.
Proof. apply binary64_calculate_ZPE_nonnegative. Qed.

Lemma X8_ZPE_nonnegative_in_binary64_witness :
  PrimFloat.leb 0 (calculate_ZPE (A := binary64) (K := scipy_binary64) [3657; 0; 1595]%float)
  = true.
Proof.
  apply (X8_ZPE_nonnegative_in_binary64 scipy_binary64 [3657; 0; 1595]%float).
  - split; reflexivity.
  - repeat constructor.
Defined.

(** X9.  In binary64, with [h*c] positive and finite: if every frequency
    of one list is [>= 0] and at most the frequency at the same place of
    a second list, the zero-point energy of the first list is at most
    that of the second. *)
Theorem X9_ZPE_monotone_in_binary64 (K : Constants float) (nus nus' : list float) :
  positive_finite (planck_constant * speed_of_light)%float ->
  Forall2 (fun nu nu' => PrimFloat.leb 0 nu = true /\ PrimFloat.leb nu nu' = true) nus nus' ->
  PrimFloat.leb (calculate_ZPE (A := binary64) nus) (calculate_ZPE (A := binary64) nus')
  = true.
Proof. apply binary64_calculate_ZPE_monotone. Qed.

Lemma X9_ZPE_monotone_in_binary64_witness :
  PrimFloat.leb
    (calculate_ZPE (A := binary64) (K := scipy_binary64) [3657; 1595]%float)
    (calculate_ZPE (A := binary64) (K := scipy_binary64) [3756; 1595]%float)
  = true.
Proof.
  apply (X9_ZPE_monotone_in_binary64 scipy_binary64 [3657; 1595]%float [3756; 1595]%float).
  - split; reflexivity.
  - repeat constructor.
Defined.

(** X10.  In binary64 a nan among the frequencies makes the zero-point
    energy a nan, wherever it is in the list, however long the list is
    and whatever the constants are. *)
Theorem X10_nan_frequency_gives_nan_ZPE (K : Constants float) (nus : list float) :
  Exists (fun nu => PrimFloat.is_nan nu = true) nus ->
  PrimFloat.is_nan (calculate_ZPE (A := binary64) nus) = true.
Proof. apply binary64_calculate_ZPE_nan. Qed.

Lemma X10_nan_frequency_gives_nan_ZPE_witness :
  PrimFloat.is_nan (calculate_ZPE (A := binary64) (K := scipy_binary64) [3657; nan]%float)
  = true.
Proof.
  apply (X10_nan_frequency_gives_nan_ZPE scipy_binary64 [3657; nan]%float).
  right. left. reflexivity.
Defined.

(** X11.  A frequency of zero is not rejected and raises nothing.  In
    binary64, with [np.exp(0.0)] and [np.exp(-0.0)] equal to [1.0], [h*c]
    and [k_B] positive and finite and [k_B * T > 0]: on a request that
    passes the checks and has a frequency equal to zero, both
    [calculate_Svib] and [calculate_deltaU] return a nan (the term of
    that frequency is [0/0]), and the constructor returns an object
    whose [S_vib] and [deltaU] are these nans. *)
Theorem X11_zero_frequency_gives_nan (N : Numpy float) (K : Constants float)
    (w : world float) (s : string) (l : loc) (nus : list float) (T : float) :
  np_exp 0%float = 1%float -> np_exp (-0)%float = 1%float ->
  positive_finite (planck_constant * speed_of_light)%float ->
  positive_finite boltzmann_constant ->
  PrimFloat.ltb 0 (boltzmann_constant * T) = true ->
  valid_request (A := binary64) w s l nus T ->
  Exists (fun nu => PrimFloat.eqb nu 0 = true) nus ->
  exists s_vib delta_u w',
    calculate_Svib (A := binary64) nus T = Returns s_vib /\
    calculate_deltaU (A := binary64) nus T = Returns delta_u /\
    PrimFloat.is_nan s_vib = true /\ PrimFloat.is_nan delta_u = true /\
    __init__ (A := binary64) (PyStr s) (PyList l) (PyFloat T) w
    = (Returns (Self s l T (calculate_ZPE (A := binary64) nus) s_vib delta_u), w').
Proof.
  intros He He' Hhc Hk HkT Hv Hz.
  destruct (calculate_Svib_zero_frequency He He' Hhc T HkT nus Hz) as (sv & E1 & N1).
  destruct (calculate_deltaU_zero_frequency He He' Hhc Hk T HkT nus Hz) as (du & E2 & N2).
  exists sv, du. eexists. repeat split; try assumption.
  rewrite (init_valid_request _ _ _ _ _ Hv), E1, E2. reflexivity.
Qed.

Lemma X11_zero_frequency_gives_nan_witness :
  exists s_vib delta_u w',
    calculate_Svib (A := binary64) (N := {| np_exp := fun _ => 1%float; np_log := fun x => x |})
      (K := scipy_binary64) [3657; 0]%float 300%float = Returns s_vib /\
    calculate_deltaU (A := binary64) (N := {| np_exp := fun _ => 1%float; np_log := fun x => x |})
      (K := scipy_binary64) [3657; 0]%float 300%float = Returns delta_u /\
    PrimFloat.is_nan s_vib = true /\ PrimFloat.is_nan delta_u = true /\
    __init__ (A := binary64) (N := {| np_exp := fun _ => 1%float; np_log := fun x => x |})
      (K := scipy_binary64) (PyStr "O") (PyList 1%positive) (PyFloat 300%float)
      (world_with [PyFloat 3657%float; PyFloat 0%float])
    = (Returns (Self "O" 1%positive 300%float
                  (calculate_ZPE (A := binary64) (K := scipy_binary64) [3657; 0]%float)
                  s_vib delta_u), w').
Proof.
  refine (X11_zero_frequency_gives_nan
            {| np_exp := fun _ => 1%float; np_log := fun x => x |}
            scipy_binary64 (world_with [PyFloat 3657%float; PyFloat 0%float])
            "O"%string 1%positive [3657; 0]%float 300%float _ _ _ _ _ _ _).
  - reflexivity.
  - reflexivity.
  - split; reflexivity.
  - split; reflexivity.
  - reflexivity.
  - split; [discriminate|split; [split; [reflexivity|discriminate]|reflexivity]].
  - right. left. reflexivity.
Defined.



(** X13.  In the real numbers the three calculators give the same result
    on a list and on any rearrangement of it; the same exception, when
    [k_B * T = 0].  In binary64 the order counts: with the scipy
    constants [[100.0, 203.0, 170.0]] and [[170.0, 203.0, 100.0]] have
    different zero-point energies. *)
Theorem X13_order_of_frequencies (K : Constants R) (nus nus' : list R) (T : R) :
  (Permutation nus nus' ->
   calculate_ZPE (A := exact) nus = calculate_ZPE (A := exact) nus' /\
   calculate_Svib (A := exact) nus T = calculate_Svib (A := exact) nus' T /\
   calculate_deltaU (A := exact) nus T = calculate_deltaU (A := exact) nus' T) /\
  under_scipy_constants (fun K' =>
    PrimFloat.eqb (calculate_ZPE (A := binary64) [100; 203; 170]%float)
      (calculate_ZPE (A := binary64) [170; 203; 100]%float) = false).
Proof.
  split; [apply exact_calculators_permutation|split; reflexivity].
Qed.

Lemma X13_order_of_frequencies_witness :
  calculate_ZPE (A := exact) (K := scipy_exact) [3657; 1595]%R
  = calculate_ZPE (A := exact) (K := scipy_exact) [1595; 3657]%R.
Proof.
  refine (proj1 (proj1 (X13_order_of_frequencies scipy_exact [3657; 1595]%R
                          [1595; 3657]%R 300%R) _)).
  apply perm_swap.
Defined.



(** X15.  The script on a document whose temperature is a float that
    passes the check with [k_B * T] not zero, and whose specimens all
    have a name with a character and a non-empty array of floats: it
    completes; it prints the document and then, specimen after specimen,
    the three lines of the constructor; and every list object that was
    in the store is still there, unchanged, because each constructor
    gets a copy of the array. *)
Theorem X15_script_on_a_valid_document (F : Type) (A : Arith F) (N : Numpy F)
    (K : Constants F) (data : document F) (T : F) (specimen : list (table F))
    (expected : list (string * list F)) (t : session F) :
  data_temperature data = Some (PyFloat T) -> data_specimen data = Some specimen ->
  fleb T fzero = false -> feqb (fmul boltzmann_constant T) fzero = false ->
  Forall2 (fun i e => valid_specimen (objects t) i (fst e) (snd e)) specimen expected ->
  exists t' blocks,
    main (Parsed data) t = (Completes tt, t') /\
    Forall2 (fun e block => report_of T (fst e) (snd e) = Returns block) expected blocks /\
    screen t' = screen t ++ PrintData data :: map Line (concat blocks) /\
    objects t ⊆ objects t'.
Proof.
  intros Ht Hs HT Hz Hv.
  destruct (for_specimen_valid T specimen expected
              (Session (objects t) (screen t ++ [PrintData data])) HT Hz Hv)
    as (t' & blocks & Hrun & Hblocks & Hscreen & Hsub).
  exists t', blocks. split; [|split; [exact Hblocks|split; [|exact Hsub]]].
  - rewrite (main_parsed data (PyFloat T) specimen t Ht Hs). exact Hrun.
  - rewrite Hscreen. cbn [screen]. now rewrite <- app_assoc.
Qed.

Lemma X15_script_on_a_valid_document_witness :
  exists t' blocks,
    main (A := exact) (N := exact_numpy) (K := scipy_exact)
      (Parsed (Document (Some (PyFloat 300%R))
                 (Some [[("name"%string, PyStr "O"); ("frequencies"%string, PyList 1%positive)]])))
      (Session {[ 1%positive := [PyFloat 3657%R] ]} [])
    = (Completes tt, t') /\
    Forall2 (fun e block =>
               report_of (A := exact) (N := exact_numpy) (K := scipy_exact)
                 300%R (fst e) (snd e) = Returns block)
      [("O"%string, [3657%R])] blocks /\
    screen t'
    = [] ++ PrintData (Document (Some (PyFloat 300%R))
                         (Some [[("name"%string, PyStr "O"); ("frequencies"%string, PyList 1%positive)]]))
         :: map Line (concat blocks) /\
    {[ 1%positive := [PyFloat 3657%R] ]} ⊆ objects t'.
Proof.
  refine (X15_script_on_a_valid_document R exact exact_numpy scipy_exact
            (Document (Some (PyFloat 300%R))
               (Some [[("name"%string, PyStr "O"); ("frequencies"%string, PyList 1%positive)]]))
            300%R
            [[("name"%string, PyStr "O"); ("frequencies"%string, PyList 1%positive)]]
            [("O"%string, [3657%R])]
            (Session {[ 1%positive := [PyFloat 3657%R] ]} []) _ _ _ _ _).
  - reflexivity.
  - reflexivity.
  - apply exact_fleb_false. lra.
  - simpl. destruct (Req_dec_T _ 0) as [E|E]; [lra|reflexivity].
  - constructor; [|constructor].
    exists 1%positive. repeat split; try reflexivity; discriminate.
Defined.

(** X16.  The script stops at the first specimen whose processing
    raises: if the specimens before it are processed without an
    exception, the script ends with the exception of that specimen, in
    the state that specimen left, whatever specimens come after it. *)
Theorem X16_script_stops_at_first_failure (F : Type) (A : Arith F) (N : Numpy F)
    (K : Constants F) (data : document F) (temperature : pyval F)
    (before after : list (table F)) (i : table F) (t t1 t2 : session F) (e : uncaught F) :
  data_temperature data = Some temperature ->
  data_specimen data = Some (before ++ i :: after) ->
  for_specimen temperature before (Session (objects t) (screen t ++ [PrintData data]))
  = (Completes tt, t1) ->
  loop_body temperature i t1 = (Uncaught e, t2) ->
  main (Parsed data) t = (Uncaught e, t2).
Proof.
  intros Ht Hs Hbefore Hi.
  rewrite (main_parsed data temperature _ t Ht Hs).
  rewrite for_specimen_app, Hbefore. cbn [for_specimen]. unfold and_then. now rewrite Hi.
Qed.

Lemma X16_script_stops_at_first_failure_witness :
  main (A := exact) (N := exact_numpy) (K := scipy_exact)
    (Parsed (Document (Some (PyFloat 300%R))
               (Some ([] ++ [("frequencies"%string, PyList 1%positive)]
                         :: [[("name"%string, PyStr "O"); ("frequencies"%string, PyList 1%positive)]]))))
    (Session {[ 1%positive := [PyFloat 3657%R] ]} [])
  = (Uncaught (KeyError "name"),
     Session {[ 1%positive := [PyFloat 3657%R] ]}
       ([] ++ [PrintData
                 (Document (Some (PyFloat 300%R))
                    (Some ([] ++ [("frequencies"%string, PyList 1%positive)]
                              :: [[("name"%string, PyStr "O");
                                   ("frequencies"%string, PyList 1%positive)]])))])).
Proof.
  apply (X16_script_stops_at_first_failure R exact exact_numpy scipy_exact
           (Document (Some (PyFloat 300%R))
              (Some ([] ++ [("frequencies"%string, PyList 1%positive)]
                        :: [[("name"%string, PyStr "O"); ("frequencies"%string, PyList 1%positive)]])))
           (PyFloat 300%R) []
           [[("name"%string, PyStr "O"); ("frequencies"%string, PyList 1%positive)]]
           [("frequencies"%string, PyList 1%positive)]
           (Session {[ 1%positive := [PyFloat 3657%R] ]} [])
           (Session {[ 1%positive := [PyFloat 3657%R] ]}
              ([] ++ [PrintData
                        (Document (Some (PyFloat 300%R))
                           (Some ([] ++ [("frequencies"%string, PyList 1%positive)]
                                     :: [[("name"%string, PyStr "O");
                                          ("frequencies"%string, PyList 1%positive)]])))]))).
  - reflexivity.
  - reflexivity.
  - reflexivity.
  - reflexivity.
Defined.

(** X17.  The script does not check the temperature itself.  With a
    temperature in the document that is not a float, such as the TOML
    integer [300]: if there is no specimen the script completes and
    prints only the document; if the first specimen is valid, its
    constructor raises the [TypeError] of the temperature check, and
    only the document has been printed. *)
Theorem X17_script_temperature_not_a_float (F : Type) (A : Arith F) (N : Numpy F)
    (K : Constants F) (data : document F) (temperature : pyval F) (t : session F) :
  data_temperature data = Some temperature -> isinstance_float temperature = false ->
  (data_specimen data = Some [] ->
   main (Parsed data) t
   = (Completes tt, Session (objects t) (screen t ++ [PrintData data]))) /\
  (forall i rest s nus,
      data_specimen data = Some (i :: rest) -> valid_specimen (objects t) i s nus ->
      exists t', main (Parsed data) t
                 = (Uncaught (Exn (exception_of TemperatureType)), t') /\
                 screen t' = screen t ++ [PrintData data]).
Proof.
  intros Ht Hv. split.
  - intros Hs. now rewrite (main_parsed data temperature [] t Ht Hs).
  - intros i rest s nus Hs Hi.
    eexists. split.
    + rewrite (main_parsed data temperature (i :: rest) t Ht Hs).
      cbn [for_specimen]. unfold and_then.
      rewrite (loop_body_temperature_type temperature i s nus
                 (Session (objects t) (screen t ++ [PrintData data])) Hv Hi).
      reflexivity.
    + reflexivity.
Qed.

Lemma X17_script_temperature_not_a_float_witness :
  main (A := exact) (N := exact_numpy) (K := scipy_exact)
    (Parsed (Document (Some (PyInt 300)) (Some [])))
    (Session {[ 1%positive := [PyFloat 3657%R] ]} [])
  = (Completes tt,
     Session {[ 1%positive := [PyFloat 3657%R] ]}
       ([] ++ [PrintData (Document (Some (PyInt 300)) (Some []))])).
Proof.
  refine (proj1 (X17_script_temperature_not_a_float R exact exact_numpy scipy_exact
                   (Document (Some (PyInt 300)) (Some [])) (PyInt 300)
                   (Session {[ 1%positive := [PyFloat 3657%R] ]} []) _ _) _).
  - reflexivity.
  - reflexivity.
  - reflexivity.
Defined.


